(** * docker-volume-vsphere, shared driver: the etcd coordination core

    A shallow embedding of [client_plugin/drivers/shared/etcdops.go]:
    cluster bootstrap ([Init], [startEtcdCluster], [joinEtcdCluster],
    [checkLocalEtcd]), the metadata API ([WriteVolMetadata],
    [ReadVolMetadata], [DeleteVolMetadata], [CompareAndPut],
    [ListVolumeName]) and the global-refcount watcher
    ([etcdEventHandler]).

    Go code that talks to the outside (docker, the etcd client library,
    goroutines, the SMB server) is embedded as a program over a signature
    of external calls; a [World] gives those calls a meaning (the
    replicated store is a [gmap string string]) and records every call in
    a trace. *)

From stdpp Require Import base strings list gmap sorting.
From Stdlib Require Import ZArith Ascii String.

Local Open Scope Z_scope.
Local Open Scope string_scope.
Local Open Scope list_scope.

(** ** Go's [strings] helpers used by the source *)

Module GoStrings.

(** [strip p s] is [Some rest] when [s = p ++ rest]. *)
Fixpoint strip (p s : string) : option string :=
  match p with
  | EmptyString => Some s
  | String a p' =>
      match s with
      | EmptyString => None
      | String b s' => if decide (a = b) then strip p' s' else None
      end
  end.

(** [strings.TrimPrefix(s, prefix)]: [s] without the leading [prefix],
    or [s] itself when it does not start with [prefix]. *)
Definition TrimPrefix (s prefix : string) : string :=
  match strip prefix s with
  | Some rest => rest
  | None => s
  end.

(** [strings.HasPrefix(s, prefix)]. *)
Definition HasPrefix (s prefix : string) : bool :=
  match strip prefix s with
  | Some _ => true
  | None => false
  end.

(** [strings.Split(s, ":")[0]]: the text before the first colon, the
    whole of [s] when it has none.  Split with a non-empty separator
    always yields at least one element, so the index cannot fail. *)
Fixpoint SplitColon0 (s : string) : string :=
  match s with
  | EmptyString => EmptyString
  | String a s' =>
      if decide (a = ":"%char) then EmptyString else String a (SplitColon0 s')
  end.

End GoStrings.
Export GoStrings.

(** ** Constants of etcdops.go *)

(** [time.Duration] counts nanoseconds. *)
Definition Duration := Z.
Definition Second : Duration := 1000000000.

Definition etcdClientPort : string := ":2379".
Definition etcdPeerPort : string := ":2380".
Definition etcdClusterToken : string := "vsphere-shared-etcd-cluster".
Definition etcdListenURL : string := "0.0.0.0".
Definition etcdScheme : string := "http://".
Definition etcdClusterStateNew : string := "new".
Definition etcdClusterStateExisting : string := "existing".
Definition etcdPrefixState : string := "SVOLS_stat_".
Definition etcdPrefixGRef : string := "SVOLS_gref_".
Definition etcdPrefixInfo : string := "SVOLS_info_".
Definition requestTimeout : Duration := 5 * Second.
Definition checkSleepDuration : Duration := Second.
Definition etcdClientCreateError : string := "Failed to create etcd client".
Definition VolumeDoesNotExistError : string := "No such volume".
Definition etcdSingleRef : string := "1".
Definition etcdNoRef : string := "0".

(** Modelled from the spec: the volume state constants [volStateReady],
    [volStateIntermediate], [volStateMounted] and [volStateError] are
    used by etcdops.go and declared in a file that is not part of the
    sources at hand.  The specification's data model lists the states,
    "compared and stored as strings", under these names. *)
Definition volStateReady : string := "Ready".
Definition volStateIntermediate : string := "Intermediate".
Definition volStateMounted : string := "Mounted".
Definition volStateError : string := "Error".

(** Go's [error]: a message, [None] for [nil]. *)
Definition error := string.

(** ** Data of the etcd client library and of docker, as far as the
    source reads it *)

(** [mvccpb.KeyValue]. *)
Record KeyValue := mkKeyValue { Key : string; Value : string }.

Inductive EventType := EventTypePut | EventTypeDelete.

(** [clientv3.Event]; [Kv] and [PrevKv] are pointers. *)
Record Event := mkEvent {
  Type_ : EventType;
  Kv : option KeyValue;
  PrevKv : option KeyValue
}.

(** [kvPair] of etcdops.go. *)
Record kvPair := mkKvPair { key : string; value : string }.

(** [context.Context] values handed to the client library. *)
Inductive Context :=
| ctxBackground
| ctxTODO
| ctxWithTimeout (d : Duration).

(** Comparisons of a guarded transaction: only
    [Compare(Value(key), "=", v)] occurs. *)
Inductive Cmp := CompareValueEq (k v : string).

(** [clientv3.Op]. *)
Inductive KvOp :=
| OpPut (k v : string)
| OpGet (k : string)
| OpDelete (k : string).

Inductive OpOption :=
| WithPrefix
| WithPrevKV
| WithSortByKeyDescend.

(** [RangeResponse], then the response of one operation in a
    transaction. *)
Record RangeResponse := mkRange { Kvs : list KeyValue; Count : Z }.

Inductive ResponseOp :=
| ResponseRange (r : RangeResponse)
| ResponsePut
| ResponseDeleteRange (deleted : Z).

Record TxnResponse := mkTxnResponse {
  Succeeded : bool;
  Responses : list ResponseOp
}.

(** [etcdserverpb.Member]. *)
Record Member := mkMember {
  ID : N;
  Name : string;
  PeerURLs : list string
}.

(** A handle returned by [etcdClient.New]. *)
Record Client := mkClient { c_id : nat; c_endpoints : list string }.

(** docker's [swarm.Peer], [swarm.Info], [types.Info],
    [swarm.ManagerStatus] and [swarm.Node]. *)
Record Peer := mkPeer { p_NodeID : string; Addr : string }.

Record SwarmInfo := mkSwarm {
  NodeID : string;
  NodeAddr : string;
  ControlAvailable : bool;
  RemoteManagers : list Peer
}.

Record Info := mkInfo { Swarm : SwarmInfo }.

Record ManagerStatus := mkManagerStatus { Leader : bool; m_Addr : string }.

Record Node := mkNode { n_ID : string; n_ManagerStatus : option ManagerStatus }.

Global Instance KeyValue_eq_dec : EqDecision KeyValue.
Proof. solve_decision. Defined.
Global Instance EventType_eq_dec : EqDecision EventType.
Proof. solve_decision. Defined.
Global Instance kvPair_eq_dec : EqDecision kvPair.
Proof. solve_decision. Defined.
Global Instance Member_eq_dec : EqDecision Member.
Proof. solve_decision. Defined.
Global Instance Client_eq_dec : EqDecision Client.
Proof. solve_decision. Defined.
Global Instance OpOption_eq_dec : EqDecision OpOption.
Proof. solve_decision. Defined.

(** ** External calls *)

(** Every call the source makes to something outside etcdops.go. *)
Inductive Op :=
| dockerInfo
| dockerNodeInspectWithRaw (nodeID : string)
| dockerNodeList
| etcdNew (endpoints : list string)
| etcdClose (c : Client)
| etcdTxn (c : Client) (ctx : Context) (ifs : list Cmp) (thens : list KvOp)
| etcdDo (c : Client) (ctx : Context) (op : KvOp)
| etcdGet (c : Client) (ctx : Context) (k : string) (opts : list OpOption)
| etcdWatch (c : Client) (ctx : Context) (k : string) (opts : list OpOption)
| etcdMemberList (c : Client) (ctx : Context)
| etcdMemberRemove (c : Client) (ctx : Context) (id : N)
| etcdMemberAdd (c : Client) (ctx : Context) (peerAddrs : list string)
| timeNewTicker (d : Duration)
| timeNewTimer (d : Duration)
| tickerStop
| timerStop
| goEtcdService (lines : list string)
| goEtcdWatcher (c : Client)
| startSMBServer (volName : string)
| stopSMBServer (volName : string).

(** What each call hands back.  A pair [(resp, err)] stands for Go's two
    results where the source reads the response on the error path too;
    a sum stands for them where it does not. *)
Definition Res (op : Op) : Type :=
  match op with
  | dockerInfo => Info + error
  | dockerNodeInspectWithRaw _ => Node + error
  | dockerNodeList => list Node + error
  | etcdNew _ => Client + error
  | etcdClose _ => unit
  | etcdTxn _ _ _ _ => TxnResponse + error
  | etcdDo _ _ _ => unit + error
  | etcdGet _ _ _ _ => list KeyValue + error
  | etcdWatch _ _ _ _ => unit
  | etcdMemberList _ _ => option (list Member) * option error
  | etcdMemberRemove _ _ _ => option (list Member) * option error
  | etcdMemberAdd _ _ _ => option (list Member) * option error
  | timeNewTicker _ | timeNewTimer _ | tickerStop | timerStop => unit
  | goEtcdService _ | goEtcdWatcher _ => unit
  | startSMBServer _ | stopSMBServer _ => bool
  end%type.

(** ** Programs *)

(** A Go function body: it returns, panics, or makes an external call
    and goes on with the answer. *)
Inductive Prog (A : Type) : Type :=
| Ret (a : A)
| Panic (msg : string)
| Vis (op : Op) (k : Res op → Prog A).
Arguments Ret {A} a.
Arguments Panic {A} msg.
Arguments Vis {A} op k.

Fixpoint bind {A B} (p : Prog A) (f : A → Prog B) : Prog B :=
  match p with
  | Ret a => f a
  | Panic m => Panic m
  | Vis op k => Vis op (λ r, bind (k r) f)
  end.

Global Instance Prog_ret : MRet Prog := @Ret.
Global Instance Prog_bind : MBind Prog := λ A B f p, bind p f.

Definition call (op : Op) : Prog (Res op) := Vis op Ret.

(** [defer cleanup] before [body]: the cleanup runs when the body
    returns and also when it panics; a panic of the cleanup replaces the
    pending one. *)
Fixpoint defer {A} (cleanup : Prog unit) (body : Prog A) : Prog A :=
  match body with
  | Ret a => bind cleanup (λ _, Ret a)
  | Panic m => bind cleanup (λ _, Panic m)
  | Vis op k => Vis op (λ r, defer cleanup (k r))
  end.

Definition nilDereference : string :=
  "invalid memory address or nil pointer dereference".
Definition indexOutOfRange : string := "index out of range".

(** ** The world the calls act on *)

(** One recorded call: which host made it, and the answer it got. *)
Record Entry := mkEntry { en_host : nat; en_op : Op; en_res : Res en_op }.

(** The replicated store is one linearizable map shared by all hosts
    ([kv]), next to the cluster's member list.  What the environment
    decides is given by scripts, read front to back: whether the next
    store request fails ([faults], [None] for a request that goes
    through), whether the next [etcdClient.New] fails ([dials]) and what
    the SMB controller answers next ([smb]).  An exhausted script means
    a healthy environment.  docker's answers are fixed per world. *)
Record World := mkWorld {
  kv : gmap string string;
  members : list Member;
  faults : list (option error);
  dials : list (option error);
  smb : list bool;
  d_info : Info + error;
  d_node : Node + error;
  d_nodes : list Node + error;
  nextClient : nat;
  nextMember : N;
  trace : list Entry
}.

Definition setKv (m : gmap string string) (w : World) : World :=
  mkWorld m (members w) (faults w) (dials w) (smb w) (d_info w) (d_node w)
    (d_nodes w) (nextClient w) (nextMember w) (trace w).
Definition setMembers (ms : list Member) (nm : N) (w : World) : World :=
  mkWorld (kv w) ms (faults w) (dials w) (smb w) (d_info w) (d_node w)
    (d_nodes w) (nextClient w) nm (trace w).
Definition setFaults (fs : list (option error)) (w : World) : World :=
  mkWorld (kv w) (members w) fs (dials w) (smb w) (d_info w) (d_node w)
    (d_nodes w) (nextClient w) (nextMember w) (trace w).
Definition setDials (ds : list (option error)) (nc : nat) (w : World) : World :=
  mkWorld (kv w) (members w) (faults w) ds (smb w) (d_info w) (d_node w)
    (d_nodes w) nc (nextMember w) (trace w).
Definition setSmb (bs : list bool) (w : World) : World :=
  mkWorld (kv w) (members w) (faults w) (dials w) bs (d_info w) (d_node w)
    (d_nodes w) (nextClient w) (nextMember w) (trace w).
Definition setTrace (t : list Entry) (w : World) : World :=
  mkWorld (kv w) (members w) (faults w) (dials w) (smb w) (d_info w) (d_node w)
    (d_nodes w) (nextClient w) (nextMember w) t.

(** The next answer of a script, [d] when it is exhausted. *)
Definition pop {A} (d : A) (l : list A) : A * list A :=
  match l with
  | [] => (d, [])
  | x :: l' => (x, l')
  end.

(** *** Store semantics *)

Module Store.

(** [Compare(Value(k), "=", v)] holds when [k] is present with value
    [v]; a value comparison on an absent key fails. *)
Definition holds (m : gmap string string) (c : Cmp) : bool :=
  match c with
  | CompareValueEq k v => bool_decide (m !! k = Some v)
  end.

Definition range1 (m : gmap string string) (k : string) : RangeResponse :=
  match m !! k with
  | Some v => mkRange [mkKeyValue k v] 1
  | None => mkRange [] 0
  end.

Definition applyOp (m : gmap string string) (op : KvOp)
  : ResponseOp * gmap string string :=
  match op with
  | OpPut k v => (ResponsePut, <[k:=v]> m)
  | OpGet k => (ResponseRange (range1 m k), m)
  | OpDelete k =>
      (ResponseDeleteRange (if m !! k is Some _ then 1 else 0), delete k m)
  end.

(** The operations of one transaction, applied in order in a single
    revision. *)
Fixpoint applyOps (m : gmap string string) (ops : list KvOp)
  : list ResponseOp * gmap string string :=
  match ops with
  | [] => ([], m)
  | op :: ops' =>
      let '(r, m1) := applyOp m op in
      let '(rs, m2) := applyOps m1 ops' in
      (r :: rs, m2)
  end.

(** [Txn().If(ifs...).Then(thens...).Commit()]: there is never an Else
    branch in the source. *)
Definition commit (m : gmap string string) (ifs : list Cmp) (thens : list KvOp)
  : TxnResponse * gmap string string :=
  if forallb (holds m) ifs
  then let '(rs, m') := applyOps m thens in (mkTxnResponse true rs, m')
  else (mkTxnResponse false [], m).

Definition keyDescend (a b : KeyValue) : Prop := String.leb (Key b) (Key a).

Global Instance keyDescend_dec a b : Decision (keyDescend a b).
Proof. unfold keyDescend. apply _. Defined.

(** [Get(k, opts...)]: the key itself, or with [WithPrefix] every key
    that starts with [k]; [WithSort(SortByKey, SortDescend)] orders the
    answer by key, largest first. *)
Definition get (m : gmap string string) (k : string) (opts : list OpOption)
  : list KeyValue :=
  if bool_decide (WithPrefix ∈ opts) then
    let hits := filter (λ e : KeyValue, HasPrefix (Key e) k = true)
                  ((λ p : string * string, mkKeyValue p.1 p.2) <$> map_to_list m) in
    if bool_decide (WithSortByKeyDescend ∈ opts)
    then merge_sort keyDescend hits
    else hits
  else Kvs (range1 m k).

End Store.

Definition rpcError : error := "etcdserver: request timed out".

(** The answer to a call and the world after it.  A failing store
    request leaves the store as it is; a failing member request hands
    back a nil response, as the client library does. *)
Definition answer (op : Op) (w : World) : Res op * World :=
  match op return Res op * World with
  | dockerInfo => (d_info w, w)
  | dockerNodeInspectWithRaw _ => (d_node w, w)
  | dockerNodeList => (d_nodes w, w)
  | etcdNew endpoints =>
      let '(f, ds) := pop None (dials w) in
      match f with
      | Some err => (inr err, setDials ds (nextClient w) w)
      | None => (inl (mkClient (nextClient w) endpoints),
                 setDials ds (S (nextClient w)) w)
      end
  | etcdClose _ => (tt, w)
  | etcdTxn _ _ ifs thens =>
      let '(f, fs) := pop None (faults w) in
      match f with
      | Some err => (inr err, setFaults fs w)
      | None =>
          let '(resp, m) := Store.commit (kv w) ifs thens in
          (inl resp, setKv m (setFaults fs w))
      end
  | etcdDo _ _ op1 =>
      let '(f, fs) := pop None (faults w) in
      match f with
      | Some err => (inr err, setFaults fs w)
      | None => (inl tt, setKv (Store.applyOp (kv w) op1).2 (setFaults fs w))
      end
  | etcdGet _ _ k opts =>
      let '(f, fs) := pop None (faults w) in
      match f with
      | Some err => (inr err, setFaults fs w)
      | None => (inl (Store.get (kv w) k opts), setFaults fs w)
      end
  | etcdWatch _ _ _ _ => (tt, w)
  | etcdMemberList _ _ =>
      let '(f, fs) := pop None (faults w) in
      match f with
      | Some err => ((None, Some err), setFaults fs w)
      | None => ((Some (members w), None), setFaults fs w)
      end
  | etcdMemberRemove _ _ id =>
      let '(f, fs) := pop None (faults w) in
      match f with
      | Some err => ((None, Some err), setFaults fs w)
      | None =>
          let ms := filter (λ m : Member, ID m ≠ id) (members w) in
          ((Some ms, None), setMembers ms (nextMember w) (setFaults fs w))
      end
  | etcdMemberAdd _ _ peerAddrs =>
      let '(f, fs) := pop None (faults w) in
      match f with
      | Some err => ((None, Some err), setFaults fs w)
      | None =>
          let ms := members w ++ [mkMember (nextMember w) EmptyString peerAddrs] in
          ((Some ms, None),
           setMembers ms (N.succ (nextMember w)) (setFaults fs w))
      end
  | timeNewTicker _ | timeNewTimer _ | tickerStop | timerStop => (tt, w)
  | goEtcdService _ | goEtcdWatcher _ => (tt, w)
  | startSMBServer _ | stopSMBServer _ =>
      let '(b, bs) := pop true (smb w) in (b, setSmb bs w)
  end.

(** Host [h] makes the call: the world answers and the call is added to
    the trace. *)
Definition perform (h : nat) (op : Op) (w : World) : Res op * World :=
  let '(r, w') := answer op w in
  (r, setTrace (trace w' ++ [mkEntry h op r]) w').

Inductive Outcome (A : Type) : Type :=
| Returned (a : A)
| Panicked (msg : string).
Arguments Returned {A} a.
Arguments Panicked {A} msg.

(** Running a program on host [h] to its end. *)
Fixpoint run {A} (h : nat) (p : Prog A) (w : World) : Outcome A * World :=
  match p with
  | Ret a => (Returned a, w)
  | Panic m => (Panicked m, w)
  | Vis op k => let '(r, w') := perform h op w in run h (k r) w'
  end.

(** ** etcdops.go *)

(** [etcdInfo]; the [driver] field only gives access to docker and to
    the SMB server, which are external calls here. *)
Record etcdInfo := mkEtcdInfo {
  nodeID : string;
  nodeAddr : string;
  client : option Client
}.

Definition withNodeID (e : etcdInfo) (id : string) : etcdInfo :=
  mkEtcdInfo id (nodeAddr e) (client e).
Definition withNodeAddr (e : etcdInfo) (a : string) : etcdInfo :=
  mkEtcdInfo (nodeID e) a (client e).
Definition withClient (e : etcdInfo) (c : Client) : etcdInfo :=
  mkEtcdInfo (nodeID e) (nodeAddr e) (Some c).

(** A method called through a [*etcdClient.Client]: a nil pointer
    panics. *)
Definition deref {A} (c : option Client) (f : Client → Prog A) : Prog A :=
  match c with
  | Some c => f c
  | None => Panic nilDereference
  end.

Definition addrToEtcdClient (addr : string) : Prog (Client + error) :=
  let endpoint := SplitColon0 addr +:+ etcdClientPort in
  r ← call (etcdNew [endpoint]);
  match r with
  | inr err => Ret (inr err)
  | inl etcd => Ret (inl etcd)
  end.

(** The loop of [createEtcdClient] over [info.Swarm.RemoteManagers]. *)
Fixpoint firstManagerClient (managers : list Peer) : Prog (option Client) :=
  match managers with
  | [] => Ret None
  | manager :: rest =>
      r ← addrToEtcdClient (Addr manager);
      match r with
      | inl etcd => Ret (Some etcd)
      | inr _ => firstManagerClient rest
      end
  end.

Definition createEtcdClient : Prog (option Client) :=
  r ← call dockerInfo;
  match r with
  | inr _ => Ret None
  | inl info => firstManagerClient (RemoteManagers (Swarm info))
  end.

Definition CompareAndPut (e : etcdInfo) (key oldVal newVal : string) : Prog bool :=
  deref (client e) (λ c,
    r ← call (etcdTxn c ctxTODO [CompareValueEq key oldVal] [OpPut key newVal]);
    match r with
    | inr _ => Ret false
    | inl txresp => Ret (Succeeded txresp)
    end).

(** [ev.PrevKv != nil && string(ev.PrevKv.Value) == v]. *)
Definition prevIs (ev : Event) (v : string) : bool :=
  match PrevKv ev with
  | Some p => bool_decide (Value p = v)
  | None => false
  end.

Definition etcdEventHandler (e : etcdInfo) (ev : Event) : Prog unit :=
  match Type_ ev with
  | EventTypePut =>
      match Kv ev with
      | None => Panic nilDereference
      | Some kvp =>
          if bool_decide (Value kvp = etcdSingleRef) && prevIs ev etcdNoRef then
            let volName := TrimPrefix (Key kvp) etcdPrefixGRef in
            succeeded ← CompareAndPut e (etcdPrefixState +:+ volName)
                          volStateReady volStateIntermediate;
            if negb succeeded then Ret tt
            else
              started ← call (startSMBServer volName);
              if started : bool then
                swapped ← CompareAndPut e (etcdPrefixState +:+ volName)
                            volStateIntermediate volStateMounted;
                if bool_decide (swapped = false) then
                  _ ← CompareAndPut e (etcdPrefixState +:+ volName)
                        volStateIntermediate volStateError;
                  Ret tt
                else Ret tt
              else
                _ ← CompareAndPut e (etcdPrefixState +:+ volName)
                      volStateIntermediate volStateError;
                Ret tt
          else if bool_decide (Value kvp = etcdNoRef) && prevIs ev etcdSingleRef then
            let volName := TrimPrefix (Key kvp) etcdPrefixGRef in
            succeeded ← CompareAndPut e (etcdPrefixState +:+ volName)
                          volStateMounted volStateIntermediate;
            if negb succeeded then Ret tt
            else
              stopped ← call (stopSMBServer volName);
              if stopped : bool then
                swapped ← CompareAndPut e (etcdPrefixState +:+ volName)
                            volStateIntermediate volStateReady;
                if bool_decide (swapped = false) then
                  _ ← CompareAndPut e (etcdPrefixState +:+ volName)
                        volStateIntermediate volStateError;
                  Ret tt
                else Ret tt
              else
                _ ← CompareAndPut e (etcdPrefixState +:+ volName)
                      volStateIntermediate volStateError;
                Ret tt
          else Ret tt
      end
  | EventTypeDelete => Ret tt
  end.

(** The inner loop of [etcdWatcher] over the events of one watch
    response, and the outer one over the responses read from the watch
    channel. *)
Fixpoint handleEvents (e : etcdInfo) (events : list Event) : Prog unit :=
  match events with
  | [] => Ret tt
  | ev :: rest => _ ← etcdEventHandler e ev; handleEvents e rest
  end.

Fixpoint handleResponses (e : etcdInfo) (watchCh : list (list Event)) : Prog unit :=
  match watchCh with
  | [] => Ret tt
  | wresp :: rest => _ ← handleEvents e wresp; handleResponses e rest
  end.

Definition etcdWatcher (e : etcdInfo) (watchCh : list (list Event)) : Prog unit :=
  deref (client e) (λ c,
    _ ← call (etcdWatch c ctxBackground etcdPrefixGRef [WithPrefix; WithPrevKV]);
    handleResponses e watchCh).

(** *** Metadata API *)

Definition closeClient (c : option Client) : Prog unit :=
  deref c (λ c, call (etcdClose c)).

Definition ListVolumeName (e : etcdInfo) : Prog (list string * option error) :=
  etcd ← createEtcdClient;
  match etcd with
  | None => Ret ([], Some etcdClientCreateError)
  | Some c =>
      r ← call (etcdGet c (ctxWithTimeout requestTimeout) etcdPrefixState
                  [WithPrefix; WithSortByKeyDescend]);
      match r with
      | inr err => Ret ([], Some err)
      | inl kvs =>
          Ret (map (λ ev : KeyValue, TrimPrefix (Key ev) etcdPrefixState) kvs, None)
      end
  end.

Definition WriteVolMetadata (e : etcdInfo) (entries : list kvPair)
  : Prog (option error) :=
  etcdAPI ← createEtcdClient;
  defer (closeClient etcdAPI) (
    let ops := map (λ elem, OpPut (key elem) (value elem)) entries in
    r ← (if bool_decide (1 < List.length entries)%nat
         then deref etcdAPI (λ c,
                r ← call (etcdTxn c ctxTODO [] ops);
                match r with
                | inr err => Ret (Some err)
                | inl _ => Ret None
                end)
         else deref etcdAPI (λ c,
                match ops with
                | [] => Panic indexOutOfRange
                | op0 :: _ =>
                    r ← call (etcdDo c ctxTODO op0);
                    match r with
                    | inr err => Ret (Some err)
                    | inl _ => Ret None
                    end
                end));
    match r with
    | Some err => Ret (Some ("Failed to write metadata. Reason: " +:+ err))
    | None => Ret None
    end).

Definition couldNotFindAllKeys : string :=
  "Failed to get volume. Couldn't find all keys!".

(** The second loop of [ReadVolMetadata]: [i] is the index of the next
    key; the result is [entries] and [missedCount]. *)
Fixpoint collectEntries (keys : list string) (i : nat) (responses : list ResponseOp)
    (entries : list kvPair) (missedCount : nat) : Prog (list kvPair * nat) :=
  match keys with
  | [] => Ret (entries, missedCount)
  | elem :: rest =>
      match responses !! i with
      | None => Panic indexOutOfRange
      | Some (ResponseRange resp) =>
          if bool_decide (Count resp = 0) then
            collectEntries rest (S i) responses entries (S missedCount)
          else
            match Kvs resp with
            | [] => Panic indexOutOfRange
            | kv0 :: _ =>
                collectEntries rest (S i) responses
                  (entries ++ [mkKvPair elem (Value kv0)]) missedCount
            end
      | Some _ => Panic nilDereference
      end
  end.

Definition ReadVolMetadata (e : etcdInfo) (keys : list string)
  : Prog (list kvPair * option error) :=
  etcdAPI ← createEtcdClient;
  defer (closeClient etcdAPI) (
    let ops := map OpGet keys in
    deref etcdAPI (λ c,
      r ← call (etcdTxn c ctxTODO [] ops);
      match r with
      | inr err => Ret ([], Some err)
      | inl getresp =>
          '(entries, missedCount) ← collectEntries keys 0 (Responses getresp) [] 0;
          if bool_decide (missedCount = List.length keys) then
            Ret ([], Some VolumeDoesNotExistError)
          else if bool_decide (0 < missedCount)%nat then
            Panic couldNotFindAllKeys
          else Ret (entries, None)
      end)).

Definition DeleteVolMetadata (e : etcdInfo) (name : string) : Prog (option error) :=
  etcdAPI ← createEtcdClient;
  defer (closeClient etcdAPI) (
    let ops := [OpDelete (etcdPrefixState +:+ name);
                OpDelete (etcdPrefixGRef +:+ name);
                OpDelete (etcdPrefixInfo +:+ name)] in
    deref etcdAPI (λ c,
      r ← call (etcdTxn c ctxTODO [] ops);
      match r with
      | inr err =>
          Ret (Some ("Failed to delete metadata for volume " +:+ name
                     +:+ ". Reason: " +:+ err))
      | inl _ => Ret None
      end)).

(** *** Cluster bootstrap *)

Definition timeoutReached : error :=
  "Timeout reached; etcd cluster is not started".

(** The [for { select { ... } }] loop of [checkLocalEtcd].  [ticks] is
    the number of times the select receives from [ticker.C] before it
    receives from [timer.C]: the timer fires once, [requestTimeout]
    after its creation, so every execution that does not connect sees
    finitely many ticks and then the timer. *)
Fixpoint pollLocalEtcd (e : etcdInfo) (ticks : nat)
  : Prog (etcdInfo * option error) :=
  match ticks with
  | O => Ret (e, Some timeoutReached)
  | S n =>
      r ← addrToEtcdClient (nodeAddr e);
      match r with
      | inr _ => pollLocalEtcd e n
      | inl cli =>
          _ ← call (goEtcdWatcher cli);
          Ret (withClient e cli, None)
      end
  end.

Definition checkLocalEtcd (e : etcdInfo) (ticks : nat)
  : Prog (etcdInfo * option error) :=
  _ ← call (timeNewTicker checkSleepDuration);
  defer (call tickerStop) (
    _ ← call (timeNewTimer requestTimeout);
    defer (call timerStop) (pollLocalEtcd e ticks)).

Definition startEtcdCluster (e : etcdInfo) (ticks : nat)
  : Prog (etcdInfo * option error) :=
  let nodeID := nodeID e in
  let nodeAddr := nodeAddr e in
  let lines := [
    "--name"; nodeID;
    "--advertise-client-urls"; etcdScheme +:+ nodeAddr +:+ etcdClientPort;
    "--initial-advertise-peer-urls"; etcdScheme +:+ nodeAddr +:+ etcdPeerPort;
    "--listen-client-urls"; etcdScheme +:+ etcdListenURL +:+ etcdClientPort;
    "--listen-peer-urls"; etcdScheme +:+ etcdListenURL +:+ etcdPeerPort;
    "--initial-cluster-token"; etcdClusterToken;
    "--initial-cluster"; nodeID +:+ "=" +:+ etcdScheme +:+ nodeAddr +:+ etcdPeerPort;
    "--initial-cluster-state"; etcdClusterStateNew
  ] in
  _ ← call (goEtcdService lines);
  checkLocalEtcd e ticks.

(** The first loop of [joinEtcdCluster] over [lresp.Members]: it yields
    [existing], or the error of a failed [MemberRemove]. *)
Fixpoint findSelf (etcd : Client) (peerAddr : string) (ms : list Member)
  : Prog (bool + error) :=
  match ms with
  | [] => Ret (inl false)
  | member :: rest =>
      match PeerURLs member with
      | [] => Panic indexOutOfRange
      | url0 :: _ =>
          if bool_decide (url0 = peerAddr) then
            if bool_decide (Name member = EmptyString) then Ret (inl true)
            else
              r ← call (etcdMemberRemove etcd ctxBackground (ID member));
              match r.2 with
              | Some err => Ret (inr err)
              | None => Ret (inl false)
              end
          else findSelf etcd peerAddr rest
      end
  end.

(** The loops that build [initCluster] from a member list. *)
Fixpoint namedMembers (ms : list Member) (initCluster : string) : Prog string :=
  match ms with
  | [] => Ret initCluster
  | member :: rest =>
      if bool_decide (Name member ≠ EmptyString) then
        match PeerURLs member with
        | [] => Panic indexOutOfRange
        | url0 :: _ =>
            namedMembers rest (initCluster +:+ (Name member +:+ "=" +:+ url0 +:+ ","))
        end
      else namedMembers rest initCluster
  end.

Definition joinEtcdCluster (e : etcdInfo) (leaderAddr : string) (ticks : nat)
  : Prog (etcdInfo * option error) :=
  let nodeAddr := nodeAddr e in
  let nodeID := nodeID e in
  r ← addrToEtcdClient leaderAddr;
  let etcd := match r with inl c => Some c | inr _ => None end in
  deref etcd (λ etcd,
    lr ← call (etcdMemberList etcd ctxBackground);
    match lr.2 with
    | Some err =>
        match lr.1 with
        | None => Panic nilDereference
        | Some _ => Ret (e, Some err)
        end
    | None =>
        match lr.1 with
        | None => Panic nilDereference
        | Some lmembers =>
            let peerAddr := etcdScheme +:+ nodeAddr +:+ etcdPeerPort in
            found ← findSelf etcd peerAddr lmembers;
            match found with
            | inr err => Ret (e, Some err)
            | inl existing =>
                ic ← (if negb existing then
                        ar ← call (etcdMemberAdd etcd ctxBackground [peerAddr]);
                        match ar.2 with
                        | Some err =>
                            match ar.1 with
                            | None => Panic nilDereference
                            | Some _ => Ret (inr err)
                            end
                        | None =>
                            match ar.1 with
                            | None => Panic nilDereference
                            | Some amembers =>
                                s ← namedMembers amembers EmptyString; Ret (inl s)
                            end
                        end
                      else s ← namedMembers lmembers EmptyString; Ret (inl s));
                match ic with
                | inr err => Ret (e, Some err)
                | inl initCluster =>
                    let lines := [
                      "--name"; nodeID;
                      "--advertise-client-urls"; etcdScheme +:+ nodeAddr +:+ etcdClientPort;
                      "--initial-advertise-peer-urls"; etcdScheme +:+ nodeAddr +:+ etcdPeerPort;
                      "--listen-client-urls"; etcdScheme +:+ etcdListenURL +:+ etcdClientPort;
                      "--listen-peer-urls"; etcdScheme +:+ etcdListenURL +:+ etcdPeerPort;
                      "--initial-cluster-token"; etcdClusterToken;
                      "--initial-cluster";
                        initCluster +:+ nodeID +:+ "=" +:+ etcdScheme +:+ nodeAddr +:+ etcdPeerPort;
                      "--initial-cluster-state"; etcdClusterStateExisting
                    ] in
                    _ ← call (goEtcdService lines);
                    checkLocalEtcd e ticks
                end
            end
        end
    end).

(** The loop of [Init] over the swarm's nodes.  The result of
    [joinEtcdCluster] is dropped, as in [e.joinEtcdCluster(...); return
    nil]. *)
Fixpoint joinLeader (e : etcdInfo) (nodes : list Node) (ticks : nat)
  : Prog (etcdInfo * option error) :=
  match nodes with
  | [] => Ret (e, Some ("Failed to get leader for swarm manager " +:+ nodeID e))
  | n :: rest =>
      match n_ManagerStatus n with
      | Some ms =>
          if bool_decide (Leader ms = true) then
            r ← joinEtcdCluster e (m_Addr ms) ticks;
            Ret (r.1, None)
          else joinLeader e rest ticks
      | None => joinLeader e rest ticks
      end
  end.

Definition Init (e : etcdInfo) (ticks : nat) : Prog (etcdInfo * option error) :=
  r ← call dockerInfo;
  match r with
  | inr err => Ret (e, Some err)
  | inl info =>
      let nodeID := NodeID (Swarm info) in
      let e := withNodeID e nodeID in
      if bool_decide (ControlAvailable (Swarm info) = false) then Ret (e, None)
      else
        r ← call (dockerNodeInspectWithRaw nodeID);
        match r with
        | inr err => Ret (e, Some err)
        | inl node =>
            let addr := NodeAddr (Swarm info) in
            let e := withNodeAddr e addr in
            match n_ManagerStatus node with
            | None => Panic nilDereference
            | Some status =>
                if Leader status then
                  r ← startEtcdCluster e ticks;
                  match r.2 with
                  | Some err => Ret (r.1, Some err)
                  | None => Ret (r.1, None)
                  end
                else
                  r ← call dockerNodeList;
                  match r with
                  | inr err => Ret (e, Some err)
                  | inl nodes => joinLeader e nodes ticks
                  end
            end
        end
  end.

(** ** Reading traces *)

(** Whether a guarded transaction swapped: an error counts as "no", as
    in [CompareAndPut]. *)
Definition swapped (r : TxnResponse + error) : bool :=
  match r with
  | inl txresp => Succeeded txresp
  | inr _ => false
  end.

(** A recorded call as the watcher's state machine sees it. *)
Inductive CallView :=
| CAS (key oldVal newVal : string) (result : bool)
| SMBStart (volName : string) (result : bool)
| SMBStop (volName : string) (result : bool)
| OtherCall.

Definition viewOp (op : Op) : Res op → CallView :=
  match op return Res op → CallView with
  | etcdTxn _ _ [CompareValueEq k o] [OpPut k' n] =>
      λ r, if bool_decide (k = k') then CAS k o n (swapped r) else OtherCall
  | startSMBServer v => λ b, SMBStart v b
  | stopSMBServer v => λ b, SMBStop v b
  | _ => λ _, OtherCall
  end.

Definition view (en : Entry) : CallView := viewOp (en_op en) (en_res en).

(** The next scripted failure of a store request, if any. *)
Definition nextFault (w : World) : option error := (pop None (faults w)).1.

(** The call [CompareAndPut] makes through client [c]. *)
Definition casOp (c : Client) (k o n : string) : Op :=
  etcdTxn c ctxTODO [CompareValueEq k o] [OpPut k n].


(** The calls one handler run may leave in the trace: the claim
    [from → Intermediate] is lost; or it is won, the SMB call succeeds
    and the state goes to [final]; or that last swap fails and the state
    is parked in [Error]; or the SMB call fails and the state is parked
    in [Error]. *)
Inductive Lifecycle (S V from final : string) (smbCall : string → bool → CallView)
  : list CallView → Prop :=
| lifecycle_lost :
    Lifecycle S V from final smbCall
      [CAS S from volStateIntermediate false]
| lifecycle_done :
    Lifecycle S V from final smbCall
      [CAS S from volStateIntermediate true; smbCall V true;
       CAS S volStateIntermediate final true]
| lifecycle_fallback b :
    Lifecycle S V from final smbCall
      [CAS S from volStateIntermediate true; smbCall V true;
       CAS S volStateIntermediate final false;
       CAS S volStateIntermediate volStateError b]
| lifecycle_failed b :
    Lifecycle S V from final smbCall
      [CAS S from volStateIntermediate true; smbCall V false;
       CAS S volStateIntermediate volStateError b].

(** An event that records [GREF:V] going from [old] to [new]. *)
Definition grefChange (ev : Event) (V old new : string) : Prop :=
  Type_ ev = EventTypePut
  ∧ (∃ kvp, Kv ev = Some kvp ∧ Key kvp = etcdPrefixGRef +:+ V ∧ Value kvp = new)
  ∧ (∃ prev, PrevKv ev = Some prev ∧ Value prev = old).

Definition exampleClient : Client := mkClient 0 ["10.0.0.1:2379"].
Definition exampleEtcd : etcdInfo := mkEtcdInfo "n1" "10.0.0.1" (Some exampleClient).
Definition exampleInfo : Info :=
  mkInfo (mkSwarm "n1" "10.0.0.1" true [mkPeer "n0" "10.0.0.9:2377"]).

(** A healthy world: the store holds [entries], docker answers, nothing
    fails. *)
Definition exampleWorld (entries : list (string * string)) : World :=
  mkWorld (list_to_map entries) [] [] [] []
    (inl exampleInfo)
    (inl (mkNode "n1" (Some (mkManagerStatus false "10.0.0.1:2377"))))
    (inl [mkNode "n0" (Some (mkManagerStatus true "10.0.0.9:2377"))])
    1 1%N [].

Definition examplePut (k old new : string) : Event :=
  mkEvent EventTypePut (Some (mkKeyValue k new)) (Some (mkKeyValue k old)).

(** What [ReadVolMetadata] finds for [keys] in a store [m]: the entries
    of the keys that are there, in order, and the number of those that
    are not. *)
Definition foundEntries (m : gmap string string) (keys : list string) : list kvPair :=
  omap (λ k, mkKvPair k <$> m !! k) keys.

Definition missedKeys (m : gmap string string) (keys : list string) : nat :=
  List.length (filter (λ k, m !! k = None) keys).

(** The three keys of volume [V]. *)
Definition volumeKeys (V : string) : list string :=
  [etcdPrefixState +:+ V; etcdPrefixGRef +:+ V; etcdPrefixInfo +:+ V].

(** Two worlds that differ at most in the trace, the dial script and the
    client counter. *)
Definition sameStore (w w' : World) : Prop :=
  kv w' = kv w ∧ faults w' = faults w ∧ smb w' = smb w ∧ members w' = members w.

(** The requests a trace sends to the store. *)
Definition isStoreRequest (op : Op) : bool :=
  match op with
  | etcdTxn _ _ _ _ | etcdDo _ _ _ | etcdGet _ _ _ _ => true
  | _ => false
  end.

Definition storeRequests (t : list Entry) : list Op :=
  filter (λ op, isStoreRequest op = true) (en_op <$> t).

(** The error [WriteVolMetadata] and [DeleteVolMetadata] make of a store
    error. *)
Definition writeError (r : option error) : option error :=
  match r with
  | Some err => Some ("Failed to write metadata. Reason: " +:+ err)
  | None => None
  end.

Definition deleteError (name : string) (r : TxnResponse + error) : option error :=
  match r with
  | inr err =>
      Some ("Failed to delete metadata for volume " +:+ name
            +:+ ". Reason: " +:+ err)
  | inl _ => None
  end.

Definition errorOf {A} (r : A + error) : option error :=
  match r with
  | inr err => Some err
  | inl _ => None
  end.

Definition putsOf (entries : list kvPair) : list KvOp :=
  map (λ elem, OpPut (key elem) (value elem)) entries.

Definition deletesOf (name : string) : list KvOp :=
  [OpDelete (etcdPrefixState +:+ name);
   OpDelete (etcdPrefixGRef +:+ name);
   OpDelete (etcdPrefixInfo +:+ name)].

(** ** Several hosts on one store *)

(** A host's watcher: its [etcdInfo], the events delivered to it and not
    yet handled, and what is left of the handler run in progress
    ([Ret tt] between two events). *)
Record Host := mkHost {
  h_etcd : etcdInfo;
  h_queue : list Event;
  h_prog : Prog unit
}.

Record Cluster := mkCluster { world : World; hosts : list Host }.

(** Host [i] moves: it makes the next call of its handler, one atomic
    action on the shared world, or it takes the next event from its
    queue.  A panicked watcher moves no more. *)
Definition stepHost (i : nat) (s : Cluster) : option Cluster :=
  match hosts s !! i with
  | None => None
  | Some h =>
      match h_prog h with
      | Vis op k =>
          let p := perform i op (world s) in
          Some (mkCluster p.2
                  (<[i := mkHost (h_etcd h) (h_queue h) (k p.1)]> (hosts s)))
      | Ret _ =>
          match h_queue h with
          | ev :: rest =>
              Some (mkCluster (world s)
                      (<[i := mkHost (h_etcd h) rest
                                (etcdEventHandler (h_etcd h) ev)]> (hosts s)))
          | [] => None
          end
      | Panic _ => None
      end
  end.

Definition step (s s' : Cluster) : Prop := ∃ i, stepHost i s = Some s'.

(** Any interleaving of the hosts. *)
Definition reaches : Cluster → Cluster → Prop := rtc step.

(** No host can move. *)
Definition quiescent (s : Cluster) : Prop := ∀ i, stepHost i s = None.

(** The moves of [STATE:V] the state machine knows. *)
Inductive edge : string → string → Prop :=
| edge_claim_start : edge volStateReady volStateIntermediate
| edge_mounted : edge volStateIntermediate volStateMounted
| edge_claim_stop : edge volStateMounted volStateIntermediate
| edge_ready : edge volStateIntermediate volStateReady
| edge_error : edge volStateIntermediate volStateError.

Definition isSMB (op : Op) : bool :=
  match op with
  | startSMBServer _ | stopSMBServer _ => true
  | _ => false
  end.

(** The only calls of the watcher: a guarded swap of one key along an
    edge, or a call of the SMB controller. *)
Definition watcherCall (op : Op) : Prop :=
  match op with
  | etcdTxn _ _ [CompareValueEq k o] [OpPut k' n] => k = k' ∧ edge o n
  | startSMBServer _ | stopSMBServer _ => True
  | _ => False
  end.



Global Instance CallView_eq_dec : EqDecision CallView.
Proof. solve_decision. Defined.

(** Calls of the SMB controller in a trace, and won claims
    [from → Intermediate] on key [S]; [madeBy i] keeps the calls of host
    [i]. *)
Definition sideEffects (t : list Entry) : list Entry :=
  filter (λ en, isSMB (en_op en) = true) t.

Definition wonClaims (S from : string) (t : list Entry) : list Entry :=
  filter (λ en, view en = CAS S from volStateIntermediate true) t.

Definition madeBy (i : nat) (t : list Entry) : list Entry :=
  filter (λ en, en_host en = i) t.

(** The phases of a handler run on a boundary event for key [S] claimed
    from state [from], with SMB call [effect]: after the claim only
    swaps out of [Intermediate] to a state other than [from] remain
    ([Tail]); a winner's next call is [effect] ([Won]); a run that has
    not claimed yet ([Fresh]) becomes a winner or ends. *)
Fixpoint Tail (S from : string) (p : Prog unit) : Prop :=
  match p with
  | Ret _ | Panic _ => True
  | Vis op k =>
      (∃ c n, op = casOp c S volStateIntermediate n ∧ n ≠ from)
      ∧ ∀ r, Tail S from (k r)
  end.

Definition Won (S from : string) (effect : Op) (p : Prog unit) : Prop :=
  match p with
  | Vis op k => isSMB op = true ∧ op = effect ∧ ∀ r, Tail S from (k r)
  | _ => False
  end.

Definition claimed (op : Op) : Res op → bool :=
  match op return Res op → bool with
  | etcdTxn _ _ _ _ => swapped
  | _ => λ _, false
  end.

Definition Fresh (S from : string) (effect : Op) (p : Prog unit) : Prop :=
  match p with
  | Vis op k =>
      (∃ c, op = casOp c S from volStateIntermediate)
      ∧ ∀ r, if claimed op r then Won S from effect (k r) else k r = Ret tt
  | _ => False
  end.

Definition nextIsSMB (p : Prog unit) : bool :=
  match p with
  | Vis op _ => isSMB op
  | _ => false
  end.

Definition winning (h : Host) : nat := if nextIsSMB (h_prog h) then 1 else 0.

(** Every host has been handed the one event [ev] and nothing else. *)
Definition delivered (ev : Event) (w : World) (es : list etcdInfo) : Cluster :=
  mkCluster w ((λ e, mkHost e [ev] (Ret tt)) <$> es).

(** All watchers wait for their next event. *)
Definition idle (s : Cluster) : Prop :=
  ∀ i h, hosts s !! i = Some h → h_prog h = Ret tt.



(** Two watchers with events of several volumes in their queues. *)
Definition exampleCluster : Cluster :=
  mkCluster (exampleWorld [("SVOLS_stat_v1", "Ready"); ("SVOLS_stat_v2", "Error")])
    [mkHost exampleEtcd
       [examplePut "SVOLS_gref_v1" "0" "1"; examplePut "SVOLS_gref_v2" "0" "1"]
       (Ret tt);
     mkHost exampleEtcd
       [examplePut "SVOLS_gref_v2" "0" "1"; examplePut "SVOLS_gref_v1" "0" "1"]
       (Ret tt)].

(** What one more recorded call adds to the number of won claims and to
    the number of SMB calls. *)
Definition claimDelta (S from : string) (en : Entry) : nat :=
  if bool_decide (view en = CAS S from volStateIntermediate true) then 1 else 0.

Definition effectDelta (op : Op) : nat := if isSMB op then 1 else 0.

(** Host moves in a given order; a host that cannot move is skipped. *)
Fixpoint runSchedule (sched : list nat) (s : Cluster) : Cluster :=
  match sched with
  | [] => s
  | i :: rest =>
      match stepHost i s with
      | Some s' => runSchedule rest s'
      | None => runSchedule rest s
      end
  end.

(** Where a host stands while the one event [ev] is being handled. *)
Definition Phase (S from : string) (effect : Op) (ev : Event) (h : Host) : Prop :=
  (h_queue h = [ev] ∧ h_prog h = Ret tt)
  ∨ (h_queue h = []
     ∧ (Fresh S from effect (h_prog h) ∨ Won S from effect (h_prog h)
        ∨ Tail S from (h_prog h))).

Record Inv (S from : string) (effect : Op) (ev : Event) (s : Cluster) : Prop := mkInv {
  inv_phase : ∀ i h, hosts s !! i = Some h → Phase S from effect ev h;
  inv_host : ∀ i h, hosts s !! i = Some h →
    (List.length (madeBy i (sideEffects (trace (world s)))) + winning h
     = List.length (madeBy i (wonClaims S from (trace (world s)))))%nat;
  inv_total :
    (List.length (sideEffects (trace (world s))) + sum_list_with winning (hosts s)
     = List.length (wonClaims S from (trace (world s))))%nat;
  inv_claim :
    List.length (wonClaims S from (trace (world s))) = 0%nat
    ∨ (List.length (wonClaims S from (trace (world s))) = 1%nat
       ∧ kv (world s) !! S ≠ Some from);
  inv_effect : Forall (λ en, en_op en = effect) (sideEffects (trace (world s)))
}.

(** While nobody has claimed, with a store that answers: the state is
    still [from] and every host has yet to claim. *)
Definition Unclaimed (S from : string) (effect : Op) (ev : Event) (s : Cluster) : Prop :=
  kv (world s) !! S = Some from
  ∧ faults (world s) = []
  ∧ ∀ i h, hosts s !! i = Some h →
      client (h_etcd h) ≠ None
      ∧ ((h_queue h = [ev] ∧ h_prog h = Ret tt)
         ∨ (h_queue h = [] ∧ Fresh S from effect (h_prog h))).

(** The boundary event [ev] of volume [V]: the state the handler claims
    from and the SMB call it makes. *)
Definition transition (ev : Event) (V from : string) (effect : Op) : Prop :=
  (grefChange ev V etcdNoRef etcdSingleRef
   ∧ from = volStateReady ∧ effect = startSMBServer V)
  ∨ (grefChange ev V etcdSingleRef etcdNoRef
     ∧ from = volStateMounted ∧ effect = stopSMBServer V).

(** C4 as the specification words it: once all hosts are done with the
    event, exactly one SMB call has been made. *)
Definition exactlyOnce (ev : Event) (w : World) (es : list etcdInfo) : Prop :=
  ∀ s, reaches (delivered ev w es) s → quiescent s →
    List.length (sideEffects (trace (world s))) = 1%nat.

(** ** The client discipline of the metadata API *)

(** The client a recorded call created, if it is a successful
    [etcdClient.New]. *)
Definition created (en : Entry) : option Client :=
  match en_op en as op return Res op → option Client with
  | etcdNew _ => λ r, match r with inl c => Some c | inr _ => None end
  | _ => λ _, None
  end (en_res en).

Definition ctxOf (op : Op) : option Context :=
  match op with
  | etcdTxn _ ctx _ _ | etcdDo _ ctx _ | etcdGet _ ctx _ _ => Some ctx
  | _ => None
  end.

(** C9 as the specification words it, for one run of an operation [p]
    on host [h] in world [w]: among the calls of the run a client is
    created, that client is closed, and every store request carries the
    default timeout. *)
Definition clientDiscipline {A} (h : nat) (p : Prog A) (w : World) : Prop :=
  let calls := drop (List.length (trace w)) (trace (run h p w).2) in
  (∃ c, Some c ∈ created <$> calls ∧ etcdClose c ∈ en_op <$> calls)
  ∧ Forall (λ en, isStoreRequest (en_op en) = true →
                  ctxOf (en_op en) = Some (ctxWithTimeout requestTimeout)) calls.

(** ** Joining the cluster, in the specification's words *)

(** The member whose peer URL is this node's: the first one whose first
    peer URL equals [peerAddr]. *)
Definition selfEntry (peerAddr : string) (ms : list Member) : option Member :=
  List.find (λ m, bool_decide (head (PeerURLs m) = Some peerAddr)) ms.




(** The value that follows flag [name] on an etcd command line. *)
Fixpoint flagValue (name : string) (lines : list string) : option string :=
  match lines with
  | f :: v :: rest => if bool_decide (f = name) then Some v else flagValue name rest
  | _ => None
  end.

(** A manager that is not the leader, with leader n0 at 10.0.0.9, whose
    local etcd never answers: the dial to the leader goes through, the
    five local ones fail. *)
Definition followerWorld (ms : list Member) : World :=
  mkWorld ∅ ms []
    [None; Some "connection refused"; Some "connection refused";
     Some "connection refused"; Some "connection refused"; Some "connection refused"]
    []
    (inl exampleInfo)
    (inl (mkNode "n1" (Some (mkManagerStatus false "10.0.0.1:2377"))))
    (inl [mkNode "n1" (Some (mkManagerStatus false "10.0.0.1:2377"));
          mkNode "n0" (Some (mkManagerStatus true "10.0.0.9:2377"))])
    0 7%N [].

Definition leaderMember : Member := mkMember 1 "n0" ["http://10.0.0.9:2380"].

(** The same node as leader. *)
Definition leaderWorld (ds : list (option error)) : World :=
  mkWorld ∅ [] [] ds []
    (inl exampleInfo)
    (inl (mkNode "n1" (Some (mkManagerStatus true "10.0.0.1:2377"))))
    (inl [mkNode "n1" (Some (mkManagerStatus true "10.0.0.1:2377"))])
    0 7%N [].

Definition freshEtcd : etcdInfo := mkEtcdInfo EmptyString EmptyString None.

(** Whether the trace records the start of the watcher goroutine. *)
Definition watcherStarted (t : list Entry) : bool :=
  existsb (λ en, match en_op en with goEtcdWatcher _ => true | _ => false end) t.

(** A follower whose member list still holds its own started entry. *)
Definition rejoinWorld : World :=
  followerWorld [leaderMember; mkMember 5 "n1" ["http://10.0.0.1:2380"]].

Definition followerEtcd : etcdInfo := mkEtcdInfo "n1" "10.0.0.1" None.
(** ** Further vocabulary for the properties below *)

(** Every call a program can make, whatever it is answered, satisfies
    [P]. *)
Fixpoint AllCalls {A} (P : Op → Prop) (p : Prog A) : Prop :=
  match p with
  | Ret _ | Panic _ => True
  | Vis op k => P op ∧ ∀ r, AllCalls P (k r)
  end.

(** A call of the watcher on the store: a guarded swap of one key that
    carries the state prefix. *)
Definition stateSwap (op : Op) : Prop :=
  match op with
  | etcdTxn _ _ [CompareValueEq k _] [OpPut k' _] =>
      k = k' ∧ ∃ V, k = etcdPrefixState +:+ V
  | _ => False
  end.

(** The calls of [etcdWatcher]: its subscription, the SMB controller,
    and swaps of state keys. *)
Definition watcherOp (op : Op) : Prop :=
  match op with
  | etcdWatch _ _ _ _ | startSMBServer _ | stopSMBServer _ => True
  | _ => stateSwap op
  end.

(** The state a won transition ends in when the SMB call succeeds. *)
Definition settled (from : string) : string :=
  if bool_decide (from = volStateReady) then volStateMounted else volStateReady.

(** The endpoint [addrToEtcdClient] dials for a docker address. *)
Definition endpointOf (addr : string) : string :=
  SplitColon0 addr +:+ etcdClientPort.

(** [hasColon s]: a colon occurs in [s]. *)
Fixpoint hasColon (s : string) : bool :=
  match s with
  | EmptyString => false
  | String a s' => bool_decide (a = ":"%char) || hasColon s'
  end.

(** The calls of a trace, without their answers. *)
Definition opsOf (t : list Entry) : list Op := en_op <$> t.

(** The first [n] dials of the script fail. *)
Definition dialsFail (n : nat) (ds : list (option error)) : Prop :=
  ∀ i, (i < n)%nat → ∃ err, ds !! i = Some (Some err).

(** The [i]-th dial of the script goes through (an exhausted script
    does). *)
Definition dialWorks (i : nat) (ds : list (option error)) : Prop :=
  ds !! i = Some None ∨ ds !! i = None.

(** [keepsKeys w w']: from [w] to [w'] no key has appeared in the store
    or gone from it, and every key that does not carry the state prefix
    has kept its value. *)
Definition keepsKeys (w w' : World) : Prop :=
  (∀ k, is_Some (kv w' !! k) ↔ is_Some (kv w !! k))
  ∧ (∀ k, HasPrefix k etcdPrefixState = false → kv w' !! k = kv w !! k).

(** The calls of [createEtcdClient], and the calls that cannot change
    the store: those, closing a client, a range read and a transaction
    of reads only. *)
Definition clientOp (op : Op) : Prop :=
  match op with
  | dockerInfo | etcdNew _ => True
  | _ => False
  end.

Definition readOnly (op : Op) : Prop :=
  match op with
  | dockerInfo | etcdNew _ | etcdClose _ | etcdGet _ _ _ _ => True
  | etcdTxn _ _ [] thens => ∃ keys, thens = map OpGet keys
  | _ => False
  end.

(** A world in which docker does not answer [Info]. *)
Definition dockerDown (entries : list (string * string)) : World :=
  mkWorld (list_to_map entries) [] [] [] []
    (inr "Cannot connect to the Docker daemon")
    (inr "Cannot connect to the Docker daemon")
    (inr "Cannot connect to the Docker daemon")
    1 1%N [].

(** A world with two remote managers, the first of which refuses the
    connection. *)
Definition twoManagers : World :=
  mkWorld ∅ [] [] [Some "connection refused"] []
    (inl (mkInfo (mkSwarm "n1" "10.0.0.1" true
                    [mkPeer "n0" "10.0.0.9:2377"; mkPeer "n2" "10.0.0.8:2377"])))
    (inl (mkNode "n1" (Some (mkManagerStatus false "10.0.0.1:2377"))))
    (inl [mkNode "n0" (Some (mkManagerStatus true "10.0.0.9:2377"))])
    1 1%N [].

(** The dial [checkLocalEtcd] repeats: the local endpoint. *)
Definition localDial (e : etcdInfo) : Op := etcdNew [endpointOf (nodeAddr e)].

(** The client the next successful dial of [addr] yields in [w]. *)
Definition nextClientFor (w : World) (addr : string) : Client :=
  mkClient (nextClient w) [endpointOf addr].

(** The error of a docker call recorded in the trace, if it failed. *)
Definition dockerError (en : Entry) : option error :=
  match en_op en as op return Res op → option error with
  | dockerInfo => λ r, match r with inr err => Some err | inl _ => None end
  | dockerNodeInspectWithRaw _ => λ r, match r with inr err => Some err | inl _ => None end
  | dockerNodeList => λ r, match r with inr err => Some err | inl _ => None end
  | _ => λ _, None
  end (en_res en).

Definition isDocker (op : Op) : bool :=
  match op with
  | dockerInfo | dockerNodeInspectWithRaw _ | dockerNodeList => true
  | _ => false
  end.

(** The calls of the bootstrap: docker queries, dials, member requests,
    the ticker and the timer, and the two spawns. *)
Definition bootOp (op : Op) : Prop :=
  match op with
  | dockerInfo | dockerNodeInspectWithRaw _ | dockerNodeList
  | etcdNew _ | etcdMemberList _ _ | etcdMemberRemove _ _ _ | etcdMemberAdd _ _ _
  | timeNewTicker _ | timeNewTimer _ | tickerStop | timerStop
  | goEtcdService _ | goEtcdWatcher _ => True
  | _ => False
  end.

(** A node that docker lists as the leader. *)
Definition isLeader (n : Node) : Prop :=
  ∃ status, n_ManagerStatus n = Some status ∧ Leader status = true.

(** The calls of the bootstrap after the docker queries. *)
Definition clusterOp (op : Op) : Prop := bootOp op ∧ isDocker op = false.

(** ** Watchers of several hosts *)

Definition allWatcherOps (s : Cluster) : Prop :=
  ∀ i h, hosts s !! i = Some h → AllCalls watcherOp (h_prog h).

(** The key and the expected value of a guarded swap. *)
Definition casKey (op : Op) : option (string * string) :=
  match op with
  | etcdTxn _ _ [CompareValueEq k o] [OpPut k' _] =>
      if bool_decide (k = k') then Some (k, o) else None
  | _ => None
  end.

(** [Harmless S p]: as long as key [S] holds [Intermediate], [p] cannot
    move it: a swap of [S] that [p] may try expects another value, and
    what follows a swap that did not go through is harmless again. *)
Fixpoint Harmless (S : string) (p : Prog unit) : Prop :=
  match p with
  | Ret _ | Panic _ => True
  | Vis op k =>
      watcherCall op
      ∧ (∀ o, casKey op = Some (S, o) → o ≠ volStateIntermediate)
      ∧ ∀ r, (∀ o, casKey op = Some (S, o) → claimed op r = false) → Harmless S (k r)
  end.

Definition allHarmless (S : string) (s : Cluster) : Prop :=
  ∀ i h, hosts s !! i = Some h → Harmless S (h_prog h).

(** Two idle watchers with events of a volume whose state key is stuck
    in [Intermediate]. *)
Definition stuckCluster : Cluster :=
  mkCluster (exampleWorld [("SVOLS_stat_v1", "Intermediate"); ("SVOLS_gref_v1", "1")])
    [mkHost exampleEtcd
       [examplePut "SVOLS_gref_v1" "1" "0"; examplePut "SVOLS_gref_v1" "0" "1"]
       (Ret tt);
     mkHost exampleEtcd
       [examplePut "SVOLS_gref_v1" "1" "0"; examplePut "SVOLS_gref_v1" "0" "1"]
       (Ret tt)].
(** * Proofs *)

(** Projections of updated worlds are computed. *)
Ltac simplW :=
  cbn [kv members faults dials smb d_info d_node d_nodes nextClient nextMember trace
       setKv setMembers setFaults setDials setSmb setTrace] in *.

(** Binds are read as [bind], calls as [Vis]. *)
Ltac norm := unfold mbind, Prog_bind, call in *; cbn [bind] in *.


(** ** Running programs: general facts *)

Section Running.
Context {A B : Type}.

Lemma run_bind (h : nat) (p : Prog A) (f : A → Prog B) (w : World) :
  run h (bind p f) w =
    match run h p w with
    | (Returned a, w') => run h (f a) w'
    | (Panicked m, w') => (Panicked m, w')
    end.
Proof.
  revert w. induction p as [a|m|op k IH]; intros w; try reflexivity.
  simpl. destruct (perform h op w) as [r w']. apply IH.
Qed.

Lemma run_Vis (h : nat) (op : Op) (k : Res op → Prog A) (w : World) :
  run h (Vis op k) w = run h (k (perform h op w).1) (perform h op w).2.
Proof. simpl. by destruct (perform h op w). Qed.
End Running.


Lemma run_defer {A} (h : nat) (cleanup : Prog unit) (body : Prog A) (w : World) :
  run h (defer cleanup body) w =
    match run h body w with
    | (Returned a, w') =>
        match run h cleanup w' with
        | (Returned _, w'') => (Returned a, w'')
        | (Panicked m, w'') => (Panicked m, w'')
        end
    | (Panicked m, w') =>
        match run h cleanup w' with
        | (Returned _, w'') => (Panicked m, w'')
        | (Panicked m', w'') => (Panicked m', w'')
        end
    end.
Proof.
  revert w. induction body as [a|m|op k IH]; intros w; simpl.
  - rewrite run_bind. by destruct (run h cleanup w) as [[[]|?] ?].
  - rewrite run_bind. by destruct (run h cleanup w) as [[[]|?] ?].
  - destruct (perform h op w) as [r w']. apply IH.
Qed.

(** The trace only grows. *)
Lemma perform_trace (h : nat) (op : Op) (w : World) :
  trace (perform h op w).2 = trace w ++ [mkEntry h op (perform h op w).1].
Proof.
  unfold perform.
  assert (trace (answer op w).2 = trace w) as E.
  { destruct op; simpl; try done;
      repeat (match goal with
              | |- context [pop ?d ?l] => destruct (pop d l)
              | |- context [match ?o with Some _ => _ | None => _ end] => destruct o
              | |- context [Store.commit ?m ?i ?t] => destruct (Store.commit m i t)
              end; simpl); done. }
  destruct (answer op w) as [r w']. simpl in *. by rewrite E.
Qed.

(** ** Facts about the helpers *)

Lemma strip_app (p s : string) : strip p (p +:+ s) = Some s.
Proof.
  induction p as [|a p IH]; simpl; [done|].
  by rewrite decide_True.
Qed.

Lemma TrimPrefix_app (p s : string) : TrimPrefix (p +:+ s) p = s.
Proof. unfold TrimPrefix. by rewrite strip_app. Qed.

(** *** [CompareAndPut] *)

Section CompareAndPut.
Variables (h : nat) (e : etcdInfo) (c : Client).
Hypothesis cached : client e = Some c.
Variables (k o n : string).


Lemma run_CompareAndPut (w : World) :
  run h (CompareAndPut e k o n) w =
    (Returned (swapped (perform h (casOp c k o n) w).1), (perform h (casOp c k o n) w).2).
Proof using cached.
  unfold CompareAndPut. rewrite cached. simpl.
  fold (casOp c k o n). destruct (perform h (casOp c k o n) w) as [[t|err] w']; reflexivity.
Qed.

Lemma view_casOp (r : Res (casOp c k o n)) :
  view (mkEntry h (casOp c k o n) r) = CAS k o n (swapped r).
Proof. unfold view. simpl. by rewrite bool_decide_eq_true_2. Qed.

(** What one guarded swap does to the store. *)
Lemma perform_cas (ctx : Context) (w : World) :
  let r := perform h (etcdTxn c ctx [CompareValueEq k o] [OpPut k n]) w in
  swapped r.1 = bool_decide (nextFault w = None ∧ kv w !! k = Some o)
  ∧ kv r.2 = (if swapped r.1 then <[k:=n]> (kv w) else kv w)
  ∧ faults r.2 = (pop None (faults w)).2
  ∧ smb r.2 = smb w.
Proof.
  unfold perform, nextFault. simpl.
  destruct (pop None (faults w)) as [[err|] fs] eqn:Ep; simpl.
  - done.
  - unfold Store.commit. simpl. rewrite andb_true_r.
    destruct (decide (kv w !! k = Some o)) as [Hk|Hk].
    + rewrite (bool_decide_eq_true_2 _ Hk). simpl.
      split; [|done]. symmetry. by apply bool_decide_eq_true.
    + rewrite (bool_decide_eq_false_2 _ Hk). simpl.
      split; [|done]. symmetry. apply bool_decide_eq_false. by intros [_ ?].
Qed.
End CompareAndPut.

(** ** The watcher's handler on the two boundary events *)


Section Handler.
Variables (h : nat) (e : etcdInfo) (c : Client).
Hypothesis cached : client e = Some c.

Local Ltac step_cas w :=
  rewrite run_bind, (run_CompareAndPut h e c cached);
  let r := fresh "r" in let w' := fresh "w" in let E := fresh "E" in
  match goal with
  | |- context [perform h ?op w] =>
      pose proof (perform_trace h op w) as E;
      destruct (perform h op w) as [r w']
  end;
  simpl in E; cbn [fst snd].

Local Ltac step_call w :=
  rewrite run_Vis;
  let r := fresh "b" in let w' := fresh "w" in let E := fresh "E" in
  match goal with
  | |- context [perform h ?op w] =>
      pose proof (perform_trace h op w) as E;
      destruct (perform h op w) as [r w']
  end;
  simpl in E; cbn [fst snd].

(** C1: on a [GREF:V] event from "0" to "1" the handler claims
    [Ready → Intermediate] first; a lost claim ends the run with no
    SMB call and no further write; a won claim is followed by the SMB
    start and then by [Intermediate → Mounted] (with
    [Intermediate → Error] as fallback) or, when the start failed, by
    [Intermediate → Error]. *)
Theorem handler_zero_to_one (ev : Event) (V : string) (w : World) :
  grefChange ev V etcdNoRef etcdSingleRef →
  let r := run h (etcdEventHandler e ev) w in
  r.1 = Returned tt
  ∧ ∃ calls, trace r.2 = trace w ++ calls
      ∧ Lifecycle (etcdPrefixState +:+ V) V volStateReady volStateMounted
          SMBStart (view <$> calls).
Proof using cached.
  intros (HT & (kvp & HK & Hkey & Hval) & (prev & HP & Hprev)). cbv zeta.
  unfold etcdEventHandler, prevIs. rewrite HT, HK, HP, Hval, Hprev, Hkey.
  rewrite TrimPrefix_app.
  rewrite !bool_decide_eq_true_2 by done. cbn [andb]. norm.
  step_cas w. destruct (swapped r) eqn:Es; cbn [negb].
  2:{ simpl. split; [done|]. eexists; split; [exact E|].
      simpl. rewrite view_casOp, Es. constructor. }
  step_call w0. destruct b.
  - step_cas w1. destruct (swapped r0) eqn:Es0.
    + rewrite bool_decide_eq_false_2 by done. simpl. split; [done|].
      eexists; split; [rewrite E1, E0, E, <- !app_assoc; reflexivity|].
      simpl. rewrite !view_casOp, Es, Es0. constructor.
    + rewrite bool_decide_eq_true_2 by done.
      step_cas w2. simpl. split; [done|].
      eexists; split; [rewrite E2, E1, E0, E, <- !app_assoc; reflexivity|].
      simpl. rewrite !view_casOp, Es, Es0. constructor.
  - step_cas w1. simpl. split; [done|].
    eexists; split; [rewrite E1, E0, E, <- !app_assoc; reflexivity|].
    simpl. rewrite !view_casOp, Es. constructor.
Qed.

(** C2: on a [GREF:V] event from "1" to "0" the handler claims
    [Mounted → Intermediate] first; a lost claim ends the run with no
    side effect; a won claim is followed by the SMB stop and then by
    [Intermediate → Ready] (with [Intermediate → Error] as fallback)
    or, when the stop failed, by [Intermediate → Error]. *)
Theorem handler_one_to_zero (ev : Event) (V : string) (w : World) :
  grefChange ev V etcdSingleRef etcdNoRef →
  let r := run h (etcdEventHandler e ev) w in
  r.1 = Returned tt
  ∧ ∃ calls, trace r.2 = trace w ++ calls
      ∧ Lifecycle (etcdPrefixState +:+ V) V volStateMounted volStateReady
          SMBStop (view <$> calls).
Proof using cached.
  intros (HT & (kvp & HK & Hkey & Hval) & (prev & HP & Hprev)). cbv zeta.
  unfold etcdEventHandler, prevIs. rewrite HT, HK, HP, Hval, Hprev, Hkey.
  rewrite TrimPrefix_app.
  rewrite (bool_decide_eq_false_2 (etcdNoRef = etcdSingleRef)) by (by intros [=]).
  cbn [andb].
  rewrite !bool_decide_eq_true_2 by done. cbn [andb]. norm.
  step_cas w. destruct (swapped r) eqn:Es; cbn [negb].
  2:{ simpl. split; [done|]. eexists; split; [exact E|].
      simpl. rewrite view_casOp, Es. constructor. }
  step_call w0. destruct b.
  - step_cas w1. destruct (swapped r0) eqn:Es0.
    + rewrite bool_decide_eq_false_2 by done. simpl. split; [done|].
      eexists; split; [rewrite E1, E0, E, <- !app_assoc; reflexivity|].
      simpl. rewrite !view_casOp, Es, Es0. constructor.
    + rewrite bool_decide_eq_true_2 by done.
      step_cas w2. simpl. split; [done|].
      eexists; split; [rewrite E2, E1, E0, E, <- !app_assoc; reflexivity|].
      simpl. rewrite !view_casOp, Es, Es0. constructor.
  - step_cas w1. simpl. split; [done|].
    eexists; split; [rewrite E1, E0, E, <- !app_assoc; reflexivity|].
    simpl. rewrite !view_casOp, Es. constructor.
Qed.
End Handler.

Lemma handler_zero_to_one_witness :
  let r := run 0 (etcdEventHandler exampleEtcd (examplePut "SVOLS_gref_v1" "0" "1"))
             (exampleWorld [("SVOLS_stat_v1", "Ready")]) in
  r.1 = Returned tt
  ∧ ∃ calls, trace r.2 = [] ++ calls
      ∧ Lifecycle "SVOLS_stat_v1" "v1" volStateReady volStateMounted SMBStart
          (view <$> calls).
Proof.
  apply (handler_zero_to_one 0 exampleEtcd exampleClient eq_refl
           (examplePut "SVOLS_gref_v1" "0" "1") "v1"
           (exampleWorld [("SVOLS_stat_v1", "Ready")])).
  split; [reflexivity|]. split.
  - exists (mkKeyValue "SVOLS_gref_v1" "1"). repeat split; reflexivity.
  - exists (mkKeyValue "SVOLS_gref_v1" "0"). split; reflexivity.
Defined.

Lemma handler_one_to_zero_witness :
  let r := run 0 (etcdEventHandler exampleEtcd (examplePut "SVOLS_gref_v1" "1" "0"))
             (exampleWorld [("SVOLS_stat_v1", "Mounted")]) in
  r.1 = Returned tt
  ∧ ∃ calls, trace r.2 = [] ++ calls
      ∧ Lifecycle "SVOLS_stat_v1" "v1" volStateMounted volStateReady SMBStop
          (view <$> calls).
Proof.
  apply (handler_one_to_zero 0 exampleEtcd exampleClient eq_refl
           (examplePut "SVOLS_gref_v1" "1" "0") "v1"
           (exampleWorld [("SVOLS_stat_v1", "Mounted")])).
  split; [reflexivity|]. split.
  - exists (mkKeyValue "SVOLS_gref_v1" "0"). repeat split; reflexivity.
  - exists (mkKeyValue "SVOLS_gref_v1" "1"). split; reflexivity.
Defined.

(** The four runs of the first-mount handler do occur. *)
Example zero_to_one_mounts :
  let r := run 0 (etcdEventHandler exampleEtcd (examplePut "SVOLS_gref_v1" "0" "1"))
             (exampleWorld [("SVOLS_stat_v1", "Ready")]) in
  view <$> trace r.2 =
    [CAS "SVOLS_stat_v1" "Ready" "Intermediate" true; SMBStart "v1" true;
     CAS "SVOLS_stat_v1" "Intermediate" "Mounted" true]
  ∧ kv r.2 !! "SVOLS_stat_v1" = Some "Mounted".
Proof. vm_compute. done. Qed.

Example zero_to_one_lost :
  let r := run 0 (etcdEventHandler exampleEtcd (examplePut "SVOLS_gref_v1" "0" "1"))
             (exampleWorld [("SVOLS_stat_v1", "Error")]) in
  view <$> trace r.2 = [CAS "SVOLS_stat_v1" "Ready" "Intermediate" false]
  ∧ kv r.2 !! "SVOLS_stat_v1" = Some "Error".
Proof. vm_compute. done. Qed.

Example zero_to_one_start_fails :
  let r := run 0 (etcdEventHandler exampleEtcd (examplePut "SVOLS_gref_v1" "0" "1"))
             (setSmb [false] (exampleWorld [("SVOLS_stat_v1", "Ready")])) in
  view <$> trace r.2 =
    [CAS "SVOLS_stat_v1" "Ready" "Intermediate" true; SMBStart "v1" false;
     CAS "SVOLS_stat_v1" "Intermediate" "Error" true]
  ∧ kv r.2 !! "SVOLS_stat_v1" = Some "Error".
Proof. vm_compute. done. Qed.

Example zero_to_one_fallback :
  let r := run 0 (etcdEventHandler exampleEtcd (examplePut "SVOLS_gref_v1" "0" "1"))
             (setFaults [None; Some rpcError]
                (exampleWorld [("SVOLS_stat_v1", "Ready")])) in
  view <$> trace r.2 =
    [CAS "SVOLS_stat_v1" "Ready" "Intermediate" true; SMBStart "v1" true;
     CAS "SVOLS_stat_v1" "Intermediate" "Mounted" false;
     CAS "SVOLS_stat_v1" "Intermediate" "Error" true]
  ∧ kv r.2 !! "SVOLS_stat_v1" = Some "Error".
Proof. vm_compute. done. Qed.

(** ** The metadata API *)

(** Creating a client touches neither the store nor the scripts of the
    store and of the SMB controller. *)
Lemma sameStore_trans (w1 w2 w3 : World) :
  sameStore w1 w2 → sameStore w2 w3 → sameStore w1 w3.
Proof. unfold sameStore. intros (?&?&?&?) (?&?&?&?). repeat split; congruence. Qed.

Lemma perform_etcdNew (h : nat) (endpoints : list string) (w : World) :
  sameStore w (perform h (etcdNew endpoints) w).2.
Proof.
  unfold perform. simpl. by destruct (pop None (dials w)) as [[err|] ds].
Qed.

Lemma perform_dockerInfo (h : nat) (w : World) :
  sameStore w (perform h dockerInfo w).2 ∧ (perform h dockerInfo w).1 = d_info w.
Proof. done. Qed.

Lemma perform_etcdClose (h : nat) (c : Client) (w : World) :
  sameStore w (perform h (etcdClose c) w).2.
Proof. done. Qed.

Lemma firstManagerClient_frame (h : nat) (managers : list Peer) (w : World) :
  sameStore w (run h (firstManagerClient managers) w).2.
Proof.
  revert w. induction managers as [|m ms IH]; intros w; [done|].
  cbn [firstManagerClient]. unfold addrToEtcdClient. norm.
  rewrite run_Vis.
  pose proof (perform_etcdNew h [SplitColon0 (Addr m) +:+ etcdClientPort] w) as F.
  destruct (perform h _ w) as [[c|err] w']; simpl in *; [done|].
  eapply sameStore_trans; [exact F|apply IH].
Qed.

Lemma createEtcdClient_frame (h : nat) (w : World) :
  sameStore w (run h createEtcdClient w).2.
Proof.
  unfold createEtcdClient. norm. rewrite run_Vis.
  destruct (perform_dockerInfo h w) as [F E].
  destruct (perform h dockerInfo w) as [[info|err] w']; simpl in *; [|done].
  eapply sameStore_trans; [exact F|apply firstManagerClient_frame].
Qed.

Lemma applyOps_gets (m : gmap string string) (keys : list string) :
  Store.applyOps m (map OpGet keys)
  = (map (λ k, ResponseRange (Store.range1 m k)) keys, m).
Proof. induction keys as [|k ks IH]; simpl; [done|]. by rewrite IH. Qed.

Lemma applyOps_snd_app (m : gmap string string) (ops1 ops2 : list KvOp) :
  (Store.applyOps m (ops1 ++ ops2)).2
  = (Store.applyOps (Store.applyOps m ops1).2 ops2).2.
Proof.
  revert m. induction ops1 as [|op ops IH]; intros m; simpl; [done|].
  destruct (Store.applyOp m op) as [r m1] eqn:E1.
  specialize (IH m1).
  destruct (Store.applyOps m1 (ops ++ ops2)) as [rs m2].
  destruct (Store.applyOps m1 ops) as [rs' m2']. simpl in *.
  by destruct (Store.applyOps m2' ops2).
Qed.

Lemma range1_Some (m : gmap string string) (k v : string) :
  m !! k = Some v → Store.range1 m k = mkRange [mkKeyValue k v] 1.
Proof. unfold Store.range1. by intros ->. Qed.

Lemma range1_None (m : gmap string string) (k : string) :
  m !! k = None → Store.range1 m k = mkRange [] 0.
Proof. unfold Store.range1. by intros ->. Qed.

Lemma collectEntries_spec (m : gmap string string) (keys pre : list string)
    (entries : list kvPair) (missedCount : nat) :
  collectEntries keys (List.length pre)
    (map (λ k, ResponseRange (Store.range1 m k)) (pre ++ keys)) entries missedCount
  = Ret (entries ++ foundEntries m keys, (missedCount + missedKeys m keys)%nat).
Proof.
  revert pre entries missedCount.
  induction keys as [|k ks IH]; intros pre entries missedCount.
  - simpl. unfold foundEntries, missedKeys. simpl.
    by rewrite app_nil_r, Nat.add_0_r.
  - cbn [collectEntries].
    rewrite list_lookup_fmap, lookup_app_r, Nat.sub_diag by done. simpl.
    replace (pre ++ k :: ks) with ((pre ++ [k]) ++ ks) by by rewrite <- app_assoc.
    replace (S (List.length pre)) with (List.length (pre ++ [k]))
      by (rewrite length_app; simpl; lia).
    unfold foundEntries, missedKeys. cbn [omap]. rewrite filter_cons.
    destruct (decide (m !! k = None)) as [Ek|Ek].
    + rewrite (range1_None _ _ Ek), Ek. cbn [Count Kvs fmap option_fmap option_map].
      rewrite bool_decide_eq_true_2 by done. rewrite IH.
      unfold foundEntries, missedKeys. simpl. f_equal. f_equal. lia.
    + destruct (m !! k) as [v|] eqn:Ev; [|done].
      rewrite (range1_Some _ _ _ Ev). cbn [Count Kvs fmap option_fmap option_map].
      rewrite bool_decide_eq_false_2 by done. rewrite IH.
      unfold foundEntries, missedKeys. by rewrite <- app_assoc.
Qed.

Lemma missedKeys_all (m : gmap string string) (keys : list string) :
  missedKeys m keys = List.length keys ↔ ∀ k, k ∈ keys → m !! k = None.
Proof.
  unfold missedKeys. induction keys as [|k ks [IH1 IH2]].
  - split; [|done]. intros _ k Hk. by apply elem_of_nil in Hk.
  - rewrite filter_cons. destruct (decide (m !! k = None)) as [Hk|Hk].
    + split.
      * intros [= E]. intros k' [->|?]%elem_of_cons; auto.
      * intros H. simpl. f_equal. apply IH2. intros k' ?. apply H. by right.
    + split.
      * intros E. pose proof (length_filter (λ k, m !! k = None) ks).
        simpl in E. lia.
      * intros H. destruct Hk. apply H. by left.
Qed.

Lemma missedKeys_none (m : gmap string string) (keys : list string) :
  missedKeys m keys = 0%nat ↔ ∀ k, k ∈ keys → is_Some (m !! k).
Proof.
  unfold missedKeys. induction keys as [|k ks [IH1 IH2]].
  - split; [|done]. intros _ k Hk. by apply elem_of_nil in Hk.
  - rewrite filter_cons. destruct (decide (m !! k = None)) as [Hk|Hk].
    + split; [done|]. intros H. destruct (H k) as [v Hv]; [by left|congruence].
    + split.
      * intros E k' [->|?]%elem_of_cons; [|auto].
        by destruct (m !! k); [eexists|].
      * intros H. apply IH2. intros k' ?. apply H. by right.
Qed.

Lemma foundEntries_all (m : gmap string string) (keys : list string) :
  (∀ k, k ∈ keys → is_Some (m !! k)) →
  Forall2 (λ k en, key en = k ∧ m !! k = Some (value en)) keys (foundEntries m keys).
Proof.
  unfold foundEntries. induction keys as [|k ks IH]; intros H; simpl; [constructor|].
  destruct (H k) as [v Hv]; [by left|]. rewrite Hv. simpl.
  constructor; [done|]. apply IH. intros k' ?. apply H. by right.
Qed.

(** An unguarded transaction: it applies its operations unless the
    request fails. *)
Lemma perform_txn_then (h : nat) (c : Client) (ctx : Context) (thens : list KvOp)
    (w : World) :
  nextFault w = None →
  (perform h (etcdTxn c ctx [] thens) w).1
    = inl (mkTxnResponse true (Store.applyOps (kv w) thens).1)
  ∧ kv (perform h (etcdTxn c ctx [] thens) w).2 = (Store.applyOps (kv w) thens).2
  ∧ faults (perform h (etcdTxn c ctx [] thens) w).2 = (pop None (faults w)).2.
Proof.
  unfold nextFault, perform. simpl.
  destruct (pop None (faults w)) as [f fs]. simpl. intros ->.
  unfold Store.commit. simpl. by destruct (Store.applyOps (kv w) thens).
Qed.

Lemma perform_txn_fault (h : nat) (c : Client) (ctx : Context)
    (ifs : list Cmp) (thens : list KvOp) (w : World) (err : error) :
  nextFault w = Some err →
  (perform h (etcdTxn c ctx ifs thens) w).1 = inr err
  ∧ kv (perform h (etcdTxn c ctx ifs thens) w).2 = kv w.
Proof.
  unfold nextFault, perform. simpl.
  destruct (pop None (faults w)) as [f fs]. simpl. by intros ->.
Qed.

Section ReadVolMetadata.
Variables (h : nat) (e : etcdInfo) (keys : list string).
Variables (w w1 : World) (c : Client).
Hypothesis connected : run h createEtcdClient w = (Returned (Some c), w1).
Hypothesis served : nextFault w = None.

Lemma run_ReadVolMetadata :
  (run h (ReadVolMetadata e keys) w).1 =
    if bool_decide (missedKeys (kv w) keys = List.length keys)
    then Returned ([], Some VolumeDoesNotExistError)
    else if bool_decide (0 < missedKeys (kv w) keys)%nat
         then Panicked couldNotFindAllKeys
         else Returned (foundEntries (kv w) keys, None).
Proof using connected served.
  pose proof (createEtcdClient_frame h w) as (Hkv & Hf & _).
  rewrite connected in Hkv, Hf. simpl in Hkv, Hf.
  unfold ReadVolMetadata. norm. rewrite run_bind, connected.
  rewrite run_defer. cbn [deref closeClient]. rewrite run_Vis.
  destruct (perform_txn_then h c ctxTODO (map OpGet keys) w1) as (Er & _).
  { unfold nextFault. rewrite Hf. exact served. }
  destruct (perform h (etcdTxn c ctxTODO [] (map OpGet keys)) w1) as [r w2].
  simpl in Er. subst r. rewrite Hkv, applyOps_gets. cbn [Responses fst].
  rewrite run_bind.
  pose proof (collectEntries_spec (kv w) keys [] [] 0) as Ec.
  simpl in Ec. rewrite Ec. simpl.
  destruct (bool_decide (missedKeys (kv w) keys = List.length keys)); simpl.
  { by destruct (perform h (etcdClose c) w2). }
  destruct (bool_decide (0 < missedKeys (kv w) keys)%nat); simpl;
    by destruct (perform h (etcdClose c) w2).
Qed.

(** C5: for a non-empty list of keys, [ReadVolMetadata] answers "No
    such volume" when none of the keys is in the store, panics when
    some but not all of them are missing, and returns one entry (key
    and stored value) for each requested key when all are there.  The
    client is created and the read transaction goes through. *)
Theorem ReadVolMetadata_outcomes :
  keys ≠ [] →
  let out := (run h (ReadVolMetadata e keys) w).1 in
  ((∀ k, k ∈ keys → kv w !! k = None) →
     out = Returned ([], Some VolumeDoesNotExistError))
  ∧ ((∃ k, k ∈ keys ∧ kv w !! k = None) → (∃ k, k ∈ keys ∧ is_Some (kv w !! k)) →
     out = Panicked couldNotFindAllKeys)
  ∧ ((∀ k, k ∈ keys → is_Some (kv w !! k)) →
     ∃ entries, out = Returned (entries, None)
       ∧ Forall2 (λ k en, key en = k ∧ kv w !! k = Some (value en)) keys entries).
Proof using connected served.
  intros Hne. cbv zeta. rewrite run_ReadVolMetadata.
  split; [|split].
  - intros Hall. by rewrite bool_decide_eq_true_2 by by apply missedKeys_all.
  - intros (k1 & Hin1 & Hk1) (k2 & Hin2 & Hk2).
    rewrite bool_decide_eq_false_2.
    2:{ intros E. pose proof (proj1 (missedKeys_all _ _) E k2 Hin2) as E2.
        clear E. rename E2 into E.
        rewrite E in Hk2. by destruct Hk2. }
    rewrite bool_decide_eq_true_2; [done|].
    destruct (missedKeys (kv w) keys) eqn:E; [|lia].
    destruct (proj1 (missedKeys_none _ _) E k1 Hin1). congruence.
  - intros Hall. pose proof (proj2 (missedKeys_none _ _) Hall) as E. rewrite E.
    rewrite bool_decide_eq_false_2.
    2:{ destruct keys; [done|]. simpl. lia. }
    rewrite bool_decide_eq_false_2 by lia.
    eexists; split; [done|]. by apply foundEntries_all.
Qed.
End ReadVolMetadata.

Lemma ReadVolMetadata_outcomes_witness :
  let w := exampleWorld [("SVOLS_stat_v1", "Ready"); ("SVOLS_gref_v1", "0");
                         ("SVOLS_info_v1", "{}")] in
  let keys := volumeKeys "v1" in
  let out := (run 0 (ReadVolMetadata exampleEtcd keys) w).1 in
  ((∀ k, k ∈ keys → kv w !! k = None) →
     out = Returned ([], Some VolumeDoesNotExistError))
  ∧ ((∃ k, k ∈ keys ∧ kv w !! k = None) → (∃ k, k ∈ keys ∧ is_Some (kv w !! k)) →
     out = Panicked couldNotFindAllKeys)
  ∧ ((∀ k, k ∈ keys → is_Some (kv w !! k)) →
     ∃ entries, out = Returned (entries, None)
       ∧ Forall2 (λ k en, key en = k ∧ kv w !! k = Some (value en)) keys entries).
Proof.
  intros w keys.
  apply (ReadVolMetadata_outcomes 0 exampleEtcd keys w
           (run 0 createEtcdClient w).2 (mkClient 1 ["10.0.0.9:2379"])).
  - vm_compute. reflexivity.
  - reflexivity.
  - discriminate.
Defined.

(** The three outcomes on concrete stores. *)
Example read_all_present :
  (run 0 (ReadVolMetadata exampleEtcd (volumeKeys "v1"))
     (exampleWorld [("SVOLS_stat_v1", "Ready"); ("SVOLS_gref_v1", "0");
                    ("SVOLS_info_v1", "{}")])).1
  = Returned ([mkKvPair "SVOLS_stat_v1" "Ready"; mkKvPair "SVOLS_gref_v1" "0";
               mkKvPair "SVOLS_info_v1" "{}"], None).
Proof. vm_compute. reflexivity. Qed.

Example read_all_absent :
  (run 0 (ReadVolMetadata exampleEtcd (volumeKeys "v1"))
     (exampleWorld [("SVOLS_stat_v2", "Ready")])).1
  = Returned ([], Some "No such volume").
Proof. vm_compute. reflexivity. Qed.

Example read_partial_panics :
  (run 0 (ReadVolMetadata exampleEtcd (volumeKeys "v4"))
     (exampleWorld [("SVOLS_stat_v4", "Ready")])).1
  = Panicked "Failed to get volume. Couldn't find all keys!".
Proof. vm_compute. reflexivity. Qed.

(** *** Runs of [WriteVolMetadata] and [DeleteVolMetadata] *)

Lemma createEtcdClient_returns (h : nat) (w : World) :
  ∃ oc, (run h createEtcdClient w).1 = Returned oc.
Proof.
  unfold createEtcdClient. norm. rewrite run_Vis.
  destruct (perform h dockerInfo w) as [[info|err] w']; simpl; [|by eexists].
  generalize (RemoteManagers (Swarm info)). intros ms. revert w'.
  induction ms as [|m ms IH]; intros w'; [by eexists|].
  cbn [firstManagerClient]. unfold addrToEtcdClient. norm. rewrite run_Vis.
  destruct (perform h _ w') as [[c|err] w'']; simpl; [by eexists|apply IH].
Qed.

Section Unconnected.
Variables (h : nat) (e : etcdInfo) (w w1 : World).
Hypothesis unconnected : run h createEtcdClient w = (Returned None, w1).

Lemma run_WriteVolMetadata_nil (entries : list kvPair) :
  run h (WriteVolMetadata e entries) w = (Panicked nilDereference, w1).
Proof using unconnected.
  unfold WriteVolMetadata. norm. rewrite run_bind, unconnected.
  rewrite run_defer. by destruct (bool_decide _).
Qed.

Lemma run_ReadVolMetadata_nil (keys : list string) :
  run h (ReadVolMetadata e keys) w = (Panicked nilDereference, w1).
Proof using unconnected.
  unfold ReadVolMetadata. norm. rewrite run_bind, unconnected.
  by rewrite run_defer.
Qed.

Lemma run_DeleteVolMetadata_nil (name : string) :
  run h (DeleteVolMetadata e name) w = (Panicked nilDereference, w1).
Proof using unconnected.
  unfold DeleteVolMetadata. norm. rewrite run_bind, unconnected.
  by rewrite run_defer.
Qed.
End Unconnected.

Section Connected.
Variables (h : nat) (e : etcdInfo) (w w1 : World) (c : Client).
Hypothesis connected : run h createEtcdClient w = (Returned (Some c), w1).

Lemma run_WriteVolMetadata_empty :
  run h (WriteVolMetadata e []) w
  = (Panicked indexOutOfRange, (perform h (etcdClose c) w1).2).
Proof using connected.
  unfold WriteVolMetadata. norm. rewrite run_bind, connected.
  rewrite run_defer. simpl. by destruct (perform h (etcdClose c) w1).
Qed.

Lemma run_WriteVolMetadata_one (entry : kvPair) :
  let p := perform h (etcdDo c ctxTODO (OpPut (key entry) (value entry))) w1 in
  run h (WriteVolMetadata e [entry]) w
  = (Returned (writeError (errorOf p.1)), (perform h (etcdClose c) p.2).2).
Proof using connected.
  unfold WriteVolMetadata. norm. rewrite run_bind, connected.
  rewrite run_defer. cbn [List.length map deref].
  rewrite bool_decide_eq_false_2 by lia. norm. rewrite run_Vis.
  destruct (perform h (etcdDo _ _ _) w1) as [[[]|err] w2]; simpl;
    by destruct (perform h (etcdClose c) w2).
Qed.

Lemma run_WriteVolMetadata_many (entries : list kvPair) :
  (1 < List.length entries)%nat →
  let p := perform h (etcdTxn c ctxTODO [] (putsOf entries)) w1 in
  run h (WriteVolMetadata e entries) w
  = (Returned (writeError (errorOf p.1)), (perform h (etcdClose c) p.2).2).
Proof using connected.
  intros Hlen. unfold WriteVolMetadata. norm. rewrite run_bind, connected.
  rewrite run_defer. rewrite bool_decide_eq_true_2 by done.
  cbn [deref]. norm. rewrite run_Vis. fold (putsOf entries).
  destruct (perform h (etcdTxn _ _ _ _) w1) as [[t|err] w2]; simpl;
    by destruct (perform h (etcdClose c) w2).
Qed.

Lemma run_DeleteVolMetadata (name : string) :
  let p := perform h (etcdTxn c ctxTODO [] (deletesOf name)) w1 in
  run h (DeleteVolMetadata e name) w
  = (Returned (deleteError name p.1), (perform h (etcdClose c) p.2).2).
Proof using connected.
  unfold DeleteVolMetadata. norm. rewrite run_bind, connected.
  rewrite run_defer. cbn [deref]. norm. rewrite run_Vis. fold (deletesOf name).
  destruct (perform h (etcdTxn _ _ _ _) w1) as [[t|err] w2]; simpl;
    by destruct (perform h (etcdClose c) w2).
Qed.
End Connected.

Lemma perform_txn_errorOf (h : nat) (c : Client) (ctx : Context) (thens : list KvOp)
    (w : World) :
  let p := perform h (etcdTxn c ctx [] thens) w in
  errorOf p.1 = nextFault w
  ∧ kv p.2 = (if nextFault w is Some _ then kv w else (Store.applyOps (kv w) thens).2).
Proof.
  unfold nextFault, perform. simpl.
  destruct (pop None (faults w)) as [[err|] fs]; simpl; [done|].
  unfold Store.commit. simpl. by destruct (Store.applyOps (kv w) thens).
Qed.

Lemma perform_do_errorOf (h : nat) (c : Client) (ctx : Context) (op : KvOp) (w : World) :
  let p := perform h (etcdDo c ctx op) w in
  errorOf p.1 = nextFault w
  ∧ kv p.2 = (if nextFault w is Some _ then kv w else (Store.applyOp (kv w) op).2).
Proof.
  unfold nextFault, perform. simpl.
  by destruct (pop None (faults w)) as [[err|] fs].
Qed.

Lemma writeError_None (r : option error) : writeError r = None → r = None.
Proof. by destruct r. Qed.

Lemma deleteError_None (name : string) (r : TxnResponse + error) :
  deleteError name r = None → errorOf r = None.
Proof. by destruct r. Qed.

(** A write that reports success has put every entry. *)
Lemma WriteVolMetadata_ok_kv (h : nat) (e : etcdInfo) (entries : list kvPair)
    (w w1 : World) :
  run h (WriteVolMetadata e entries) w = (Returned None, w1) →
  kv w1 = (Store.applyOps (kv w) (putsOf entries)).2.
Proof.
  intros Hrun.
  destruct (createEtcdClient_returns h w) as [oc Hoc].
  pose proof (createEtcdClient_frame h w) as (Hkv & Hf & _).
  destruct (run h createEtcdClient w) as [o w0] eqn:Ec.
  simpl in Hoc, Hkv, Hf. subst o.
  destruct oc as [c|].
  2:{ by rewrite (run_WriteVolMetadata_nil h e w w0 Ec) in Hrun. }
  destruct entries as [|entry [|entry2 rest]].
  - by rewrite (run_WriteVolMetadata_empty h e w w0 c Ec) in Hrun.
  - rewrite (run_WriteVolMetadata_one h e w w0 c Ec) in Hrun. cbv zeta in Hrun.
    destruct (perform_do_errorOf h c ctxTODO (OpPut (key entry) (value entry)) w0)
      as [He Hk].
    injection Hrun as Hr <-. apply writeError_None in Hr.
    assert (nextFault w0 = None) as Hn by (rewrite <- He; exact Hr).
    rewrite Hn in Hk.
    cbn [kv setTrace]. etrans; [exact Hk|]. by rewrite Hkv.
  - rewrite (run_WriteVolMetadata_many h e w w0 c Ec) in Hrun by (simpl; lia).
    cbv zeta in Hrun.
    destruct (perform_txn_errorOf h c ctxTODO (putsOf (entry :: entry2 :: rest)) w0)
      as [He Hk].
    injection Hrun as Hr <-. apply writeError_None in Hr.
    assert (nextFault w0 = None) as Hn by (rewrite <- He; exact Hr).
    rewrite Hn in Hk.
    cbn [kv setTrace]. etrans; [exact Hk|]. by rewrite Hkv.
Qed.

(** A delete that reports success has removed the three keys. *)
Lemma DeleteVolMetadata_ok_kv (h : nat) (e : etcdInfo) (name : string) (w w1 : World) :
  run h (DeleteVolMetadata e name) w = (Returned None, w1) →
  kv w1 = delete (etcdPrefixInfo +:+ name)
            (delete (etcdPrefixGRef +:+ name)
               (delete (etcdPrefixState +:+ name) (kv w))).
Proof.
  intros Hrun.
  destruct (createEtcdClient_returns h w) as [oc Hoc].
  pose proof (createEtcdClient_frame h w) as (Hkv & Hf & _).
  destruct (run h createEtcdClient w) as [o w0] eqn:Ec.
  simpl in Hoc, Hkv, Hf. subst o.
  destruct oc as [c|].
  2:{ by rewrite (run_DeleteVolMetadata_nil h e w w0 Ec) in Hrun. }
  rewrite (run_DeleteVolMetadata h e w w0 c Ec) in Hrun. cbv zeta in Hrun.
  destruct (perform_txn_errorOf h c ctxTODO (deletesOf name) w0) as [He Hk].
  injection Hrun as Hr <-. apply deleteError_None in Hr.
  assert (nextFault w0 = None) as Hn by (rewrite <- He; exact Hr).
  rewrite Hn in Hk.
  cbn [kv setTrace]. etrans; [exact Hk|]. by rewrite Hkv.
Qed.

Lemma volumeKeys_deleted (m : gmap string string) (V k : string) :
  k ∈ volumeKeys V →
  delete (etcdPrefixInfo +:+ V)
    (delete (etcdPrefixGRef +:+ V) (delete (etcdPrefixState +:+ V) m)) !! k = None.
Proof.
  intros Hk. unfold volumeKeys in Hk. rewrite !lookup_delete.
  destruct (decide (etcdPrefixInfo +:+ V = k)); [done|].
  destruct (decide (etcdPrefixGRef +:+ V = k)); [done|].
  destruct (decide (etcdPrefixState +:+ V = k)); [done|].
  repeat (apply elem_of_cons in Hk as [Hk|Hk]; [by subst|]).
  by apply elem_of_nil in Hk.
Qed.

Lemma nextFault_frame (w w1 : World) : sameStore w w1 → nextFault w1 = nextFault w.
Proof. unfold nextFault. by intros (_ & -> & _). Qed.

(** C6: a successful write of [(K, v)] followed by a read of [K] gives
    back [(K, v)]; a write of the three keys of [V], a successful delete
    of [V] and a read of the three keys gives "No such volume"; the
    delete is one transaction over the three keys and succeeds whatever
    keys the store holds.  Reads and the delete of the last part find a
    client and a store that answers. *)
Theorem metadata_roundtrip (h : nat) (e : etcdInfo) :
  (∀ K v w w1 c w2,
     run h (WriteVolMetadata e [mkKvPair K v]) w = (Returned None, w1) →
     run h createEtcdClient w1 = (Returned (Some c), w2) →
     nextFault w1 = None →
     (run h (ReadVolMetadata e [K]) w1).1 = Returned ([mkKvPair K v], None))
  ∧ (∀ V a b i w r w1 w2 c w3,
     run h (WriteVolMetadata e
              [mkKvPair (etcdPrefixState +:+ V) a; mkKvPair (etcdPrefixGRef +:+ V) b;
               mkKvPair (etcdPrefixInfo +:+ V) i]) w = (r, w1) →
     run h (DeleteVolMetadata e V) w1 = (Returned None, w2) →
     run h createEtcdClient w2 = (Returned (Some c), w3) →
     nextFault w2 = None →
     (run h (ReadVolMetadata e (volumeKeys V)) w2).1
       = Returned ([], Some VolumeDoesNotExistError))
  ∧ (∀ V w c w1,
     run h createEtcdClient w = (Returned (Some c), w1) →
     nextFault w = None →
     ∃ r w2, run h (DeleteVolMetadata e V) w = (Returned None, w2)
       ∧ trace w2 = trace w1 ++ [mkEntry h (etcdTxn c ctxTODO [] (deletesOf V)) r;
                                 mkEntry h (etcdClose c) tt]
       ∧ ∀ k, k ∈ volumeKeys V → kv w2 !! k = None).
Proof.
  split; [|split].
  - intros K v w w1 c w2 Hw Hc Hn.
    apply WriteVolMetadata_ok_kv in Hw. simpl in Hw.
    rewrite (run_ReadVolMetadata h e [K] w1 w2 c Hc Hn).
    assert (kv w1 !! K = Some v) as Hk by (rewrite Hw; apply lookup_insert_eq).
    unfold missedKeys, foundEntries. rewrite filter_cons, Hk.
    simpl. by rewrite Hk.
  - intros V a b i w r w1 w2 c w3 _ Hd Hc Hn.
    apply DeleteVolMetadata_ok_kv in Hd.
    rewrite (run_ReadVolMetadata h e (volumeKeys V) w2 w3 c Hc Hn).
    rewrite bool_decide_eq_true_2; [done|].
    apply missedKeys_all. intros k Hk. rewrite Hd. by apply volumeKeys_deleted.
  - intros V w c w1 Hc Hn.
    pose proof (createEtcdClient_frame h w) as F. rewrite Hc in F. simpl in F.
    rewrite (run_DeleteVolMetadata h e w w1 c Hc V). cbv zeta.
    destruct (perform_txn_errorOf h c ctxTODO (deletesOf V) w1) as [He Hk].
    rewrite (nextFault_frame _ _ F), Hn in He, Hk.
    pose proof (perform_trace h (etcdTxn c ctxTODO [] (deletesOf V)) w1) as Ht.
    destruct (perform h (etcdTxn c ctxTODO [] (deletesOf V)) w1) as [r w2].
    simpl in He, Hk, Ht.
    exists r, (perform h (etcdClose c) w2).2. split; [|split].
    + by destruct r.
    + rewrite perform_trace, Ht, <- app_assoc. done.
    + intros k Hin. cbn [kv setTrace perform answer snd].
      change (kv w2 !! k = None). rewrite Hk.
      rewrite (proj1 F). by apply volumeKeys_deleted.
Qed.

Lemma metadata_roundtrip_witness :
  let w := exampleWorld [] in
  let w1 := (run 0 (WriteVolMetadata exampleEtcd [mkKvPair "SVOLS_stat_v1" "Ready"]) w).2 in
  (run 0 (ReadVolMetadata exampleEtcd ["SVOLS_stat_v1"]) w1).1
    = Returned ([mkKvPair "SVOLS_stat_v1" "Ready"], None).
Proof.
  intros w w1.
  apply (proj1 (metadata_roundtrip 0 exampleEtcd) "SVOLS_stat_v1" "Ready" w w1
           (mkClient 2 ["10.0.0.9:2379"]) (run 0 createEtcdClient w1).2).
  - vm_compute. reflexivity.
  - vm_compute. reflexivity.
  - reflexivity.
Defined.

Example write_delete_read :
  let w1 := (run 0 (WriteVolMetadata exampleEtcd
                      [mkKvPair "SVOLS_stat_v1" "Ready"; mkKvPair "SVOLS_gref_v1" "0";
                       mkKvPair "SVOLS_info_v1" "{}"]) (exampleWorld [])).2 in
  let d := run 0 (DeleteVolMetadata exampleEtcd "v1") w1 in
  size (kv w1) = 3%nat
  ∧ d.1 = Returned None
  ∧ (run 0 (ReadVolMetadata exampleEtcd (volumeKeys "v1")) d.2).1
    = Returned ([], Some "No such volume").
Proof. vm_compute. done. Qed.

Example delete_absent_succeeds :
  (run 0 (DeleteVolMetadata exampleEtcd "v1")
     (exampleWorld [("SVOLS_gref_v1", "0")])).1 = Returned None.
Proof. vm_compute. reflexivity. Qed.

(** C10: with a client at hand, [WriteVolMetadata] sends one [Put] for
    one entry and one transaction with all puts for several, and returns;
    for no entry at all it sends nothing to the store and panics with an
    index out of range. *)
Theorem WriteVolMetadata_needs_entries (h : nat) (e : etcdInfo) (entries : list kvPair)
    (w w1 : World) (c : Client) :
  run h createEtcdClient w = (Returned (Some c), w1) →
  let r := run h (WriteVolMetadata e entries) w in
  ∃ calls, trace r.2 = trace w1 ++ calls ∧
    match entries with
    | [] => r.1 = Panicked indexOutOfRange ∧ storeRequests calls = []
    | [entry] =>
        (∃ res, r.1 = Returned res)
        ∧ storeRequests calls = [etcdDo c ctxTODO (OpPut (key entry) (value entry))]
    | _ =>
        (∃ res, r.1 = Returned res)
        ∧ storeRequests calls = [etcdTxn c ctxTODO [] (putsOf entries)]
    end.
Proof.
  intros Hc. cbv zeta. destruct entries as [|entry [|entry2 rest]].
  - rewrite (run_WriteVolMetadata_empty h e w w1 c Hc). cbn [fst snd].
    eexists. split; [apply perform_trace|]. done.
  - rewrite (run_WriteVolMetadata_one h e w w1 c Hc). cbn [fst snd].
    eexists. split.
    { rewrite perform_trace, perform_trace, <- app_assoc. reflexivity. }
    split; [by eexists|done].
  - rewrite (run_WriteVolMetadata_many h e w w1 c Hc) by (simpl; lia).
    cbn [fst snd]. eexists. split.
    { rewrite perform_trace, perform_trace, <- app_assoc. reflexivity. }
    split; [by eexists|done].
Qed.

Lemma WriteVolMetadata_needs_entries_witness :
  let w := exampleWorld [] in
  let r := run 0 (WriteVolMetadata exampleEtcd []) w in
  ∃ calls, trace r.2 = trace (run 0 createEtcdClient w).2 ++ calls
    ∧ r.1 = Panicked indexOutOfRange ∧ storeRequests calls = [].
Proof.
  intros w.
  apply (WriteVolMetadata_needs_entries 0 exampleEtcd [] w
           (run 0 createEtcdClient w).2 (mkClient 1 ["10.0.0.9:2379"])).
  vm_compute. reflexivity.
Defined.

Example write_empty_panics :
  (run 0 (WriteVolMetadata exampleEtcd []) (exampleWorld [])).1
  = Panicked "index out of range".
Proof. vm_compute. reflexivity. Qed.

(** ** The state machine of [STATE:V] *)









Lemma stepHost_cases (i : nat) (s s' : Cluster) :
  stepHost i s = Some s' →
  ∃ h, hosts s !! i = Some h ∧
    ((∃ op k, h_prog h = Vis op k
        ∧ s' = mkCluster (perform i op (world s)).2
                 (<[i := mkHost (h_etcd h) (h_queue h) (k (perform i op (world s)).1)]>
                    (hosts s)))
     ∨ (∃ a ev rest, h_prog h = Ret a ∧ h_queue h = ev :: rest
        ∧ s' = mkCluster (world s)
                 (<[i := mkHost (h_etcd h) rest (etcdEventHandler (h_etcd h) ev)]>
                    (hosts s)))).
Proof.
  unfold stepHost. destruct (hosts s !! i) as [h|] eqn:Hh; [|done].
  intros Hs. exists h. split; [done|].
  destruct (h_prog h) as [a|m|op k] eqn:Hp; [| done |].
  - destruct (h_queue h) as [|ev rest] eqn:Hq; [done|].
    right. exists a, ev, rest. by injection Hs as <-.
  - left. exists op, k. by injection Hs as <-.
Qed.

Lemma lookup_insert_host (l : list Host) (i j : nat) (x h : Host) :
  <[i := x]> l !! j = Some h → (i = j ∧ h = x) ∨ (i ≠ j ∧ l !! j = Some h).
Proof.
  intros H. destruct (decide (i = j)) as [->|Hne].
  - left. split; [done|].
    destruct (decide (j < List.length l)%nat).
    + rewrite list_lookup_insert_eq in H by done. congruence.
    + rewrite list_insert_ge in H by lia.
      apply lookup_lt_Some in H. lia.
  - right. by rewrite list_lookup_insert_ne in H.
Qed.





Lemma reaches_runSchedule (sched : list nat) (s : Cluster) :
  reaches s (runSchedule sched s).
Proof.
  revert s. induction sched as [|i rest IH]; intros s; simpl; [apply rtc_refl|].
  destruct (stepHost i s) as [s'|] eqn:Hs; [|apply IH].
  eapply rtc_l; [by exists i|apply IH].
Qed.





(** The same interleaving, run: volume v1 is mounted by one of the two
    hosts, volume v2 stays in Error and nobody starts a server for it. *)
Example exampleCluster_run :
  let s := runSchedule [0; 1; 0; 1; 1; 0; 0; 1; 0; 1; 1; 0; 0; 1]%nat exampleCluster in
  kv (world s) !! "SVOLS_stat_v1" = Some "Mounted"
  ∧ kv (world s) !! "SVOLS_stat_v2" = Some "Error"
  ∧ en_op <$> sideEffects (trace (world s)) = [startSMBServer "v1"].
Proof. vm_compute. done. Qed.

(** ** One winner per boundary event *)

Lemma sideEffects_snoc (t : list Entry) (en : Entry) :
  sideEffects (t ++ [en]) = sideEffects t ++ (if isSMB (en_op en) then [en] else []).
Proof.
  unfold sideEffects. rewrite filter_app, filter_cons, filter_nil.
  by destruct (isSMB (en_op en)).
Qed.

Lemma wonClaims_snoc (S from : string) (t : list Entry) (en : Entry) :
  wonClaims S from (t ++ [en])
  = wonClaims S from t
    ++ (if bool_decide (view en = CAS S from volStateIntermediate true) then [en] else []).
Proof.
  unfold wonClaims. rewrite filter_app, filter_cons, filter_nil.
  destruct (decide (view en = _)) as [E|E].
  - by rewrite bool_decide_eq_true_2.
  - by rewrite bool_decide_eq_false_2.
Qed.

Lemma madeBy_app (i : nat) (t u : list Entry) :
  madeBy i (t ++ u) = madeBy i t ++ madeBy i u.
Proof. unfold madeBy. apply filter_app. Qed.

Lemma sum_winning_insert (l : list Host) (i : nat) (h h' : Host) :
  l !! i = Some h →
  (sum_list_with winning (<[i:=h']> l) + winning h
   = sum_list_with winning l + winning h')%nat.
Proof.
  revert i. induction l as [|x l IH]; intros i Hi; [done|].
  destruct i as [|i]; simpl in *.
  - injection Hi as ->. lia.
  - specialize (IH i Hi). lia.
Qed.

Section Calls.
Variables (S from : string) (effect : Op).
Hypothesis from_ne : from ≠ volStateIntermediate.
Hypothesis effect_smb : isSMB effect = true.

Lemma Fresh_not_winning (p : Prog unit) : Fresh S from effect p → nextIsSMB p = false.
Proof. destruct p as [| |op k]; try done. by intros [[c ->] _]. Qed.

Lemma Tail_not_winning (p : Prog unit) : Tail S from p → nextIsSMB p = false.
Proof. destruct p as [| |op k]; try done. by intros [(c & n & -> & _) _]. Qed.

Lemma Won_winning (p : Prog unit) : Won S from effect p → nextIsSMB p = true.
Proof. destruct p as [| |op k]; try done. by intros [? _]. Qed.

(** One call of a handler run, whatever its phase. *)
Lemma call_step (i : nat) (op : Op) (k : Res op → Prog unit) (w : World) :
  Fresh S from effect (Vis op k) ∨ Won S from effect (Vis op k)
    ∨ Tail S from (Vis op k) →
  List.length (wonClaims S from (trace w)) = 0%nat
    ∨ (List.length (wonClaims S from (trace w)) = 1%nat ∧ kv w !! S ≠ Some from) →
  let r := (perform i op w).1 in
  let w' := (perform i op w).2 in
  let en := mkEntry i op r in
  (Won S from effect (k r) ∨ Tail S from (k r))
  ∧ (effectDelta op + (if nextIsSMB (k r) then 1 else 0)
     = (if isSMB op then 1 else 0) + claimDelta S from en)%nat
  ∧ ((List.length (wonClaims S from (trace w)) + claimDelta S from en = 0)%nat
     ∨ ((List.length (wonClaims S from (trace w)) + claimDelta S from en = 1)%nat
        ∧ kv w' !! S ≠ Some from))
  ∧ (isSMB op = true → op = effect)
  ∧ (kv w !! S = Some from → nextFault w = None → Fresh S from effect (Vis op k) →
     claimDelta S from en = 1%nat).
Proof using from_ne effect_smb.
  intros Hphase Hclaim. cbv zeta. unfold claimDelta, effectDelta.
  destruct Hphase as [[[c ->] Hk]|[(Hsmb & -> & Hk)|[(c & n & -> & Hn) Hk]]].
  - (* the claim *)
    destruct (perform_cas i c S from volStateIntermediate ctxTODO w) as (Hs & Hkv & _).
    fold (casOp c S from volStateIntermediate) in Hs, Hkv.
    specialize (Hk (perform i (casOp c S from volStateIntermediate) w).1).
    change (claimed (casOp c S from volStateIntermediate) ?r) with (swapped r) in Hk.
    rewrite view_casOp.
    destruct (perform i (casOp c S from volStateIntermediate) w) as [r w'].
    cbn [fst snd] in Hs, Hkv, Hk |- *.
    destruct (swapped r) eqn:Es.
    + rewrite (Won_winning _ Hk). rewrite bool_decide_eq_true_2 by done.
      symmetry in Hs. apply bool_decide_eq_true in Hs as [_ Hfrom].
      destruct Hclaim as [Hc|[_ Hc]]; [|done].
      rewrite Hc, Hkv, lookup_insert_eq. simpl.
      repeat split; auto; try done. right. split; [done|]. by intros [= <-].
    + rewrite Hk. rewrite bool_decide_eq_false_2 by (by intros [=]). simpl.
      rewrite !Nat.add_0_r, Hkv. repeat split; auto; try done.
      intros Hfrom Hnf _. symmetry in Hs. apply bool_decide_eq_false in Hs.
      by destruct Hs.
  - (* the SMB call *)
    specialize (Hk (perform i effect w).1).
    assert (kv (perform i effect w).2 = kv w) as Hkv.
    { clear Hk. destruct effect; try done;
        unfold perform; simpl; by destruct (pop true (smb w)). }
    assert (view (mkEntry i effect (perform i effect w).1)
            ≠ CAS S from volStateIntermediate true) as Hv.
    { clear Hk Hkv. unfold view. simpl. generalize (perform i effect w).1.
      destruct effect; try done. }
    rewrite bool_decide_eq_false_2 by done.
    destruct (perform i effect w) as [r w']. cbn [fst snd] in Hk, Hkv, Hv |- *.
    rewrite (Tail_not_winning _ Hk), Hsmb.
    rewrite !Nat.add_0_r, Hkv.
    repeat split; auto; try done.
    intros _ _ [[c E] _]. by rewrite E in Hsmb.
  - (* a swap after the claim *)
    destruct (perform_cas i c S volStateIntermediate n ctxTODO w) as (Hs & Hkv & _).
    fold (casOp c S volStateIntermediate n) in Hs, Hkv.
    specialize (Hk (perform i (casOp c S volStateIntermediate n) w).1).
    rewrite view_casOp.
    destruct (perform i (casOp c S volStateIntermediate n) w) as [r w'].
    cbn [fst snd] in Hs, Hkv, Hk |- *.
    rewrite (Tail_not_winning _ Hk).
    rewrite bool_decide_eq_false_2 by (intros [= E]; by destruct from_ne).
    simpl. rewrite !Nat.add_0_r. repeat split; auto; try done.
    + destruct Hclaim as [Hc|[Hc Hf]]; [by left|right]. split; [done|].
      rewrite Hkv. destruct (swapped r); [|done].
      rewrite lookup_insert_eq. by intros [= ->].
    + by intros _ _ [[c' [= E]] _].
Qed.
End Calls.

Lemma length_if_singleton {A} (b : bool) (x : A) :
  List.length (if b then [x] else []) = if b then 1%nat else 0%nat.
Proof. by destruct b. Qed.

Lemma madeBy_if_same (i : nat) (b : bool) (op : Op) (r : Res op) :
  madeBy i (if b then [mkEntry i op r] else []) = if b then [mkEntry i op r] else [].
Proof.
  destruct b; [|done]. unfold madeBy. rewrite filter_cons, filter_nil.
  simpl. by rewrite decide_True.
Qed.

Lemma madeBy_if_other (i j : nat) (b : bool) (op : Op) (r : Res op) :
  i ≠ j → madeBy j (if b then [mkEntry i op r] else []) = [].
Proof.
  intros Hne. destruct b; [|done]. unfold madeBy. rewrite filter_cons, filter_nil.
  simpl. by rewrite decide_False.
Qed.

Lemma sum_list_with_zero {A} (f : A → nat) (l : list A) :
  (∀ x, x ∈ l → f x = 0%nat) → sum_list_with f l = 0%nat.
Proof.
  induction l as [|x l IH]; intros H; [done|]. simpl.
  rewrite (H x) by by left. rewrite IH; [done|]. intros y ?. apply H. by right.
Qed.

Lemma step_hosts_length (s s' : Cluster) :
  step s s' → List.length (hosts s') = List.length (hosts s).
Proof.
  intros [i Hs].
  apply stepHost_cases in Hs as (h & Hh & [(op & k & Hp & ->)|(a & ev & rest & Hp & Hq & ->)]);
    simpl; apply length_insert.
Qed.

Lemma reaches_hosts_length (s s' : Cluster) :
  reaches s s' → List.length (hosts s') = List.length (hosts s).
Proof.
  intros Hr. induction Hr as [|x y z Hxy Hyz IH]; [done|].
  rewrite IH. by apply step_hosts_length.
Qed.

Lemma quiescent_not_winning (s : Cluster) :
  quiescent s → sum_list_with winning (hosts s) = 0%nat.
Proof.
  intros Hq. apply sum_list_with_zero. intros h [i Hi]%list_elem_of_lookup.
  specialize (Hq i). unfold stepHost in Hq. rewrite Hi in Hq.
  unfold winning. by destruct (h_prog h).
Qed.

Section Race.
Variables (S from : string) (effect : Op) (ev : Event).
Hypothesis from_ne : from ≠ volStateIntermediate.
Hypothesis effect_smb : isSMB effect = true.
Hypothesis start : ∀ e,
  Fresh S from effect (etcdEventHandler e ev) ∨ Tail S from (etcdEventHandler e ev).
Hypothesis start_client : ∀ e,
  client e ≠ None → Fresh S from effect (etcdEventHandler e ev).

Lemma start_not_winning (e : etcdInfo) : nextIsSMB (etcdEventHandler e ev) = false.
Proof using start.
  destruct (start e); [by eapply Fresh_not_winning|by eapply Tail_not_winning].
Qed.

Lemma Inv_delivered (w : World) (es : list etcdInfo) :
  trace w = [] → Inv S from effect ev (delivered ev w es).
Proof.
  intros Ht. constructor; simpl; try rewrite Ht; simpl.
  - intros i h Hi. rewrite list_lookup_fmap in Hi.
    destruct (es !! i); [|done]. injection Hi as <-. by left.
  - intros i h Hi. rewrite list_lookup_fmap in Hi.
    destruct (es !! i); [|done]. by injection Hi as <-.
  - apply sum_list_with_zero. intros h Hh.
    apply list_elem_of_fmap in Hh as (e & -> & _). done.
  - by left.
  - constructor.
Qed.

Lemma Inv_step (s s' : Cluster) :
  Inv S from effect ev s → step s s' → Inv S from effect ev s'.
Proof using from_ne effect_smb start.
  intros HI [i Hs].
  apply stepHost_cases in Hs
    as (h & Hh & [(op & k & Hp & ->)|(a & ev' & rest & Hp & Hq & ->)]).
  - (* a call *)
    destruct (inv_phase _ _ _ _ _ HI i h Hh) as [[_ Hret]|[Hq Hph]];
      [by rewrite Hp in Hret|].
    rewrite Hp in Hph.
    destruct (call_step S from effect from_ne effect_smb i op k (world s) Hph
                (inv_claim _ _ _ _ _ HI)) as (Hnext & Hbal & Hcl & Heff & _).
    pose proof (perform_trace i op (world s)) as Ht.
    pose proof (inv_host _ _ _ _ _ HI i h Hh) as Hhost.
    pose proof (inv_total _ _ _ _ _ HI) as Htot.
    pose proof (sum_winning_insert (hosts s) i h
                  (mkHost (h_etcd h) (h_queue h) (k (perform i op (world s)).1)) Hh)
      as Hsum.
    unfold winning in Hhost, Hsum. rewrite Hp in Hhost, Hsum.
    cbn [h_prog nextIsSMB] in Hhost, Hsum.
    unfold effectDelta, claimDelta in Hbal, Hcl.
    constructor; cbn [world hosts].
    + intros j hj Hj. apply lookup_insert_host in Hj as [[<- ->]|[_ Hj]].
      * right. split; [done|]. simpl. destruct Hnext; auto.
      * by eapply inv_phase.
    + intros j hj Hj. rewrite Ht, sideEffects_snoc, wonClaims_snoc, !madeBy_app.
      rewrite !length_app. cbn [en_op].
      apply lookup_insert_host in Hj as [[<- ->]|[Hne Hj]].
      * rewrite !madeBy_if_same, !length_if_singleton.
        unfold winning. cbn [h_prog]. lia.
      * rewrite !madeBy_if_other by done. simpl.
        pose proof (inv_host _ _ _ _ _ HI j hj Hj). lia.
    + rewrite Ht, sideEffects_snoc, wonClaims_snoc, !length_app.
      cbn [en_op]. rewrite !length_if_singleton.
      unfold winning in *. cbn [h_prog] in Hsum. lia.
    + rewrite Ht, wonClaims_snoc, length_app, length_if_singleton. exact Hcl.
    + rewrite Ht, sideEffects_snoc. apply Forall_app. split.
      * by eapply inv_effect.
      * cbn [en_op]. destruct (isSMB op); [|constructor].
        constructor; [|constructor]. by apply Heff.
  - (* the next event *)
    destruct (inv_phase _ _ _ _ _ HI i h Hh) as [[Hq' _]|[Hq' _]];
      rewrite Hq in Hq'; [|done]. injection Hq' as -> ->.
    pose proof (inv_host _ _ _ _ _ HI i h Hh) as Hhost.
    pose proof (sum_winning_insert (hosts s) i h
                  (mkHost (h_etcd h) [] (etcdEventHandler (h_etcd h) ev)) Hh) as Hsum.
    unfold winning in Hhost, Hsum. rewrite Hp in Hhost, Hsum.
    cbn [h_prog nextIsSMB] in Hhost, Hsum. rewrite start_not_winning in Hsum.
    constructor; cbn [world hosts].
    + intros j hj Hj. apply lookup_insert_host in Hj as [[<- ->]|[_ Hj]].
      * right. split; [done|]. simpl. destruct (start (h_etcd h)); auto.
      * by eapply inv_phase.
    + intros j hj Hj. apply lookup_insert_host in Hj as [[<- ->]|[Hne Hj]].
      * unfold winning. cbn [h_prog]. rewrite start_not_winning. lia.
      * by eapply inv_host.
    + pose proof (inv_total _ _ _ _ _ HI). unfold winning in *. lia.
    + by eapply inv_claim.
    + by eapply inv_effect.
Qed.

Lemma Inv_reaches (s s' : Cluster) :
  Inv S from effect ev s → reaches s s' → Inv S from effect ev s'.
Proof using from_ne effect_smb start.
  intros HI Hr. induction Hr; eauto using Inv_step.
Qed.
End Race.

Section Liveness.
Variables (S from : string) (effect : Op) (ev : Event).
Hypothesis from_ne : from ≠ volStateIntermediate.
Hypothesis effect_smb : isSMB effect = true.
Hypothesis start : ∀ e,
  Fresh S from effect (etcdEventHandler e ev) ∨ Tail S from (etcdEventHandler e ev).
Hypothesis start_client : ∀ e,
  client e ≠ None → Fresh S from effect (etcdEventHandler e ev).

Lemma Unclaimed_delivered (w : World) (es : list etcdInfo) :
  kv w !! S = Some from → faults w = [] → Forall (λ e, client e ≠ None) es →
  Unclaimed S from effect ev (delivered ev w es).
Proof.
  intros Hk Hf Hc. split; [done|]. split; [done|].
  intros i h Hi. simpl in Hi. rewrite list_lookup_fmap in Hi.
  destruct (es !! i) as [e|] eqn:He; [|done]. injection Hi as <-. simpl.
  split; [|by left]. rewrite Forall_forall in Hc. apply Hc.
  apply list_elem_of_lookup. by exists i.
Qed.

Lemma live_step (s s' : Cluster) :
  Inv S from effect ev s →
  List.length (wonClaims S from (trace (world s))) = 1%nat
    ∨ Unclaimed S from effect ev s →
  step s s' →
  List.length (wonClaims S from (trace (world s'))) = 1%nat
    ∨ Unclaimed S from effect ev s'.
Proof using from_ne effect_smb start_client.
  intros HI Hlive [i Hs].
  apply stepHost_cases in Hs
    as (h & Hh & [(op & k & Hp & ->)|(a & ev' & rest & Hp & Hq & ->)]).
  - left. cbn [world].
    destruct (inv_phase _ _ _ _ _ HI i h Hh) as [[_ Hret]|[Hq Hph]];
      [by rewrite Hp in Hret|].
    rewrite Hp in Hph.
    destruct (call_step S from effect from_ne effect_smb i op k (world s) Hph
                (inv_claim _ _ _ _ _ HI)) as (_ & _ & Hcl & _ & Hwin).
    rewrite perform_trace, wonClaims_snoc, length_app, length_if_singleton.
    unfold claimDelta in Hcl, Hwin.
    destruct Hlive as [H1|(Hk & Hf & Hall)].
    + destruct Hcl as [Hcl|[Hcl _]]; [lia|done].
    + destruct (Hall i h Hh) as [_ [[_ Hret]|[_ Hfresh]]]; [by rewrite Hp in Hret|].
      rewrite Hp in Hfresh.
      assert (nextFault (world s) = None) as Hnf by (unfold nextFault; by rewrite Hf).
      specialize (Hwin Hk Hnf Hfresh).
      destruct Hcl as [Hcl|[Hcl _]]; [lia|done].
  - destruct Hlive as [H1|(Hk & Hf & Hall)]; [by left|right].
    split; [done|]. split; [done|]. cbn [hosts].
    intros j hj Hj. apply lookup_insert_host in Hj as [[<- ->]|[_ Hj]]; [|by eapply Hall].
    destruct (Hall i h Hh) as [Hc [[Hq' _]|[Hq' _]]]; rewrite Hq in Hq'; [|done].
    injection Hq' as -> ->. simpl. split; [done|]. right. split; [done|].
    by apply start_client.
Qed.

Lemma live_reaches (s s' : Cluster) :
  Inv S from effect ev s →
  List.length (wonClaims S from (trace (world s))) = 1%nat
    ∨ Unclaimed S from effect ev s →
  reaches s s' →
  List.length (wonClaims S from (trace (world s'))) = 1%nat
    ∨ Unclaimed S from effect ev s'.
Proof using from_ne effect_smb start start_client.
  intros HI Hlive Hr. induction Hr as [|x y z Hxy Hyz IH]; [done|].
  apply IH; [by eapply Inv_step|by eapply live_step].
Qed.

Lemma Unclaimed_not_quiescent (s : Cluster) :
  hosts s ≠ [] → Unclaimed S from effect ev s → ¬ quiescent s.
Proof.
  intros Hne (_ & _ & Hall) Hq.
  destruct (hosts s) as [|h l] eqn:Hh; [done|].
  specialize (Hq 0%nat). unfold stepHost in Hq. rewrite Hh in Hq. simpl in Hq.
  destruct (Hall 0%nat h) as [_ [[Hqu Hp]|[_ Hf]]]; [done| |].
  - by rewrite Hp, Hqu in Hq.
  - by destruct (h_prog h).
Qed.
End Liveness.

(** *** The handler enters the race *)

Lemma CompareAndPut_Tail (e : etcdInfo) (S from n : string) (f : bool → Prog unit) :
  n ≠ from → (∀ b, Tail S from (f b)) →
  Tail S from (bind (CompareAndPut e S volStateIntermediate n) f).
Proof.
  intros Hn Hf. unfold CompareAndPut, deref. destruct (client e) as [c|]; [|done].
  norm. simpl. split; [by exists c, n|]. intros [t|err]; simpl; apply Hf.
Qed.

Lemma handler_start (e : etcdInfo) (ev : Event) (V from : string) (effect : Op) :
  transition ev V from effect →
  (client e ≠ None →
     Fresh (etcdPrefixState +:+ V) from effect (etcdEventHandler e ev))
  ∧ (Fresh (etcdPrefixState +:+ V) from effect (etcdEventHandler e ev)
     ∨ Tail (etcdPrefixState +:+ V) from (etcdEventHandler e ev)).
Proof.
  intros Htr.
  assert (client e = None →
          Tail (etcdPrefixState +:+ V) from (etcdEventHandler e ev)) as Hnone.
  { intros Hc.
    destruct Htr as [[(HT & (kvp & HK & Hkey & Hval) & (prev & HP & Hprev)) _]
                    |[(HT & (kvp & HK & Hkey & Hval) & (prev & HP & Hprev)) _]];
      unfold etcdEventHandler, prevIs, CompareAndPut;
      rewrite HT, HK, HP, Hval, Hprev, Hc; by simpl. }
  assert (client e ≠ None →
          Fresh (etcdPrefixState +:+ V) from effect (etcdEventHandler e ev)) as Hsome.
  { intros Hc. destruct (client e) as [c|] eqn:Ec; [clear Hc|done].
    destruct Htr as [[(HT & (kvp & HK & Hkey & Hval) & (prev & HP & Hprev)) [-> ->]]
                    |[(HT & (kvp & HK & Hkey & Hval) & (prev & HP & Hprev)) [-> ->]]];
      unfold etcdEventHandler, prevIs;
      rewrite HT, HK, HP, Hval, Hprev, Hkey, TrimPrefix_app.
    - rewrite !bool_decide_eq_true_2 by done. cbn [andb]. norm.
      unfold CompareAndPut at 1. rewrite Ec. cbn [deref]. norm. simpl.
      split; [by exists c|]. intros [[[] rs]|err]; simpl; try done.
      split; [done|]. split; [done|]. intros []; simpl.
      + apply CompareAndPut_Tail; [done|]. intros []; simpl; [done|].
        apply CompareAndPut_Tail; done.
      + apply CompareAndPut_Tail; done.
    - rewrite (bool_decide_eq_false_2 (etcdNoRef = etcdSingleRef)) by (by intros [=]).
      cbn [andb]. rewrite !bool_decide_eq_true_2 by done. cbn [andb]. norm.
      unfold CompareAndPut at 1. rewrite Ec. cbn [deref]. norm. simpl.
      split; [by exists c|]. intros [[[] rs]|err]; simpl; try done.
      split; [done|]. split; [done|]. intros []; simpl.
      + apply CompareAndPut_Tail; [done|]. intros []; simpl; [done|].
        apply CompareAndPut_Tail; done.
      + apply CompareAndPut_Tail; done. }
  split; [done|]. destruct (client e) eqn:Ec; [left; by apply Hsome|right; by apply Hnone].
Qed.

Lemma transition_from (ev : Event) (V from : string) (effect : Op) :
  transition ev V from effect → from ≠ volStateIntermediate ∧ isSMB effect = true.
Proof. by intros [(_ & -> & ->)|(_ & -> & ->)]. Qed.

(** C4, amended: when the watchers of any number of hosts handle one
    boundary event of [GREF:V], in any interleaving and whatever the
    store and the SMB controller answer, at most one SMB call is made,
    it is the start (stop) of [V], at most one claim is won, and a host
    makes the call only after it has won the claim; when [STATE:V] is
    Ready (Mounted) as the event is delivered, every host holds a store
    client and no store request fails, exactly one SMB call has been
    made once all hosts are done. *)
Theorem single_winner (ev : Event) (V from : string) (effect : Op)
    (w : World) (es : list etcdInfo) (s : Cluster) :
  transition ev V from effect →
  trace w = [] →
  reaches (delivered ev w es) s →
  let S := etcdPrefixState +:+ V in
  let t := trace (world s) in
  (List.length (sideEffects t) ≤ 1)%nat
  ∧ Forall (λ en, en_op en = effect) (sideEffects t)
  ∧ (List.length (wonClaims S from t) ≤ 1)%nat
  ∧ (∀ i, (i < List.length es)%nat →
       (List.length (madeBy i (sideEffects t))
        ≤ List.length (madeBy i (wonClaims S from t)))%nat)
  ∧ (kv w !! S = Some from → faults w = [] → es ≠ [] →
     Forall (λ e, client e ≠ None) es → quiescent s →
     List.length (sideEffects t) = 1%nat).
Proof.
  intros Htr Ht Hr. cbv zeta.
  destruct (transition_from _ _ _ _ Htr) as [Hne Hsmb].
  assert (Inv (etcdPrefixState +:+ V) from effect ev s) as HI.
  { eapply Inv_reaches; [done|done| |by apply Inv_delivered|done].
    intros e. by apply handler_start. }
  pose proof (inv_total _ _ _ _ _ HI) as Htot.
  pose proof (inv_claim _ _ _ _ _ HI) as Hcl.
  pose proof (reaches_hosts_length _ _ Hr) as Hlen.
  simpl in Hlen. rewrite length_fmap in Hlen.
  split; [|split; [|split; [|split]]].
  - destruct Hcl as [Hc|[Hc _]]; lia.
  - by eapply inv_effect.
  - destruct Hcl as [Hc|[Hc _]]; lia.
  - intros i Hi.
    destruct (lookup_lt_is_Some_2 (hosts s) i) as [h Hh]; [lia|].
    pose proof (inv_host _ _ _ _ _ HI i h Hh). lia.
  - intros Hk Hf Hes Hc Hq.
    assert (List.length (wonClaims (etcdPrefixState +:+ V) from (trace (world s))) = 1%nat
            ∨ Unclaimed (etcdPrefixState +:+ V) from effect ev s) as [H1|Hu].
    { eapply live_reaches; [done|done| | |by apply Inv_delivered| |done].
      - intros e. by apply handler_start.
      - intros e. by apply handler_start.
      - right. by apply Unclaimed_delivered. }
    + rewrite quiescent_not_winning in Htot by done. lia.
    + exfalso. eapply Unclaimed_not_quiescent; [|done|done].
      intros E. rewrite E in Hlen. by destruct es.
Qed.

Lemma exampleRace_quiescent_ready :
  quiescent (runSchedule [0; 1; 0; 1; 0; 1; 0; 1]%nat
               (delivered (examplePut "SVOLS_gref_v1" "0" "1")
                  (exampleWorld [("SVOLS_stat_v1", "Ready")]) [exampleEtcd; exampleEtcd])).
Proof. intros [|[|i]]; vm_compute; reflexivity. Qed.

Lemma exampleRace_quiescent_error :
  quiescent (runSchedule [0; 1; 0; 1; 0; 1; 0; 1]%nat
               (delivered (examplePut "SVOLS_gref_v1" "0" "1")
                  (exampleWorld [("SVOLS_stat_v1", "Error")]) [exampleEtcd; exampleEtcd])).
Proof. intros [|[|i]]; vm_compute; reflexivity. Qed.

Lemma single_winner_witness :
  List.length (sideEffects (trace (world
    (runSchedule [0; 1; 0; 1; 0; 1; 0; 1]%nat
       (delivered (examplePut "SVOLS_gref_v1" "0" "1")
          (exampleWorld [("SVOLS_stat_v1", "Ready")]) [exampleEtcd; exampleEtcd]))))) = 1%nat.
Proof.
  apply (single_winner (examplePut "SVOLS_gref_v1" "0" "1") "v1" volStateReady
           (startSMBServer "v1") (exampleWorld [("SVOLS_stat_v1", "Ready")])
           [exampleEtcd; exampleEtcd]).
  - left. split; [|split; reflexivity]. split; [reflexivity|]. split.
    + exists (mkKeyValue "SVOLS_gref_v1" "1"). repeat split; reflexivity.
    + exists (mkKeyValue "SVOLS_gref_v1" "0"). split; reflexivity.
  - reflexivity.
  - apply reaches_runSchedule.
  - reflexivity.
  - reflexivity.
  - discriminate.
  - repeat constructor; discriminate.
  - apply exampleRace_quiescent_ready.
Defined.

(** C4 as worded fails: with [STATE:v1] parked in Error, two hosts
    handle the "0" to "1" event of v1 and neither starts a server. *)
Lemma exactlyOnce_fails :
  ¬ exactlyOnce (examplePut "SVOLS_gref_v1" "0" "1")
      (exampleWorld [("SVOLS_stat_v1", "Error")]) [exampleEtcd; exampleEtcd].
Proof.
  intros H.
  specialize (H _ (reaches_runSchedule [0; 1; 0; 1; 0; 1; 0; 1]%nat _)
                exampleRace_quiescent_error).
  vm_compute in H. discriminate.
Qed.

(** With a second event in flight the picture changes: host 0 handles
    "0" to "1" and then "1" to "0" before host 1 gets to its copy of the
    first event; host 1 then finds Ready again, wins the claim and
    starts the server a second time for the same event. *)
Example stale_event_second_start :
  let ev01 := examplePut "SVOLS_gref_v1" "0" "1" in
  let ev10 := examplePut "SVOLS_gref_v1" "1" "0" in
  let s := runSchedule [0; 0; 0; 0; 0; 0; 0; 0; 1; 1; 1; 1]%nat
             (mkCluster (exampleWorld [("SVOLS_stat_v1", "Ready")])
                [mkHost exampleEtcd [ev01; ev10] (Ret tt);
                 mkHost exampleEtcd [ev01; ev10] (Ret tt)]) in
  (λ en, (en_host en, en_op en)) <$> sideEffects (trace (world s))
  = [(0%nat, startSMBServer "v1"); (0%nat, stopSMBServer "v1");
     (1%nat, startSMBServer "v1")].
Proof. vm_compute. reflexivity. Qed.

Example two_hosts_race :
  let s := runSchedule [0; 1; 1; 0; 0; 1; 0; 1]%nat
             (delivered (examplePut "SVOLS_gref_v1" "0" "1")
                (exampleWorld [("SVOLS_stat_v1", "Ready")]) [exampleEtcd; exampleEtcd]) in
  (λ en, (en_host en, view en)) <$> trace (world s)
  = [(1%nat, CAS "SVOLS_stat_v1" "Ready" "Intermediate" true);
     (0%nat, CAS "SVOLS_stat_v1" "Ready" "Intermediate" false);
     (1%nat, SMBStart "v1" true);
     (1%nat, CAS "SVOLS_stat_v1" "Intermediate" "Mounted" true)].
Proof. vm_compute. reflexivity. Qed.

(** ** Clients of the metadata API *)

Lemma run_trace_grows {A} (h : nat) (p : Prog A) (w : World) :
  ∃ calls, trace (run h p w).2 = trace w ++ calls.
Proof.
  revert w. induction p as [a|m|op k IH]; intros w.
  - exists []. by rewrite app_nil_r.
  - exists []. by rewrite app_nil_r.
  - rewrite run_Vis.
    destruct (IH (perform h op w).1 (perform h op w).2) as [calls Hc].
    eexists. rewrite Hc, perform_trace, <- app_assoc. reflexivity.
Qed.

Lemma run_defer_close {A} (h : nat) (c : Client) (body : Prog A) (w : World) :
  ∃ mid, trace (run h (defer (closeClient (Some c)) body) w).2
         = trace w ++ mid ++ [mkEntry h (etcdClose c) tt].
Proof.
  rewrite run_defer. destruct (run_trace_grows h body w) as [mid Hm].
  exists mid. destruct (run h body w) as [[a|m] w']; simpl in *;
    by rewrite Hm, <- app_assoc.
Qed.

(** The client [createEtcdClient] hands out is new: its number has not
    been given to any client before. *)
Lemma firstManagerClient_fresh (h : nat) (managers : list Peer) (w w1 : World) (c : Client) :
  run h (firstManagerClient managers) w = (Returned (Some c), w1) →
  c_id c = nextClient w.
Proof.
  revert w. induction managers as [|m ms IH]; intros w; [done|].
  cbn [firstManagerClient]. unfold addrToEtcdClient. norm. rewrite run_Vis.
  unfold perform. simpl.
  destruct (pop None (dials w)) as [[err|] ds]; simpl.
  - intros H. by apply IH in H.
  - by intros [= <- _].
Qed.

Lemma createEtcdClient_fresh (h : nat) (w w1 : World) (c : Client) :
  run h createEtcdClient w = (Returned (Some c), w1) → c_id c = nextClient w.
Proof.
  unfold createEtcdClient. norm. rewrite run_Vis. unfold perform. simpl.
  destruct (d_info w) as [info|err]; [|done].
  intros H. by apply firstManagerClient_fresh in H.
Qed.

Section ClientDiscipline.
Variables (h : nat) (e : etcdInfo) (w w1 : World) (c : Client).
Hypothesis connected : run h createEtcdClient w = (Returned (Some c), w1).

Lemma WriteVolMetadata_closes (entries : list kvPair) :
  ∃ mid, trace (run h (WriteVolMetadata e entries) w).2
         = trace w1 ++ mid ++ [mkEntry h (etcdClose c) tt].
Proof using connected.
  unfold WriteVolMetadata. norm. rewrite run_bind, connected.
  apply run_defer_close.
Qed.

Lemma ReadVolMetadata_closes (keys : list string) :
  ∃ mid, trace (run h (ReadVolMetadata e keys) w).2
         = trace w1 ++ mid ++ [mkEntry h (etcdClose c) tt].
Proof using connected.
  unfold ReadVolMetadata. norm. rewrite run_bind, connected.
  apply run_defer_close.
Qed.

Lemma DeleteVolMetadata_closes (name : string) :
  ∃ mid, trace (run h (DeleteVolMetadata e name) w).2
         = trace w1 ++ mid ++ [mkEntry h (etcdClose c) tt].
Proof using connected.
  unfold DeleteVolMetadata. norm. rewrite run_bind, connected.
  apply run_defer_close.
Qed.

Lemma ListVolumeName_timeout :
  ∃ calls, trace (run h (ListVolumeName e) w).2 = trace w1 ++ calls
    ∧ storeRequests calls
      = [etcdGet c (ctxWithTimeout requestTimeout) etcdPrefixState
           [WithPrefix; WithSortByKeyDescend]].
Proof using connected.
  unfold ListVolumeName. norm. rewrite run_bind, connected. rewrite run_Vis.
  pose proof (perform_trace h (etcdGet c (ctxWithTimeout requestTimeout)
                etcdPrefixState [WithPrefix; WithSortByKeyDescend]) w1) as Ht.
  destruct (perform h _ w1) as [[kvs|err] w2]; simpl in *; eexists; by split.
Qed.
End ClientDiscipline.

Lemma CompareAndPut_cached (h : nat) (e : etcdInfo) (c : Client) (k o n : string) (w : World) :
  client e = Some c →
  ∃ ctx r, trace (run h (CompareAndPut e k o n) w).2
           = trace w ++ [mkEntry h (etcdTxn c ctx [CompareValueEq k o] [OpPut k n]) r].
Proof.
  intros Hc. rewrite (run_CompareAndPut h e c Hc). cbn [snd].
  exists ctxTODO. eexists. apply perform_trace.
Qed.

(** C9, amended: [WriteVolMetadata], [ReadVolMetadata] and
    [DeleteVolMetadata] begin by creating a store client that is new to
    the call and end, on every path, by closing it; [ListVolumeName]
    begins in the same way and sends its one store request, the range
    read, under the 5 second request timeout; [CompareAndPut] creates no
    client: its one call is a transaction on the client cached at
    bootstrap. *)
Theorem metadata_clients (h : nat) (e : etcdInfo) :
  (∀ w w1 c, run h createEtcdClient w = (Returned (Some c), w1) →
     c_id c = nextClient w
     ∧ (∀ entries, ∃ mid, trace (run h (WriteVolMetadata e entries) w).2
                          = trace w1 ++ mid ++ [mkEntry h (etcdClose c) tt])
     ∧ (∀ keys, ∃ mid, trace (run h (ReadVolMetadata e keys) w).2
                       = trace w1 ++ mid ++ [mkEntry h (etcdClose c) tt])
     ∧ (∀ name, ∃ mid, trace (run h (DeleteVolMetadata e name) w).2
                       = trace w1 ++ mid ++ [mkEntry h (etcdClose c) tt])
     ∧ (∃ calls, trace (run h (ListVolumeName e) w).2 = trace w1 ++ calls
          ∧ storeRequests calls
            = [etcdGet c (ctxWithTimeout requestTimeout) etcdPrefixState
                 [WithPrefix; WithSortByKeyDescend]]))
  ∧ (∀ w c k o n, client e = Some c →
       ∃ ctx r, trace (run h (CompareAndPut e k o n) w).2
                = trace w ++ [mkEntry h (etcdTxn c ctx [CompareValueEq k o] [OpPut k n]) r]).
Proof.
  split.
  - intros w w1 c Hc. split; [by eapply createEtcdClient_fresh|].
    split; [intros; by eapply WriteVolMetadata_closes|].
    split; [intros; by eapply ReadVolMetadata_closes|].
    split; [intros; by eapply DeleteVolMetadata_closes|].
    by eapply ListVolumeName_timeout.
  - intros w c k o n Hc. by apply CompareAndPut_cached.
Qed.

Lemma metadata_clients_witness :
  let w := exampleWorld [("SVOLS_stat_v1", "Ready")] in
  (∃ mid, trace (run 0 (DeleteVolMetadata exampleEtcd "v1") w).2
          = trace (run 0 createEtcdClient w).2 ++ mid
            ++ [mkEntry 0 (etcdClose (mkClient 1 ["10.0.0.9:2379"])) tt])
  ∧ ∃ ctx r, trace (run 0 (CompareAndPut exampleEtcd "SVOLS_stat_v1" "Ready" "Mounted") w).2
             = trace w ++ [mkEntry 0 (etcdTxn exampleClient ctx
                                        [CompareValueEq "SVOLS_stat_v1" "Ready"]
                                        [OpPut "SVOLS_stat_v1" "Mounted"]) r].
Proof.
  intros w. destruct (metadata_clients 0 exampleEtcd) as [H1 H2]. split.
  - destruct (H1 w (run 0 createEtcdClient w).2 (mkClient 1 ["10.0.0.9:2379"]))
      as (_ & _ & _ & Hd & _); [vm_compute; reflexivity|].
    apply (Hd "v1").
  - apply (H2 w exampleClient). reflexivity.
Defined.

(** C9 as worded fails for [CompareAndPut]: in a healthy world it
    creates no client, closes none and sends its transaction without a
    timeout. *)
Lemma clientDiscipline_fails :
  ¬ clientDiscipline 0 (CompareAndPut exampleEtcd "SVOLS_stat_v1" "Ready" "Intermediate")
      (exampleWorld [("SVOLS_stat_v1", "Ready")]).
Proof.
  intros [(c & Hc & _) _]. vm_compute in Hc.
  apply list_elem_of_singleton in Hc. discriminate.
Qed.

(** ** Cluster bootstrap *)

Lemma append_cons (x : ascii) (a b : string) : String x a +:+ b = String x (a +:+ b).
Proof. reflexivity. Qed.





Lemma run_findSelf (h : nat) (c : Client) (peerAddr : string) (ms : list Member)
    (w : World) :
  Forall (λ m, PeerURLs m ≠ []) ms →
  run h (findSelf c peerAddr ms) w =
    match selfEntry peerAddr ms with
    | None => (Returned (inl false), w)
    | Some m =>
        if bool_decide (Name m = EmptyString) then (Returned (inl true), w)
        else
          let p := perform h (etcdMemberRemove c ctxBackground (ID m)) w in
          (Returned (match p.1.2 with Some err => inr err | None => inl false end), p.2)
    end.
Proof.
  induction ms as [|m ms IH]; intros Hu; [done|].
  apply Forall_cons in Hu as [Hm Hu]. cbn [findSelf selfEntry List.find].
  destruct (PeerURLs m) as [|u us] eqn:Eu; [done|]. cbn [head].
  destruct (decide (u = peerAddr)) as [->|Hne].
  - rewrite (bool_decide_eq_true_2 (peerAddr = peerAddr)) by done.
    rewrite (bool_decide_eq_true_2 (Some peerAddr = Some peerAddr)) by done.
    destruct (bool_decide (Name m = EmptyString)); [done|]. norm. rewrite run_Vis.
    cbv zeta. by destruct (perform h _ w) as [[? [err|]] w'].
  - rewrite (bool_decide_eq_false_2 (u = peerAddr)) by done.
    rewrite (bool_decide_eq_false_2 (Some u = Some peerAddr)) by congruence.
    by apply IH.
Qed.

Lemma perform_etcdNew_ok (h : nat) (endpoints : list string) (w : World) :
  (pop None (dials w)).1 = None →
  perform h (etcdNew endpoints) w
  = (inl (mkClient (nextClient w) endpoints),
     setTrace (trace w ++ [mkEntry h (etcdNew endpoints)
                             (inl (mkClient (nextClient w) endpoints))])
       (setDials (pop None (dials w)).2 (S (nextClient w)) w)).
Proof.
  unfold perform. simpl. destruct (pop None (dials w)) as [f ds]. simpl. by intros ->.
Qed.

Lemma perform_etcdNew_fail (h : nat) (endpoints : list string) (w : World) (err : error) :
  (pop None (dials w)).1 = Some err →
  perform h (etcdNew endpoints) w
  = (inr err,
     setTrace (trace w ++ [mkEntry h (etcdNew endpoints) (inr err)])
       (setDials (pop None (dials w)).2 (nextClient w) w)).
Proof.
  unfold perform. simpl. destruct (pop None (dials w)) as [f ds]. simpl. by intros ->.
Qed.







(** Re-join after data loss, run: the old entry is removed, the node is
    added, etcd is spawned into the existing cluster. *)
Example rejoin_after_data_loss :
  let r := run 0 (joinEtcdCluster followerEtcd "10.0.0.9:2377" 5) rejoinWorld in
  take 5 (en_op <$> trace r.2)
  = [etcdNew ["10.0.0.9:2379"];
     etcdMemberList (mkClient 0 ["10.0.0.9:2379"]) ctxBackground;
     etcdMemberRemove (mkClient 0 ["10.0.0.9:2379"]) ctxBackground 5;
     etcdMemberAdd (mkClient 0 ["10.0.0.9:2379"]) ctxBackground ["http://10.0.0.1:2380"];
     goEtcdService
       ["--name"; "n1";
        "--advertise-client-urls"; "http://10.0.0.1:2379";
        "--initial-advertise-peer-urls"; "http://10.0.0.1:2380";
        "--listen-client-urls"; "http://0.0.0.0:2379";
        "--listen-peer-urls"; "http://0.0.0.0:2380";
        "--initial-cluster-token"; "vsphere-shared-etcd-cluster";
        "--initial-cluster"; "n0=http://10.0.0.9:2380,n1=http://10.0.0.1:2380";
        "--initial-cluster-state"; "existing"]].
Proof. vm_compute. reflexivity. Qed.

Example join_stale_reservation :
  let w := followerWorld [leaderMember; mkMember 5 EmptyString ["http://10.0.0.1:2380"]] in
  let r := run 0 (joinEtcdCluster followerEtcd "10.0.0.9:2377" 5) w in
  (λ op, match op with goEtcdService _ => goEtcdService [] | _ => op end)
    <$> take 3 (en_op <$> trace r.2)
  = [etcdNew ["10.0.0.9:2379"];
     etcdMemberList (mkClient 0 ["10.0.0.9:2379"]) ctxBackground;
     goEtcdService []].
Proof. vm_compute. reflexivity. Qed.

(** *** [checkLocalEtcd] and [Init] *)

Lemma watcherStarted_app (t u : list Entry) :
  watcherStarted (t ++ u) = watcherStarted t || watcherStarted u.
Proof. unfold watcherStarted. apply existsb_app. Qed.

(** Polling either connects, caches the client and starts the watcher,
    or fails [ticks] times and reports the timeout with nothing cached
    and no watcher. *)
Lemma run_pollLocalEtcd (h : nat) (e : etcdInfo) (ticks : nat) (w : World) :
  let r := run h (pollLocalEtcd e ticks) w in
  ∃ calls, trace r.2 = trace w ++ calls ∧
    ((∃ cli, r.1 = Returned (withClient e cli, None)
        ∧ watcherStarted calls = true)
     ∨ (r.1 = Returned (e, Some timeoutReached)
        ∧ watcherStarted calls = false ∧ List.length calls = ticks)).
Proof.
  revert w. induction ticks as [|n IH]; intros w; cbv zeta.
  - exists []. rewrite app_nil_r. split; [done|]. by right.
  - cbn [pollLocalEtcd]. unfold addrToEtcdClient. norm. rewrite run_Vis.
    pose proof (perform_trace h (etcdNew [SplitColon0 (nodeAddr e) +:+ etcdClientPort]) w)
      as Ht.
    destruct (perform h _ w) as [[cli|err] w1]; cbn [fst snd bind] in *.
    + rewrite run_Vis. simpl. eexists. split.
      * rewrite Ht, <- app_assoc. reflexivity.
      * left. by exists cli.
    + destruct (IH w1) as (calls & Hc & Hres). eexists. split.
      * rewrite Hc, Ht, <- app_assoc. reflexivity.
      * destruct Hres as [(cli & Hr & Hw)|(Hr & Hw & Hl)].
        -- left. exists cli. split; [done|]. simpl. exact Hw.
        -- right. split; [done|]. split; [exact Hw|]. simpl. by rewrite Hl.
Qed.

Lemma run_checkLocalEtcd (h : nat) (e : etcdInfo) (ticks : nat) (w : World) :
  let r := run h (checkLocalEtcd e ticks) w in
  ∃ calls, trace r.2 = trace w ++ calls ∧
    ((∃ cli, r.1 = Returned (withClient e cli, None) ∧ watcherStarted calls = true)
     ∨ (r.1 = Returned (e, Some timeoutReached) ∧ watcherStarted calls = false)).
Proof.
  cbv zeta. unfold checkLocalEtcd. norm. rewrite run_Vis, run_defer, run_Vis, run_defer.
  unfold perform. cbn [answer fst snd run]. simplW.
  match goal with
  | |- context [run h (pollLocalEtcd e ticks) ?x] =>
      destruct (run_pollLocalEtcd h e ticks x) as (calls & Hc & Hres);
      destruct (run h (pollLocalEtcd e ticks) x) as [o w3]
  end.
  simplW. cbn [fst snd] in Hc, Hres.
  exists ([mkEntry h (timeNewTicker checkSleepDuration) tt;
           mkEntry h (timeNewTimer requestTimeout) tt] ++ calls
          ++ [mkEntry h timerStop tt; mkEntry h tickerStop tt]).
  destruct Hres as [(cli & -> & Hw)|(-> & Hw & _)]; unfold perform; simpl.
  - split; [rewrite Hc, <- !app_assoc; done|].
    left. exists cli. split; [done|]. by rewrite watcherStarted_app, Hw.
  - split; [rewrite Hc, <- !app_assoc; done|].
    right. split; [done|]. by rewrite watcherStarted_app, Hw.
Qed.


Lemma perform_dockerInfo_eq (h : nat) (w : World) :
  perform h dockerInfo w
  = (d_info w, setTrace (trace w ++ [mkEntry h dockerInfo (d_info w)]) w).
Proof. reflexivity. Qed.

Lemma perform_dockerNodeInspect_eq (h : nat) (id : string) (w : World) :
  perform h (dockerNodeInspectWithRaw id) w
  = (d_node w, setTrace (trace w ++ [mkEntry h (dockerNodeInspectWithRaw id) (d_node w)]) w).
Proof. reflexivity. Qed.

Lemma perform_dockerNodeList_eq (h : nat) (w : World) :
  perform h dockerNodeList w
  = (d_nodes w, setTrace (trace w ++ [mkEntry h dockerNodeList (d_nodes w)]) w).
Proof. reflexivity. Qed.

Lemma perform_goEtcdService_eq (h : nat) (lines : list string) (w : World) :
  perform h (goEtcdService lines) w
  = (tt, setTrace (trace w ++ [mkEntry h (goEtcdService lines) tt]) w).
Proof. reflexivity. Qed.

(** On the leader [Init] hands on what [checkLocalEtcd] found: success
    with the client cached and the watcher started, or the timeout. *)
Lemma Init_leader (h : nat) (e : etcdInfo) (ticks : nat) (w : World)
    (info : Info) (node : Node) (status : ManagerStatus) :
  d_info w = inl info → ControlAvailable (Swarm info) = true →
  d_node w = inl node → n_ManagerStatus node = Some status → Leader status = true →
  let r := run h (Init e ticks) w in
  ∃ calls, trace r.2 = trace w ++ calls ∧
    ((∃ e' cli, r.1 = Returned (e', None) ∧ client e' = Some cli
        ∧ watcherStarted calls = true)
     ∨ (∃ e', r.1 = Returned (e', Some timeoutReached) ∧ client e' = client e
        ∧ watcherStarted calls = false)).
Proof.
  intros Hi Hc Hn Hs Hl. cbv zeta. unfold Init. norm.
  rewrite run_Vis, perform_dockerInfo_eq. cbn [fst snd]. rewrite Hi.
  rewrite Hc. rewrite bool_decide_eq_false_2 by done.
  rewrite run_Vis, perform_dockerNodeInspect_eq. cbn [fst snd]. simplW.
  rewrite Hn. rewrite Hs, Hl.
  rewrite run_bind. unfold startEtcdCluster. norm.
  rewrite run_Vis, perform_goEtcdService_eq. cbn [fst snd].
  match goal with
  | |- context [run h (checkLocalEtcd ?e1 ticks) ?x] =>
      destruct (run_checkLocalEtcd h e1 ticks x) as (calls & Ht & Hres);
      destruct (run h (checkLocalEtcd e1 ticks) x) as [o w3]
  end.
  simplW. cbn [fst snd] in Ht, Hres.
  destruct Hres as [(cli & -> & Hw)|(-> & Hw)]; cbn [fst snd run]; eexists; split.
  - rewrite Ht, <- !app_assoc. reflexivity.
  - left. eexists _, cli. split; [done|]. split; [done|].
    by rewrite !watcherStarted_app, Hw, !orb_true_r.
  - rewrite Ht, <- !app_assoc. reflexivity.
  - right. eexists. split; [done|]. split; [done|].
    by rewrite !watcherStarted_app, Hw.
Qed.

(** On a manager that is not the leader, once a leader is found among
    the nodes, [Init] reports no error whatever [joinEtcdCluster]
    returned. *)
Lemma joinLeader_no_error (h : nat) (e : etcdInfo) (nodes : list Node) (ticks : nat)
    (w : World) :
  Exists (λ n, ∃ status, n_ManagerStatus n = Some status ∧ Leader status = true) nodes →
  match (run h (joinLeader e nodes ticks) w).1 with
  | Returned r => r.2 = None
  | Panicked _ => True
  end.
Proof.
  induction nodes as [|n ns IH]; intros Hex; [by apply Exists_nil in Hex|].
  cbn [joinLeader].
  destruct (n_ManagerStatus n) as [status|] eqn:Es.
  - destruct (decide (Leader status = true)) as [Hl|Hl].
    + rewrite bool_decide_eq_true_2 by done. norm. rewrite run_bind.
      by destruct (run h (joinEtcdCluster e (m_Addr status) ticks) w) as [[r|m] w'].
    + rewrite bool_decide_eq_false_2 by done. apply IH.
      apply Exists_cons in Hex as [(st & Hst & Hlead)|Hex]; [|done].
      rewrite Es in Hst. injection Hst as <-. done.
  - apply IH. apply Exists_cons in Hex as [(st & Hst & _)|Hex]; [|done].
    by rewrite Es in Hst.
Qed.

(** C8 at its failing input: on a manager that is not the leader, with
    the leader reachable and the local etcd never answering,
    [joinEtcdCluster] reports the timeout and [Init] nevertheless
    returns nil, with no client cached and no watcher started; the
    leader's [Init] reports the same timeout. *)
Theorem Init_follower_drops_timeout :
  let r := run 0 (Init freshEtcd 5) (followerWorld [leaderMember]) in
  (run 0 (joinEtcdCluster followerEtcd "10.0.0.9:2377" 5) (followerWorld [leaderMember])).1
    = Returned (followerEtcd, Some timeoutReached)
  ∧ r.1 = Returned (followerEtcd, None)
  ∧ client followerEtcd = None
  ∧ watcherStarted (trace r.2) = false
  ∧ (run 0 (Init freshEtcd 5)
       (leaderWorld (replicate 5 (Some "connection refused")))).1
    = Returned (followerEtcd, Some timeoutReached).
Proof. vm_compute. done. Qed.

Example Init_leader_success :
  let r := run 0 (Init freshEtcd 5)
             (leaderWorld [Some "connection refused"; Some "connection refused"]) in
  r.1 = Returned (withClient followerEtcd (mkClient 0 ["10.0.0.1:2379"]), None)
  ∧ watcherStarted (trace r.2) = true.
Proof. vm_compute. done. Qed.

Example Init_worker :
  let w := mkWorld ∅ [] [] [] [] (inl (mkInfo (mkSwarm "n2" "10.0.0.2" false [])))
             (inr "not a manager") (inr "not a manager") 0 1%N [] in
  (run 0 (Init freshEtcd 5) w).1 = Returned (mkEtcdInfo "n2" EmptyString None, None).
Proof. vm_compute. reflexivity. Qed.

(** * Further properties of etcdops.go *)

(** ** [CompareAndPut] on the store *)

Lemma perform_casOp_eq (h : nat) (c : Client) (k o n : string) (w : World) :
  faults w = [] →
  let b := bool_decide (kv w !! k = Some o) in
  perform h (casOp c k o n) w
  = (inl (mkTxnResponse b (if b then [ResponsePut] else [])),
     setTrace (trace w ++ [mkEntry h (casOp c k o n)
                             (inl (mkTxnResponse b (if b then [ResponsePut] else [])))])
       (setKv (if b then <[k:=n]> (kv w) else kv w) (setFaults [] w))).
Proof.
  intros Hf. unfold perform, casOp. simpl. rewrite Hf. simpl.
  unfold Store.commit. simpl. rewrite andb_true_r.
  by destruct (bool_decide (kv w !! k = Some o)).
Qed.

(** X1: [CompareAndPut] on a cached client returns true exactly when
    the store answers and the key holds [oldVal]; it then holds
    [newVal] and nothing else has changed; in every other case (wrong
    value, missing key, store error) it returns false and the store is
    as before. *)
Theorem CompareAndPut_swaps (h : nat) (e : etcdInfo) (c : Client) (k o n : string)
    (w : World) :
  client e = Some c →
  let r := run h (CompareAndPut e k o n) w in
  ∃ b, r.1 = Returned b
    ∧ (b = true ↔ nextFault w = None ∧ kv w !! k = Some o)
    ∧ kv r.2 = (if b then <[k:=n]> (kv w) else kv w)
    ∧ (kv w !! k = None → b = false).
Proof.
  intros Hc. cbv zeta. rewrite (run_CompareAndPut h e c Hc). cbn [fst snd].
  destruct (perform_cas h c k o n ctxTODO w) as (Hs & Hk & _).
  fold (casOp c k o n) in Hs, Hk.
  destruct (perform h (casOp c k o n) w) as [r w']. cbn [fst snd] in *.
  exists (swapped r). split; [done|]. split; [|split; [done|]].
  - rewrite Hs. apply bool_decide_eq_true.
  - intros Hnone. rewrite Hs. apply bool_decide_eq_false. intros [_ E]. congruence.
Qed.

Lemma CompareAndPut_swaps_witness :
  let w := exampleWorld [("SVOLS_stat_v1", "Ready")] in
  let r := run 0 (CompareAndPut exampleEtcd "SVOLS_stat_v1" "Ready" "Intermediate") w in
  ∃ b, r.1 = Returned b
    ∧ (b = true ↔ nextFault w = None ∧ kv w !! "SVOLS_stat_v1" = Some "Ready")
    ∧ kv r.2 = (if b then <["SVOLS_stat_v1":="Intermediate"]> (kv w) else kv w)
    ∧ (kv w !! "SVOLS_stat_v1" = None → b = false).
Proof.
  apply (CompareAndPut_swaps 0 exampleEtcd exampleClient
           "SVOLS_stat_v1" "Ready" "Intermediate"
           (exampleWorld [("SVOLS_stat_v1", "Ready")])).
  reflexivity.
Defined.

(** ** Where an event leaves the state key *)

Lemma perform_smb_eq (h : nat) (op : Op) (w : World) :
  isSMB op = true →
  kv (perform h op w).2 = kv w
  ∧ faults (perform h op w).2 = faults w
  ∧ smb (perform h op w).2 = (pop true (smb w)).2.
Proof.
  destruct op; try done; intros _; unfold perform; simpl;
    by destruct (pop true (smb w)).
Qed.

Lemma perform_start_answer (h : nat) (V : string) (w : World) :
  (perform h (startSMBServer V) w).1 = (pop true (smb w)).1.
Proof. unfold perform. simpl. by destruct (pop true (smb w)). Qed.

Lemma perform_stop_answer (h : nat) (V : string) (w : World) :
  (perform h (stopSMBServer V) w).1 = (pop true (smb w)).1.
Proof. unfold perform. simpl. by destruct (pop true (smb w)). Qed.

Lemma nextFault_nil (w : World) : faults w = [] → nextFault w = None.
Proof. unfold nextFault. by intros ->. Qed.

Section Settling.
Variables (h : nat) (e : etcdInfo) (c : Client).
Hypothesis cached : client e = Some c.

(** One guarded swap on a store that answers. *)
Lemma run_cas_healthy (k o n : string) (w : World) :
  faults w = [] →
  ∃ w', run h (CompareAndPut e k o n) w
          = (Returned (bool_decide (kv w !! k = Some o)), w')
    ∧ kv w' = (if bool_decide (kv w !! k = Some o) then <[k:=n]> (kv w) else kv w)
    ∧ faults w' = [] ∧ smb w' = smb w
    ∧ trace w' = trace w
        ++ [mkEntry h (casOp c k o n) (perform h (casOp c k o n) w).1].
Proof using cached.
  intros Hf. rewrite (run_CompareAndPut h e c cached).
  destruct (perform_cas h c k o n ctxTODO w) as (Hs & Hk & Hfs & Hsmb).
  pose proof (perform_trace h (casOp c k o n) w) as Ht.
  fold (casOp c k o n) in Hs, Hk, Hfs, Hsmb.
  eexists. split; [|split; [|split; [|split]]].
  - f_equal. f_equal. rewrite Hs.
    apply bool_decide_ext. rewrite (nextFault_nil w Hf). tauto.
  - cbn [snd]. rewrite Hk, Hs.
    rewrite (bool_decide_ext _ (kv w !! k = Some o)); [done|].
    rewrite (nextFault_nil w Hf). tauto.
  - cbn [snd]. rewrite Hfs, Hf. done.
  - done.
  - done.
Qed.

(** The run of the handler on a boundary event for [V], on a store
    that answers: a lost claim changes nothing; a won claim is followed
    by the SMB call and leaves [settled from] or [Error]. *)
Lemma run_handler_healthy (ev : Event) (V from : string) (effect : Op) (w : World) :
  transition ev V from effect →
  faults w = [] →
  let S := etcdPrefixState +:+ V in
  let r := run h (etcdEventHandler e ev) w in
  r.1 = Returned tt ∧ faults r.2 = []
  ∧ ∃ calls, trace r.2 = trace w ++ calls
      ∧ if bool_decide (kv w !! S = Some from)
        then kv r.2 = <[S := if (pop true (smb w)).1 then settled from
                             else volStateError]> (kv w)
             ∧ smb r.2 = (pop true (smb w)).2
             ∧ en_op <$> sideEffects calls = [effect]
        else kv r.2 = kv w ∧ smb r.2 = smb w ∧ sideEffects calls = [].
Proof using cached.
  intros Htr Hf. cbv zeta.
  destruct Htr as [[(HT & (kvp & HK & Hkey & Hval) & (prev & HP & Hprev)) [-> ->]]
                  |[(HT & (kvp & HK & Hkey & Hval) & (prev & HP & Hprev)) [-> ->]]];
    unfold etcdEventHandler, prevIs;
    rewrite HT, HK, HP, Hval, Hprev, Hkey, TrimPrefix_app.
  - rewrite !bool_decide_eq_true_2 by done. cbn [andb]. norm.
    rewrite run_bind.
    destruct (run_cas_healthy (etcdPrefixState +:+ V) volStateReady
                volStateIntermediate w Hf) as (w1 & -> & Hk1 & Hf1 & Hs1 & Ht1).
    destruct (bool_decide (kv w !! (etcdPrefixState +:+ V) = Some volStateReady)) eqn:Eb;
      cbn [negb].
    2:{ simpl. split; [done|]. split; [done|]. eexists. split; [exact Ht1|].
        by rewrite Hk1, Hs1. }
    rewrite run_Vis.
    pose proof (perform_trace h (startSMBServer V) w1) as Ht2.
    destruct (perform_smb_eq h (startSMBServer V) w1 eq_refl) as (Hk2 & Hf2 & Hs2).
    pose proof (perform_start_answer h V w1) as Ha.
    destruct (perform h (startSMBServer V) w1) as [b w2]. cbn [fst snd] in *.
    rewrite Hs1 in Ha, Hs2. rewrite Hf1 in Hf2. rewrite Hk1 in Hk2.
    subst b. destruct (pop true (smb w)) as [b bs]. cbn [fst snd] in *.
    destruct b.
    + rewrite run_bind.
      destruct (run_cas_healthy (etcdPrefixState +:+ V) volStateIntermediate
                  volStateMounted w2 Hf2) as (w3 & -> & Hk3 & Hf3 & Hs3 & Ht3).
      rewrite Hk2, lookup_insert_eq in Hk3 |- *.
      rewrite (bool_decide_eq_true_2 (Some volStateIntermediate = Some volStateIntermediate))
        in Hk3 |- * by done.
      rewrite bool_decide_eq_false_2 by done. simpl.
      split; [done|]. split; [done|]. eexists.
      split; [rewrite Ht3, Ht2, Ht1, <- !app_assoc; reflexivity|].
      split; [by rewrite Hk3, insert_insert_eq|]. split; [congruence|]. done.
    + rewrite run_bind.
      destruct (run_cas_healthy (etcdPrefixState +:+ V) volStateIntermediate
                  volStateError w2 Hf2) as (w3 & -> & Hk3 & Hf3 & Hs3 & Ht3).
      rewrite Hk2, lookup_insert_eq in Hk3.
      rewrite bool_decide_eq_true_2 in Hk3 by done. simpl.
      split; [done|]. split; [done|]. eexists.
      split; [rewrite Ht3, Ht2, Ht1, <- !app_assoc; reflexivity|].
      split; [by rewrite Hk3, insert_insert_eq|]. split; [congruence|]. done.
  - rewrite (bool_decide_eq_false_2 (etcdNoRef = etcdSingleRef)) by (by intros [=]).
    cbn [andb]. rewrite !bool_decide_eq_true_2 by done. cbn [andb]. norm.
    rewrite run_bind.
    destruct (run_cas_healthy (etcdPrefixState +:+ V) volStateMounted
                volStateIntermediate w Hf) as (w1 & -> & Hk1 & Hf1 & Hs1 & Ht1).
    destruct (bool_decide (kv w !! (etcdPrefixState +:+ V) = Some volStateMounted)) eqn:Eb;
      cbn [negb].
    2:{ simpl. split; [done|]. split; [done|]. eexists. split; [exact Ht1|].
        by rewrite Hk1, Hs1. }
    rewrite run_Vis.
    pose proof (perform_trace h (stopSMBServer V) w1) as Ht2.
    destruct (perform_smb_eq h (stopSMBServer V) w1 eq_refl) as (Hk2 & Hf2 & Hs2).
    pose proof (perform_stop_answer h V w1) as Ha.
    destruct (perform h (stopSMBServer V) w1) as [b w2]. cbn [fst snd] in *.
    rewrite Hs1 in Ha, Hs2. rewrite Hf1 in Hf2. rewrite Hk1 in Hk2.
    subst b. destruct (pop true (smb w)) as [b bs]. cbn [fst snd] in *.
    destruct b.
    + rewrite run_bind.
      destruct (run_cas_healthy (etcdPrefixState +:+ V) volStateIntermediate
                  volStateReady w2 Hf2) as (w3 & -> & Hk3 & Hf3 & Hs3 & Ht3).
      rewrite Hk2, lookup_insert_eq in Hk3 |- *.
      rewrite (bool_decide_eq_true_2 (Some volStateIntermediate = Some volStateIntermediate))
        in Hk3 |- * by done.
      rewrite bool_decide_eq_false_2 by done. simpl.
      split; [done|]. split; [done|]. eexists.
      split; [rewrite Ht3, Ht2, Ht1, <- !app_assoc; reflexivity|].
      split; [by rewrite Hk3, insert_insert_eq|]. split; [congruence|]. done.
    + rewrite run_bind.
      destruct (run_cas_healthy (etcdPrefixState +:+ V) volStateIntermediate
                  volStateError w2 Hf2) as (w3 & -> & Hk3 & Hf3 & Hs3 & Ht3).
      rewrite Hk2, lookup_insert_eq in Hk3.
      rewrite bool_decide_eq_true_2 in Hk3 by done. simpl.
      split; [done|]. split; [done|]. eexists.
      split; [rewrite Ht3, Ht2, Ht1, <- !app_assoc; reflexivity|].
      split; [by rewrite Hk3, insert_insert_eq|]. split; [congruence|]. done.
Qed.
End Settling.

(** X2: on a store that answers, a boundary event for [V] moves
    [STATE:V] only from the state the event claims: the key ends in
    [Mounted] (for 0→1) or [Ready] (for 1→0) when the SMB call
    succeeds and in [Error] when it fails; from any other state, or
    with the key missing, the store is left as it was. *)
Theorem handler_settles (h : nat) (e : etcdInfo) (c : Client) (ev : Event)
    (V from : string) (effect : Op) (w : World) :
  client e = Some c →
  transition ev V from effect →
  faults w = [] →
  let S := etcdPrefixState +:+ V in
  kv (run h (etcdEventHandler e ev) w).2
  = if bool_decide (kv w !! S = Some from)
    then <[S := if (pop true (smb w)).1 then settled from else volStateError]> (kv w)
    else kv w.
Proof.
  intros Hc Htr Hf. cbv zeta.
  destruct (run_handler_healthy h e c Hc ev V from effect w Htr Hf)
    as (_ & _ & calls & _ & H).
  destruct (bool_decide _); by destruct H as [-> _].
Qed.

Lemma handler_settles_witness :
  let w := setSmb [false] (exampleWorld [("SVOLS_stat_v1", "Ready")]) in
  kv (run 0 (etcdEventHandler exampleEtcd (examplePut "SVOLS_gref_v1" "0" "1")) w).2
  = if bool_decide (kv w !! (etcdPrefixState +:+ "v1") = Some volStateReady)
    then <[etcdPrefixState +:+ "v1" :=
             if (pop true (smb w)).1 then settled volStateReady else volStateError]> (kv w)
    else kv w.
Proof.
  apply (handler_settles 0 exampleEtcd exampleClient
           (examplePut "SVOLS_gref_v1" "0" "1") "v1" volStateReady
           (startSMBServer "v1")
           (setSmb [false] (exampleWorld [("SVOLS_stat_v1", "Ready")]))).
  - reflexivity.
  - left. split; [|split; reflexivity].
    split; [reflexivity|].
    split; [exists (mkKeyValue "SVOLS_gref_v1" "1")|exists (mkKeyValue "SVOLS_gref_v1" "0")];
      repeat split; reflexivity.
  - reflexivity.
Defined.

(** X3: a mount followed by an unmount is a round trip.  With
    [STATE:V] in [Ready], a store and an SMB controller that answer,
    the watcher's loop over the events 0→1 and 1→0 of [GREF:V] starts
    the server, stops it, and leaves the store exactly as it found it. *)
Theorem mount_unmount_roundtrip (h : nat) (e : etcdInfo) (c : Client)
    (ev1 ev2 : Event) (V : string) (w : World) :
  client e = Some c →
  grefChange ev1 V etcdNoRef etcdSingleRef →
  grefChange ev2 V etcdSingleRef etcdNoRef →
  faults w = [] → smb w = [] →
  kv w !! (etcdPrefixState +:+ V) = Some volStateReady →
  let r := run h (handleEvents e [ev1; ev2]) w in
  r.1 = Returned tt ∧ kv r.2 = kv w
  ∧ ∃ calls, trace r.2 = trace w ++ calls
      ∧ en_op <$> sideEffects calls = [startSMBServer V; stopSMBServer V].
Proof.
  intros Hc H1 H2 Hf Hs Hk. cbv zeta. cbn [handleEvents]. norm.
  rewrite run_bind.
  destruct (run_handler_healthy h e c Hc ev1 V volStateReady (startSMBServer V) w)
    as (Hr1 & Hf1 & calls1 & Ht1 & Hst1); [by left|done|].
  rewrite bool_decide_eq_true_2 in Hst1 by done.
  rewrite Hs in Hst1. cbn [pop fst snd] in Hst1. destruct Hst1 as (Hk1 & Hs1 & He1).
  destruct (run h (etcdEventHandler e ev1) w) as [o1 w1]. cbn [fst snd] in *. subst o1.
  rewrite run_bind.
  destruct (run_handler_healthy h e c Hc ev2 V volStateMounted (stopSMBServer V) w1)
    as (Hr2 & Hf2 & calls2 & Ht2 & Hst2); [by right|done|].
  assert (kv w1 !! (etcdPrefixState +:+ V) = Some volStateMounted) as Hm.
  { rewrite Hk1. apply lookup_insert_eq. }
  rewrite bool_decide_eq_true_2 in Hst2 by done.
  rewrite Hs1 in Hst2. cbn [pop fst snd] in Hst2. destruct Hst2 as (Hk2 & Hs2 & He2).
  destruct (run h (etcdEventHandler e ev2) w1) as [o2 w2]. cbn [fst snd] in *. subst o2.
  simpl. split; [done|]. split.
  - rewrite Hk2, Hk1, insert_insert_eq. by apply insert_id.
  - exists (calls1 ++ calls2). split; [by rewrite Ht2, Ht1, app_assoc|].
    unfold sideEffects in *. by rewrite filter_app, fmap_app, He1, He2.
Qed.

Lemma mount_unmount_roundtrip_witness :
  let w := exampleWorld [("SVOLS_stat_v1", "Ready"); ("SVOLS_gref_v1", "0")] in
  let r := run 0 (handleEvents exampleEtcd
                    [examplePut "SVOLS_gref_v1" "0" "1";
                     examplePut "SVOLS_gref_v1" "1" "0"]) w in
  r.1 = Returned tt ∧ kv r.2 = kv w
  ∧ ∃ calls, trace r.2 = trace w ++ calls
      ∧ en_op <$> sideEffects calls = [startSMBServer "v1"; stopSMBServer "v1"].
Proof.
  apply (mount_unmount_roundtrip 0 exampleEtcd exampleClient
           (examplePut "SVOLS_gref_v1" "0" "1") (examplePut "SVOLS_gref_v1" "1" "0") "v1"
           (exampleWorld [("SVOLS_stat_v1", "Ready"); ("SVOLS_gref_v1", "0")])).
  - reflexivity.
  - split; [reflexivity|].
    split; [exists (mkKeyValue "SVOLS_gref_v1" "1")|exists (mkKeyValue "SVOLS_gref_v1" "0")];
      repeat split; reflexivity.
  - split; [reflexivity|].
    split; [exists (mkKeyValue "SVOLS_gref_v1" "0")|exists (mkKeyValue "SVOLS_gref_v1" "1")];
      repeat split; reflexivity.
  - reflexivity.
  - reflexivity.
  - reflexivity.
Defined.

(** ** What a program's calls can do to the world *)

Lemma AllCalls_bind {A B} (P : Op → Prop) (p : Prog A) (f : A → Prog B) :
  AllCalls P p → (∀ a, AllCalls P (f a)) → AllCalls P (bind p f).
Proof.
  intros Hp Hf. induction p as [a|m|op k IH]; simpl; [apply Hf|done|].
  destruct Hp as [Hop Hk]. split; [done|]. intros r. by apply IH.
Qed.

Lemma AllCalls_mono {A} (P Q : Op → Prop) (p : Prog A) :
  (∀ op, P op → Q op) → AllCalls P p → AllCalls Q p.
Proof.
  intros HPQ. induction p as [a|m|op k IH]; simpl; [done|done|].
  intros [Hop Hk]. split; [by apply HPQ|]. intros r. by apply IH.
Qed.

Lemma AllCalls_defer {A} (P : Op → Prop) (cleanup : Prog unit) (body : Prog A) :
  AllCalls P cleanup → AllCalls P body → AllCalls P (defer cleanup body).
Proof.
  intros Hc Hb. induction body as [a|m|op k IH]; simpl.
  - by apply AllCalls_bind.
  - by apply AllCalls_bind.
  - destruct Hb as [Hop Hk]. split; [done|]. intros r. by apply IH.
Qed.

(** A relation between worlds that every allowed call respects is
    respected by the whole run. *)
Lemma run_AllCalls {A} (P : Op → Prop) (R : World → World → Prop)
    (h : nat) (p : Prog A) (w : World) :
  (∀ w, R w w) →
  (∀ w1 w2 w3, R w1 w2 → R w2 w3 → R w1 w3) →
  (∀ op w, P op → R w (perform h op w).2) →
  AllCalls P p → R w (run h p w).2.
Proof.
  intros Hrefl Htrans Hstep. revert w.
  induction p as [a|m|op k IH]; intros w Hp; simpl; [apply Hrefl|apply Hrefl|].
  destruct Hp as [Hop Hk]. specialize (Hstep op w Hop).
  destruct (perform h op w) as [r w']. cbn [snd] in Hstep.
  eapply Htrans; [exact Hstep|]. by apply IH.
Qed.

(** ** The watcher and the keys of the store *)

Lemma HasPrefix_app (p s : string) : HasPrefix (p +:+ s) p = true.
Proof. unfold HasPrefix. by rewrite strip_app. Qed.

Lemma CompareAndPut_watcherOp (e : etcdInfo) (V o n : string) :
  AllCalls watcherOp (CompareAndPut e (etcdPrefixState +:+ V) o n).
Proof.
  unfold CompareAndPut, deref. destruct (client e) as [c|]; [|done].
  norm. simpl. split; [split; [done|by exists V]|]. by intros [t|err].
Qed.

Lemma handler_watcherOp (e : etcdInfo) (ev : Event) :
  AllCalls watcherOp (etcdEventHandler e ev).
Proof.
  unfold etcdEventHandler.
  destruct (Type_ ev); [|done]. destruct (Kv ev) as [kvp|]; [|done].
  repeat case_match; try done; norm;
    (apply AllCalls_bind; [apply CompareAndPut_watcherOp|]);
    intros []; cbn [negb]; try done;
    (split; [done|]); intros []; norm;
      (apply AllCalls_bind; [apply CompareAndPut_watcherOp|]); intros b; try done;
        destruct (bool_decide (b = false)); try done;
          (apply AllCalls_bind; [apply CompareAndPut_watcherOp|]); done.
Qed.

Lemma etcdWatcher_watcherOp (e : etcdInfo) (watchCh : list (list Event)) :
  AllCalls watcherOp (etcdWatcher e watchCh).
Proof.
  unfold etcdWatcher, deref. destruct (client e) as [c|]; [|done].
  norm. simpl. split; [done|]. intros _.
  induction watchCh as [|wresp rest IH]; simpl; [done|]. norm.
  apply AllCalls_bind; [|by intros _].
  clear IH. induction wresp as [|ev evs IH]; simpl; [done|]. norm.
  apply AllCalls_bind; [apply handler_watcherOp|by intros _].
Qed.

Lemma keepsKeys_same (w w' : World) : kv w' = kv w → keepsKeys w w'.
Proof. intros E. split; intros k; by rewrite E. Qed.

Lemma keepsKeys_refl (w : World) : keepsKeys w w.
Proof. by apply keepsKeys_same. Qed.

Lemma keepsKeys_trans (w1 w2 w3 : World) :
  keepsKeys w1 w2 → keepsKeys w2 w3 → keepsKeys w1 w3.
Proof.
  intros [Ha Hb] [Hc Hd]. split.
  - intros k. by rewrite Hc.
  - intros k Hk. by rewrite Hd, Hb.
Qed.

Lemma perform_watcherOp (h : nat) (op : Op) (w : World) :
  watcherOp op → keepsKeys w (perform h op w).2.
Proof.
  intros Hop.
  assert (isSMB op = true ∨ (∃ c ctx k opts, op = etcdWatch c ctx k opts)
          ∨ ∃ c ctx V o n, op = etcdTxn c ctx [CompareValueEq (etcdPrefixState +:+ V) o]
                                   [OpPut (etcdPrefixState +:+ V) n])
    as [Hs|[(c & ctx & k & opts & ->)|(c & ctx & V & o & n & ->)]].
  { destruct op; try done; try (by left); try (right; left; by eauto 10).
    right. right. simpl in Hop.
    destruct ifs as [|[k o] [|? ?]]; try done.
    destruct thens as [|[k' n| |] [|? ?]]; try done.
    destruct Hop as [<- [V ->]]. by eauto 10. }
  - destruct (perform_smb_eq h op w Hs) as (Hk & _). by apply keepsKeys_same.
  - by apply keepsKeys_same.
  - destruct (perform_cas h c (etcdPrefixState +:+ V) o n ctx w) as (Hs & Hk & _).
    destruct (perform h _ w) as [r w']. cbn [fst snd] in *.
    destruct (swapped r); [|by apply keepsKeys_same].
    symmetry in Hs. apply bool_decide_eq_true in Hs as [_ Ho].
    split; rewrite Hk.
    + intros k. destruct (decide (k = etcdPrefixState +:+ V)) as [->|Hne].
      * rewrite lookup_insert_eq, Ho. by split.
      * by rewrite lookup_insert_ne.
    + intros k Hp. rewrite lookup_insert_ne; [done|].
      intros <-. by rewrite HasPrefix_app in Hp.
Qed.

(** X4: whatever events it is fed and however the store and the SMB
    controller answer, [etcdWatcher] never creates a key and never
    removes one, and it leaves the value of every key outside the
    [STATE] family as it is: reference counts ([GREF:V]) and volume
    information ([INFO:V]) are only read about, never written. *)
Theorem etcdWatcher_keeps_keys (h : nat) (e : etcdInfo) (watchCh : list (list Event))
    (w : World) :
  let w' := (run h (etcdWatcher e watchCh) w).2 in
  (∀ k, is_Some (kv w' !! k) ↔ is_Some (kv w !! k))
  ∧ (∀ k, HasPrefix k etcdPrefixState = false → kv w' !! k = kv w !! k)
  ∧ (∀ V, kv w' !! (etcdPrefixGRef +:+ V) = kv w !! (etcdPrefixGRef +:+ V)
          ∧ kv w' !! (etcdPrefixInfo +:+ V) = kv w !! (etcdPrefixInfo +:+ V)).
Proof.
  cbv zeta.
  assert (keepsKeys w (run h (etcdWatcher e watchCh) w).2) as [Ha Hb].
  { apply (run_AllCalls watcherOp keepsKeys).
    - apply keepsKeys_refl.
    - apply keepsKeys_trans.
    - intros. by apply perform_watcherOp.
    - apply etcdWatcher_watcherOp. }
  split; [done|]. split; [done|]. intros V. split; by apply Hb.
Qed.

(** ** [ListVolumeName] *)

Lemma strip_Some (p s r : string) : strip p s = Some r → s = p +:+ r.
Proof.
  revert s. induction p as [|a p IH]; intros s; simpl.
  - by intros [= ->].
  - destruct s as [|b s]; [done|]. destruct (decide (a = b)) as [->|]; [|done].
    intros H. by rewrite (IH s H).
Qed.

Lemma HasPrefix_true (s p : string) : HasPrefix s p = true → s = p +:+ TrimPrefix s p.
Proof.
  unfold HasPrefix, TrimPrefix. destruct (strip p s) as [r|] eqn:E; [|done].
  intros _. by apply strip_Some.
Qed.

Lemma leb_app (p a b : string) : String.leb (p +:+ a) (p +:+ b) = String.leb a b.
Proof.
  induction p as [|x p IH]; [done|].
  rewrite !append_cons. unfold String.leb in *. simpl.
  assert (Ascii.compare x x = Eq) as ->; [|done].
  unfold Ascii.compare. apply N.compare_refl.
Qed.

Lemma keyDescend_trans : Transitive Store.keyDescend.
Proof.
  intros a b c Hab Hbc. unfold Store.keyDescend in *.
  exact (transitivity (R:=String.le) Hbc Hab).
Qed.

Lemma keyDescend_total : Total Store.keyDescend.
Proof.
  intros a b. unfold Store.keyDescend.
  destruct (total String.le (Key b) (Key a)); [by left|by right].
Qed.

Lemma perform_get (h : nat) (c : Client) (ctx : Context) (k : string)
    (opts : list OpOption) (w : World) :
  (perform h (etcdGet c ctx k opts) w).1
  = match nextFault w with
    | Some err => inr err
    | None => inl (Store.get (kv w) k opts)
    end
  ∧ kv (perform h (etcdGet c ctx k opts) w).2 = kv w.
Proof.
  unfold perform, nextFault. simpl.
  by destruct (pop None (faults w)) as [[err|] fs].
Qed.

(** The answer of the store to the range read of [ListVolumeName]. *)
Lemma get_state_keys (m : gmap string string) :
  let kvs := Store.get m etcdPrefixState [WithPrefix; WithSortByKeyDescend] in
  (∀ x, x ∈ kvs ↔ m !! Key x = Some (Value x) ∧ HasPrefix (Key x) etcdPrefixState = true)
  ∧ NoDup kvs
  ∧ StronglySorted Store.keyDescend kvs.
Proof.
  cbv zeta. unfold Store.get.
  rewrite !bool_decide_eq_true_2 by (rewrite !elem_of_cons; auto).
  split; [|split].
  - intros x. rewrite merge_sort_Permutation, list_elem_of_filter, list_elem_of_fmap.
    split.
    + intros [Hp ([k v] & -> & Hin)]. by apply elem_of_map_to_list in Hin.
    + intros [Hk Hp]. split; [done|]. exists (Key x, Value x).
      split; [by destruct x|]. by apply elem_of_map_to_list.
  - rewrite merge_sort_Permutation. apply NoDup_filter.
    apply NoDup_fmap_2; [|apply NoDup_map_to_list].
    intros [a b] [a' b'] [=]. by simplify_eq/=.
  - pose proof keyDescend_trans. pose proof keyDescend_total.
    apply StronglySorted_merge_sort; apply _.
Qed.

Lemma StronglySorted_strengthen {A} (R : relation A) (P : A → Prop) (l : list A) :
  StronglySorted R l → Forall P l → StronglySorted (λ x y, R x y ∧ P x ∧ P y) l.
Proof.
  induction 1 as [|x l Hs IH Hx]; intros Hl; [constructor|].
  apply Forall_cons in Hl as [HPx HPl]. constructor; [by apply IH|].
  rewrite Forall_forall in Hx, HPl. apply Forall_forall. intros y Hy.
  split; [by apply Hx|]. split; [done|by apply HPl].
Qed.

Section Listing.
Variables (h : nat) (e : etcdInfo) (w w1 : World) (c : Client).
Hypothesis connected : run h createEtcdClient w = (Returned (Some c), w1).

Lemma run_ListVolumeName :
  (run h (ListVolumeName e) w).1
  = match nextFault w with
    | Some err => Returned ([], Some err)
    | None =>
        Returned (map (λ ev : KeyValue, TrimPrefix (Key ev) etcdPrefixState)
                    (Store.get (kv w) etcdPrefixState [WithPrefix; WithSortByKeyDescend]),
                  None)
    end.
Proof using connected.
  pose proof (createEtcdClient_frame h w) as F. rewrite connected in F. cbn [snd] in F.
  unfold ListVolumeName. norm. rewrite run_bind, connected. rewrite run_Vis.
  destruct (perform_get h c (ctxWithTimeout requestTimeout) etcdPrefixState
              [WithPrefix; WithSortByKeyDescend] w1) as [Hr _].
  rewrite (nextFault_frame _ _ F) in Hr. destruct F as (Hkv & _). rewrite Hkv in Hr.
  destruct (perform h _ w1) as [r w2]. cbn [fst snd] in *. subst r.
  by destruct (nextFault w).
Qed.
End Listing.

(** Which names the range read of [ListVolumeName] yields. *)
Lemma state_names_mem (m : gmap string string) (V : string) :
  V ∈ (λ ev : KeyValue, TrimPrefix (Key ev) etcdPrefixState)
        <$> Store.get m etcdPrefixState [WithPrefix; WithSortByKeyDescend]
  ↔ is_Some (m !! (etcdPrefixState +:+ V)).
Proof.
  destruct (get_state_keys m) as (Hin & _).
  rewrite list_elem_of_fmap. split.
  - intros (x & -> & Hx). apply Hin in Hx as [Hk Hp].
    rewrite <- (HasPrefix_true _ _ Hp). by eexists.
  - intros [v Hv]. exists (mkKeyValue (etcdPrefixState +:+ V) v).
    cbn [Key Value]. split; [by rewrite TrimPrefix_app|]. apply Hin.
    cbn [Key Value]. split; [done|apply HasPrefix_app].
Qed.

(** X5: with a client and a store that answers, [ListVolumeName]
    returns exactly the volumes that have a [STATE] key: [V] is in the
    list if and only if [STATE:V] is in the store, whatever [GREF] and
    [INFO] keys there are; no name is listed twice, and the names come
    in descending order. *)
Theorem ListVolumeName_lists (h : nat) (e : etcdInfo) (w w1 : World) (c : Client) :
  run h createEtcdClient w = (Returned (Some c), w1) →
  nextFault w = None →
  ∃ names, (run h (ListVolumeName e) w).1 = Returned (names, None)
    ∧ (∀ V, V ∈ names ↔ is_Some (kv w !! (etcdPrefixState +:+ V)))
    ∧ NoDup names
    ∧ StronglySorted (λ a b, String.le b a) names.
Proof.
  intros Hc Hn. rewrite (run_ListVolumeName h e w w1 c Hc), Hn.
  destruct (get_state_keys (kv w)) as (Hin & Hnd & Hs).
  eexists. split; [reflexivity|].
  split; [intros V; apply state_names_mem|].
  set (kvs := Store.get (kv w) etcdPrefixState [WithPrefix; WithSortByKeyDescend]) in *.
  change (map ?f kvs) with (f <$> kvs).
  split.
  - apply NoDup_fmap_2_strong; [|done].
    intros x y Hx Hy E. apply Hin in Hx as [Hkx Hpx]. apply Hin in Hy as [Hky Hpy].
    apply HasPrefix_true in Hpx, Hpy. rewrite E in Hpx.
    assert (Key x = Key y) as Ek by congruence.
    rewrite Ek in Hkx. destruct x, y. simpl in *. congruence.
  - eapply StronglySorted_fmap
      with (R1 := λ x y, Store.keyDescend x y
                         ∧ HasPrefix (Key x) etcdPrefixState = true
                         ∧ HasPrefix (Key y) etcdPrefixState = true).
    + intros x y (Hd & Hpx & Hpy). unfold Store.keyDescend in Hd.
      apply HasPrefix_true in Hpx, Hpy. rewrite Hpx, Hpy, leb_app in Hd. exact Hd.
    + apply StronglySorted_strengthen; [done|].
      apply Forall_forall. intros x Hx. by apply Hin in Hx as [_ ?].
Qed.

Lemma ListVolumeName_lists_witness :
  let w := exampleWorld [("SVOLS_stat_a", "Ready"); ("SVOLS_gref_a", "0");
                         ("SVOLS_stat_b", "Mounted"); ("SVOLS_info_c", "x")] in
  ∃ names, (run 0 (ListVolumeName exampleEtcd) w).1 = Returned (names, None)
    ∧ (∀ V, V ∈ names ↔ is_Some (kv w !! (etcdPrefixState +:+ V)))
    ∧ NoDup names
    ∧ StronglySorted (λ a b, String.le b a) names.
Proof.
  eapply (ListVolumeName_lists 0 exampleEtcd
            (exampleWorld [("SVOLS_stat_a", "Ready"); ("SVOLS_gref_a", "0");
                           ("SVOLS_stat_b", "Mounted"); ("SVOLS_info_c", "x")])).
  - vm_compute. reflexivity.
  - reflexivity.
Defined.

Example ListVolumeName_example :
  (run 0 (ListVolumeName exampleEtcd)
     (exampleWorld [("SVOLS_stat_a", "Ready"); ("SVOLS_gref_a", "0");
                    ("SVOLS_stat_b", "Mounted"); ("SVOLS_info_c", "x")])).1
  = Returned (["b"; "a"], None).
Proof. vm_compute. reflexivity. Qed.

(** ** The metadata API and the store *)

Lemma createEtcdClient_cases (h : nat) (w : World) :
  ∃ oc w1, run h createEtcdClient w = (Returned oc, w1) ∧ sameStore w w1.
Proof.
  destruct (createEtcdClient_returns h w) as [oc Hoc].
  pose proof (createEtcdClient_frame h w) as F.
  destruct (run h createEtcdClient w) as [o w1]. cbn [fst snd] in *. subst o.
  by exists oc, w1.
Qed.

(** X6: [ListVolumeName] never panics: without a client it returns no
    name and the error "Failed to create etcd client" (its siblings
    dereference the nil client instead), with a client it returns the
    error of the store, if any, as it is; whenever it returns an error
    the list is empty. *)
Theorem ListVolumeName_errors (h : nat) (e : etcdInfo) (w : World) :
  let err := match (run h createEtcdClient w).1 with
             | Returned (Some _) => nextFault w
             | _ => Some etcdClientCreateError
             end in
  ∃ names, (run h (ListVolumeName e) w).1 = Returned (names, err)
    ∧ (err ≠ None → names = []).
Proof.
  cbv zeta. destruct (createEtcdClient_cases h w) as ([c|] & w1 & Hc & F).
  - rewrite (run_ListVolumeName h e w w1 c Hc), Hc. cbn [fst].
    destruct (nextFault w) as [err|]; eexists; (split; [reflexivity|]); done.
  - unfold ListVolumeName. norm. rewrite run_bind, Hc. simpl.
    eexists. split; [reflexivity|done].
Qed.

Lemma firstManagerClient_clientOp (managers : list Peer) :
  AllCalls clientOp (firstManagerClient managers).
Proof.
  induction managers as [|m rest IH]; simpl; [done|].
  unfold addrToEtcdClient. norm. simpl. split; [done|]. by intros [c|err].
Qed.

Lemma createEtcdClient_clientOp : AllCalls clientOp createEtcdClient.
Proof.
  unfold createEtcdClient. norm. simpl. split; [done|].
  intros [info|err]; [apply firstManagerClient_clientOp|done].
Qed.

Lemma collectEntries_no_call (P : Op → Prop) (keys : list string) (i : nat)
    (responses : list ResponseOp) (entries : list kvPair) (missedCount : nat) :
  AllCalls P (collectEntries keys i responses entries missedCount).
Proof.
  revert i entries missedCount. induction keys as [|k keys IH]; intros; simpl; [done|].
  repeat case_match; try done; apply IH.
Qed.

Lemma closeClient_readOnly (oc : option Client) : AllCalls readOnly (closeClient oc).
Proof. destruct oc; [|done]. unfold closeClient, deref. norm. by simpl. Qed.

Lemma ReadVolMetadata_readOnly (e : etcdInfo) (keys : list string) :
  AllCalls readOnly (ReadVolMetadata e keys).
Proof.
  unfold ReadVolMetadata. norm. apply AllCalls_bind.
  { eapply AllCalls_mono; [|apply createEtcdClient_clientOp]. by intros []. }
  intros oc. apply AllCalls_defer; [apply closeClient_readOnly|].
  destruct oc as [c|]; [|done]. unfold deref. norm. simpl.
  split; [by exists keys|]. intros [resp|err]; [|done].
  apply AllCalls_bind; [apply collectEntries_no_call|].
  intros [entries missed]. by repeat case_match.
Qed.

Lemma ListVolumeName_readOnly (e : etcdInfo) : AllCalls readOnly (ListVolumeName e).
Proof.
  unfold ListVolumeName. norm. apply AllCalls_bind.
  { eapply AllCalls_mono; [|apply createEtcdClient_clientOp]. by intros []. }
  intros [c|]; [|done]. norm. simpl. split; [done|]. by intros [kvs|err].
Qed.

Lemma perform_readOnly (h : nat) (op : Op) (w : World) :
  readOnly op → kv (perform h op w).2 = kv w.
Proof.
  destruct op; try done.
  - intros _. by destruct (perform_etcdNew h endpoints w) as (? & _).
  - destruct ifs; [|done]. intros [keys ->].
    destruct (perform_txn_errorOf h c ctx (map OpGet keys) w) as [_ Hk].
    rewrite Hk, applyOps_gets. by destruct (nextFault w).
  - intros _. by destruct (perform_get h c ctx k opts w).
Qed.

(** X7: reading never writes.  In every world and on every path,
    panics included, [ReadVolMetadata] and [ListVolumeName] leave the
    store exactly as it was. *)
Theorem readers_leave_store (h : nat) (e : etcdInfo) (keys : list string) (w : World) :
  kv (run h (ReadVolMetadata e keys) w).2 = kv w
  ∧ kv (run h (ListVolumeName e) w).2 = kv w.
Proof.
  split.
  - apply (run_AllCalls readOnly (λ w w', kv w' = kv w)); [done|congruence| |].
    + intros. by apply perform_readOnly.
    + apply ReadVolMetadata_readOnly.
  - apply (run_AllCalls readOnly (λ w w', kv w' = kv w)); [done|congruence| |].
    + intros. by apply perform_readOnly.
    + apply ListVolumeName_readOnly.
Qed.

Lemma applyOps_cons_snd (m : gmap string string) (op : KvOp) (ops : list KvOp) :
  (Store.applyOps m (op :: ops)).2 = (Store.applyOps (Store.applyOp m op).2 ops).2.
Proof.
  simpl. destruct (Store.applyOp m op) as [r m1]. simpl.
  by destruct (Store.applyOps m1 ops).
Qed.

Lemma applyOps_puts_notin (m : gmap string string) (entries : list kvPair) (k : string) :
  k ∉ key <$> entries → (Store.applyOps m (putsOf entries)).2 !! k = m !! k.
Proof.
  revert m. induction entries as [|en entries IH]; intros m Hk; [done|].
  rewrite fmap_cons, not_elem_of_cons in Hk. destruct Hk as [Hne Hk].
  unfold putsOf in *. cbn [map]. rewrite applyOps_cons_snd. cbn [Store.applyOp snd].
  rewrite IH by done. by rewrite lookup_insert_ne.
Qed.

Lemma applyOps_puts_in (m : gmap string string) (entries : list kvPair) (en : kvPair) :
  NoDup (key <$> entries) → en ∈ entries →
  (Store.applyOps m (putsOf entries)).2 !! key en = Some (value en).
Proof.
  revert m. induction entries as [|en0 entries IH]; intros m Hnd Hin.
  { by apply elem_of_nil in Hin. }
  rewrite fmap_cons in Hnd. apply NoDup_cons in Hnd as [Hfresh Hnd].
  unfold putsOf in *. cbn [map]. rewrite applyOps_cons_snd. cbn [Store.applyOp snd].
  apply elem_of_cons in Hin as [->|Hin].
  - pose proof (applyOps_puts_notin (<[key en0:=value en0]> m) entries (key en0) Hfresh) as E.
    unfold putsOf in E. rewrite E. apply lookup_insert_eq.
  - by apply IH.
Qed.

Lemma writeError_Some (r : option error) : r ≠ None → writeError r ≠ None.
Proof. by destruct r. Qed.

Lemma run_WriteVolMetadata_kv (h : nat) (e : etcdInfo) (entries : list kvPair) (w : World) :
  let r := run h (WriteVolMetadata e entries) w in
  (r.1 = Returned None ∧ kv r.2 = (Store.applyOps (kv w) (putsOf entries)).2)
  ∨ (r.1 ≠ Returned None ∧ kv r.2 = kv w).
Proof.
  cbv zeta. destruct (createEtcdClient_cases h w) as ([c|] & w1 & Hc & (Hkv & _)).
  2:{ right. by rewrite (run_WriteVolMetadata_nil h e w w1 Hc). }
  assert (∀ w2, kv (perform h (etcdClose c) w2).2 = kv w2) as Hclose.
  { intros w2. by destruct (perform_etcdClose h c w2) as (? & _). }
  destruct entries as [|entry [|entry2 rest]].
  - right. rewrite (run_WriteVolMetadata_empty h e w w1 c Hc). cbn [fst snd].
    split; [done|]. by rewrite Hclose.
  - rewrite (run_WriteVolMetadata_one h e w w1 c Hc). cbv zeta. cbn [fst snd].
    destruct (perform_do_errorOf h c ctxTODO (OpPut (key entry) (value entry)) w1)
      as [He Hk].
    rewrite Hclose. destruct (perform h _ w1) as [r w2]. cbn [fst snd] in *.
    rewrite He. destruct (nextFault w1) as [err|].
    + right. split; [done|]. by rewrite Hk.
    + left. split; [done|]. by rewrite Hk, Hkv.
  - rewrite (run_WriteVolMetadata_many h e w w1 c Hc) by (simpl; lia).
    cbv zeta. cbn [fst snd].
    destruct (perform_txn_errorOf h c ctxTODO (putsOf (entry :: entry2 :: rest)) w1)
      as [He Hk].
    rewrite Hclose. destruct (perform h _ w1) as [r w2]. cbn [fst snd] in *.
    rewrite He. destruct (nextFault w1) as [err|].
    + right. split; [done|]. by rewrite Hk.
    + left. split; [done|]. by rewrite Hk, Hkv.
Qed.

(** X8: [WriteVolMetadata] is all or nothing.  When it returns nil,
    every entry is in the store under its key (for entries with
    distinct keys) and no other key has changed; on every other
    outcome (an error of the store, no client, a panic) the store is
    exactly as it was, so a write of several entries is never seen
    half done. *)
Theorem WriteVolMetadata_atomic (h : nat) (e : etcdInfo) (entries : list kvPair)
    (w : World) :
  let r := run h (WriteVolMetadata e entries) w in
  (r.1 = Returned None →
     (∀ k, k ∉ key <$> entries → kv r.2 !! k = kv w !! k)
     ∧ (NoDup (key <$> entries) →
        ∀ en, en ∈ entries → kv r.2 !! key en = Some (value en)))
  ∧ (r.1 ≠ Returned None → kv r.2 = kv w).
Proof.
  cbv zeta. destruct (run_WriteVolMetadata_kv h e entries w) as [[Hr Hk]|[Hr Hk]].
  - split; [|done]. intros _. rewrite Hk. split.
    + intros k Hnotin. by apply applyOps_puts_notin.
    + intros Hnd en Hin. by apply applyOps_puts_in.
  - split; [done|]. by intros _.
Qed.

Lemma volumeKeys_inj (V V' k : string) :
  k ∈ volumeKeys V → k ∈ volumeKeys V' → V = V'.
Proof.
  unfold volumeKeys. rewrite !elem_of_cons, !elem_of_nil.
  intros [->|[->|[->|[]]]] [H|[H|[H|[]]]];
    first [ by apply (inj (String.append _)) in H
          | apply (f_equal (λ s, strip etcdPrefixState s)) in H;
            rewrite strip_app in H; by vm_compute in H
          | apply (f_equal (λ s, strip etcdPrefixGRef s)) in H;
            rewrite strip_app in H; by vm_compute in H
          | apply (f_equal (λ s, strip etcdPrefixInfo s)) in H;
            rewrite strip_app in H; by vm_compute in H
          | symmetry in H; apply (f_equal (λ s, strip etcdPrefixState s)) in H;
            rewrite strip_app in H; by vm_compute in H
          | symmetry in H; apply (f_equal (λ s, strip etcdPrefixGRef s)) in H;
            rewrite strip_app in H; by vm_compute in H ].
Qed.

Lemma deleteError_Some (name : string) (r : TxnResponse + error) :
  errorOf r ≠ None → deleteError name r ≠ None.
Proof. by destruct r. Qed.

Lemma run_DeleteVolMetadata_kv (h : nat) (e : etcdInfo) (V : string) (w : World) :
  let r := run h (DeleteVolMetadata e V) w in
  (r.1 = Returned None
   ∧ kv r.2 = delete (etcdPrefixInfo +:+ V)
                (delete (etcdPrefixGRef +:+ V) (delete (etcdPrefixState +:+ V) (kv w))))
  ∨ (r.1 ≠ Returned None ∧ kv r.2 = kv w).
Proof.
  cbv zeta. destruct (createEtcdClient_cases h w) as ([c|] & w1 & Hc & (Hkv & _)).
  2:{ right. by rewrite (run_DeleteVolMetadata_nil h e w w1 Hc). }
  rewrite (run_DeleteVolMetadata h e w w1 c Hc). cbv zeta. cbn [fst snd].
  destruct (perform_txn_errorOf h c ctxTODO (deletesOf V) w1) as [He Hk].
  destruct (perform_etcdClose h c (perform h (etcdTxn c ctxTODO [] (deletesOf V)) w1).2)
    as (Hclose & _).
  rewrite Hclose. destruct (perform h _ w1) as [r w2]. cbn [fst snd] in *.
  destruct r as [resp|err]; cbn [errorOf deleteError] in *.
  - left. split; [done|]. rewrite Hk, <- He, Hkv. reflexivity.
  - right. split; [done|]. rewrite Hk, <- He. done.
Qed.

(** X9: [DeleteVolMetadata] removes the three keys of its volume and
    nothing else.  When it returns nil the keys [STATE:V], [GREF:V]
    and [INFO:V] are gone and every other key has its old value; on
    every other outcome the store is as it was; and in no case does a
    key of another volume change. *)
Theorem DeleteVolMetadata_only_its_volume (h : nat) (e : etcdInfo) (V : string)
    (w : World) :
  let r := run h (DeleteVolMetadata e V) w in
  (r.1 = Returned None →
     ∀ k, kv r.2 !! k = if bool_decide (k ∈ volumeKeys V) then None else kv w !! k)
  ∧ (r.1 ≠ Returned None → kv r.2 = kv w)
  ∧ (∀ V' k, V' ≠ V → k ∈ volumeKeys V' → kv r.2 !! k = kv w !! k).
Proof.
  cbv zeta.
  assert (∀ k, delete (etcdPrefixInfo +:+ V)
                 (delete (etcdPrefixGRef +:+ V) (delete (etcdPrefixState +:+ V) (kv w))) !! k
               = if bool_decide (k ∈ volumeKeys V) then None else kv w !! k) as Hdel.
  { intros k. case_bool_decide as Hin; [by apply volumeKeys_deleted|].
    unfold volumeKeys in Hin. rewrite !elem_of_cons, elem_of_nil in Hin.
    rewrite !lookup_delete_ne; [done|..]; intros <-; tauto. }
  destruct (run_DeleteVolMetadata_kv h e V w) as [[Hr Hk]|[Hr Hk]].
  - split; [|split]; [|done|].
    + intros _ k. by rewrite Hk.
    + intros V' k Hne Hin. rewrite Hk, Hdel.
      rewrite bool_decide_eq_false_2; [done|].
      intros Hin'. apply Hne. by eapply volumeKeys_inj.
  - split; [done|]. split; [done|]. intros. by rewrite Hk.
Qed.

(** X10: an error of the store reaches the caller of the metadata API:
    [WriteVolMetadata] (of at least one entry) returns it after
    "Failed to write metadata. Reason: ", [DeleteVolMetadata] after
    "Failed to delete metadata for volume V. Reason: ", and
    [ReadVolMetadata] returns it unchanged, with no entry. *)
Theorem metadata_store_errors (h : nat) (e : etcdInfo) (w w1 : World) (c : Client)
    (err : error) :
  run h createEtcdClient w = (Returned (Some c), w1) →
  nextFault w = Some err →
  (∀ entries, entries ≠ [] →
     (run h (WriteVolMetadata e entries) w).1
     = Returned (Some ("Failed to write metadata. Reason: " +:+ err)))
  ∧ (∀ keys, (run h (ReadVolMetadata e keys) w).1 = Returned ([], Some err))
  ∧ (∀ V, (run h (DeleteVolMetadata e V) w).1
          = Returned (Some ("Failed to delete metadata for volume " +:+ V
                            +:+ ". Reason: " +:+ err))).
Proof.
  intros Hc Hn.
  pose proof (createEtcdClient_frame h w) as F. rewrite Hc in F. cbn [snd] in F.
  pose proof (nextFault_frame _ _ F) as Hn1. rewrite Hn in Hn1.
  split; [|split].
  - intros [|entry [|entry2 rest]] Hne; [done| |].
    + rewrite (run_WriteVolMetadata_one h e w w1 c Hc). cbv zeta. cbn [fst].
      destruct (perform_do_errorOf h c ctxTODO (OpPut (key entry) (value entry)) w1)
        as [He _].
      destruct (perform h _ w1) as [r w2]. cbn [fst snd] in *. by rewrite He, Hn1.
    + rewrite (run_WriteVolMetadata_many h e w w1 c Hc) by (simpl; lia).
      cbv zeta. cbn [fst].
      destruct (perform_txn_errorOf h c ctxTODO (putsOf (entry :: entry2 :: rest)) w1)
        as [He _].
      destruct (perform h _ w1) as [r w2]. cbn [fst snd] in *. by rewrite He, Hn1.
  - intros keys. unfold ReadVolMetadata. norm. rewrite run_bind, Hc, run_defer.
    cbn [deref]. norm. rewrite run_Vis.
    destruct (perform_txn_fault h c ctxTODO [] (map OpGet keys) w1 err Hn1) as [Hr _].
    destruct (perform h _ w1) as [r w2]. cbn [fst snd] in *. subst r. simpl.
    by destruct (perform h (etcdClose c) w2).
  - intros V. rewrite (run_DeleteVolMetadata h e w w1 c Hc). cbv zeta. cbn [fst].
    destruct (perform_txn_fault h c ctxTODO [] (deletesOf V) w1 err Hn1) as [Hr _].
    destruct (perform h _ w1) as [r w2]. cbn [fst snd] in *. by subst r.
Qed.

Lemma metadata_store_errors_witness :
  let w := setFaults [Some rpcError] (exampleWorld [("SVOLS_stat_v1", "Ready")]) in
  (∀ entries, entries ≠ [] →
     (run 0 (WriteVolMetadata exampleEtcd entries) w).1
     = Returned (Some ("Failed to write metadata. Reason: " +:+ rpcError)))
  ∧ (∀ keys, (run 0 (ReadVolMetadata exampleEtcd keys) w).1 = Returned ([], Some rpcError))
  ∧ (∀ V, (run 0 (DeleteVolMetadata exampleEtcd V) w).1
          = Returned (Some ("Failed to delete metadata for volume " +:+ V
                            +:+ ". Reason: " +:+ rpcError))).
Proof.
  eapply (metadata_store_errors 0 exampleEtcd
            (setFaults [Some rpcError] (exampleWorld [("SVOLS_stat_v1", "Ready")]))).
  - vm_compute. reflexivity.
  - reflexivity.
Defined.

(** X11: when no client can be created, [WriteVolMetadata],
    [ReadVolMetadata] and [DeleteVolMetadata] panic on the nil client
    without making another call, whatever their argument, while
    [ListVolumeName] returns "Failed to create etcd client". *)
Theorem metadata_without_client (h : nat) (e : etcdInfo) (w w1 : World) :
  run h createEtcdClient w = (Returned None, w1) →
  (∀ entries, run h (WriteVolMetadata e entries) w = (Panicked nilDereference, w1))
  ∧ (∀ keys, run h (ReadVolMetadata e keys) w = (Panicked nilDereference, w1))
  ∧ (∀ V, run h (DeleteVolMetadata e V) w = (Panicked nilDereference, w1))
  ∧ run h (ListVolumeName e) w = (Returned ([], Some etcdClientCreateError), w1).
Proof.
  intros Hc. split; [|split; [|split]].
  - intros. by apply run_WriteVolMetadata_nil.
  - intros. by apply run_ReadVolMetadata_nil.
  - intros. by apply run_DeleteVolMetadata_nil.
  - unfold ListVolumeName. norm. by rewrite run_bind, Hc.
Qed.

Lemma metadata_without_client_witness :
  let w := dockerDown [("SVOLS_stat_v1", "Ready")] in
  let w1 := (run 0 createEtcdClient w).2 in
  (∀ entries, run 0 (WriteVolMetadata exampleEtcd entries) w = (Panicked nilDereference, w1))
  ∧ (∀ keys, run 0 (ReadVolMetadata exampleEtcd keys) w = (Panicked nilDereference, w1))
  ∧ (∀ V, run 0 (DeleteVolMetadata exampleEtcd V) w = (Panicked nilDereference, w1))
  ∧ run 0 (ListVolumeName exampleEtcd) w
    = (Returned ([], Some etcdClientCreateError), w1).
Proof.
  apply (metadata_without_client 0 exampleEtcd (dockerDown [("SVOLS_stat_v1", "Ready")])).
  reflexivity.
Defined.

(** ** Finding a manager to talk to *)

Lemma SplitColon0_app (host rest : string) :
  hasColon host = false → SplitColon0 (host +:+ ":" +:+ rest) = host.
Proof.
  induction host as [|a host IH]; [done|].
  rewrite append_cons. simpl. intros H. apply orb_false_iff in H as [Ha Hh].
  apply bool_decide_eq_false in Ha. rewrite decide_False by done.
  by rewrite IH.
Qed.

Lemma SplitColon0_no_colon (s : string) : hasColon (SplitColon0 s) = false.
Proof.
  induction s as [|a s IH]; [done|]. simpl.
  destruct (decide (a = ":"%char)) as [->|Hne]; [done|].
  simpl. by rewrite bool_decide_eq_false_2, IH.
Qed.

(** X12: the client endpoint is the host of the docker address with the
    etcd client port: for an address [host:port] (no colon in [host])
    [addrToEtcdClient] dials [host:2379] and nothing else, whatever the
    port was, and the host part it keeps never contains a colon. *)
Theorem addrToEtcdClient_endpoint (h : nat) (host port : string) (w : World) :
  hasColon host = false →
  (∃ r, trace (run h (addrToEtcdClient (host +:+ ":" +:+ port)) w).2
        = trace w ++ [mkEntry h (etcdNew [host +:+ ":2379"]) r])
  ∧ ∀ addr, hasColon (SplitColon0 addr) = false.
Proof.
  intros Hh. split; [|apply SplitColon0_no_colon].
  unfold addrToEtcdClient. rewrite (SplitColon0_app host port Hh). norm.
  rewrite run_Vis. fold etcdClientPort.
  pose proof (perform_trace h (etcdNew [host +:+ etcdClientPort]) w) as Ht.
  destruct (perform h _ w) as [[cl|err] w1]; cbn [fst snd] in *; eexists; exact Ht.
Qed.

Lemma addrToEtcdClient_endpoint_witness :
  (∃ r, trace (run 0 (addrToEtcdClient ("10.0.0.9" +:+ ":" +:+ "2377"))
                 (exampleWorld [])).2
        = trace (exampleWorld []) ++ [mkEntry 0 (etcdNew ["10.0.0.9" +:+ ":2379"]) r])
  ∧ ∀ addr, hasColon (SplitColon0 addr) = false.
Proof.
  apply (addrToEtcdClient_endpoint 0 "10.0.0.9" "2377" (exampleWorld [])).
  reflexivity.
Defined.

Lemma dialsFail_S (n : nat) (ds : list (option error)) :
  dialsFail (S n) ds → ∃ err ds', ds = Some err :: ds' ∧ dialsFail n ds'.
Proof.
  intros H. destruct (H 0%nat) as [err Herr]; [lia|].
  destruct ds as [|d ds']; [done|]. simpl in Herr. injection Herr as ->.
  exists err, ds'. split; [done|]. intros i Hi. apply (H (S i)). lia.
Qed.

Lemma firstManagerClient_picks (h : nat) (managers : list Peer) (n : nat) (m : Peer)
    (w : World) :
  managers !! n = Some m → dialsFail n (dials w) → dialWorks n (dials w) →
  (run h (firstManagerClient managers) w).1
  = Returned (Some (mkClient (nextClient w) [endpointOf (Addr m)])).
Proof.
  revert managers w. induction n as [|n IH]; intros managers w Hm Hfail Hworks.
  - destruct managers as [|m0 rest]; [done|]. injection Hm as ->.
    cbn [firstManagerClient]. unfold addrToEtcdClient. norm. rewrite run_Vis.
    rewrite perform_etcdNew_ok; [done|].
    destruct Hworks as [H|H]; destruct (dials w); by simplify_eq/=.
  - destruct managers as [|m0 rest]; [done|]. simpl in Hm.
    destruct (dialsFail_S n (dials w) Hfail) as (err & ds' & Hds & Hfail').
    cbn [firstManagerClient]. unfold addrToEtcdClient. norm. rewrite run_Vis.
    rewrite (perform_etcdNew_fail h _ w err) by (by rewrite Hds).
    cbn [fst snd]. rewrite Hds. cbn [pop fst snd].
    rewrite (IH rest _ Hm); simplW; [done|done|].
    unfold dialWorks in *. by rewrite Hds in Hworks.
Qed.

Lemma firstManagerClient_none (h : nat) (managers : list Peer) (w : World) :
  dialsFail (List.length managers) (dials w) →
  (run h (firstManagerClient managers) w).1 = Returned None.
Proof.
  revert w. induction managers as [|m0 rest IH]; intros w Hfail; [done|].
  destruct (dialsFail_S _ (dials w) Hfail) as (err & ds' & Hds & Hfail').
  cbn [firstManagerClient]. unfold addrToEtcdClient. norm. rewrite run_Vis.
  rewrite (perform_etcdNew_fail h _ w err) by (by rewrite Hds).
  cbn [fst snd]. rewrite Hds. cbn [pop fst snd]. by apply IH.
Qed.

(** X13: [createEtcdClient] walks the remote managers that docker
    reports, in order, and returns a client for the first one whose
    endpoint (host of its address, port 2379) can be dialled; it
    returns nil when every manager refuses. *)
Theorem createEtcdClient_first_reachable (h : nat) (w : World) (info : Info) :
  d_info w = inl info →
  let managers := RemoteManagers (Swarm info) in
  (∀ n m, managers !! n = Some m → dialsFail n (dials w) → dialWorks n (dials w) →
     (run h createEtcdClient w).1
     = Returned (Some (mkClient (nextClient w) [endpointOf (Addr m)])))
  ∧ (dialsFail (List.length managers) (dials w) →
     (run h createEtcdClient w).1 = Returned None).
Proof.
  intros Hi. cbv zeta.
  assert (∀ r, (run h (firstManagerClient (RemoteManagers (Swarm info)))
                  (perform h dockerInfo w).2).1 = r →
               (run h createEtcdClient w).1 = r) as Hrun.
  { intros r <-. unfold createEtcdClient. norm. rewrite run_Vis.
    rewrite perform_dockerInfo_eq. cbn [fst snd]. by rewrite Hi. }
  split.
  - intros n m Hm Hfail Hworks. apply Hrun.
    rewrite perform_dockerInfo_eq. cbn [snd].
    by rewrite (firstManagerClient_picks h _ n m).
  - intros Hfail. apply Hrun. rewrite perform_dockerInfo_eq. cbn [snd].
    by apply firstManagerClient_none.
Qed.

Lemma createEtcdClient_first_reachable_witness :
  let managers := [mkPeer "n0" "10.0.0.9:2377"; mkPeer "n2" "10.0.0.8:2377"] in
  (∀ n m, managers !! n = Some m →
     dialsFail n (dials twoManagers) → dialWorks n (dials twoManagers) →
     (run 0 createEtcdClient twoManagers).1
     = Returned (Some (mkClient (nextClient twoManagers) [endpointOf (Addr m)])))
  ∧ (dialsFail (List.length managers) (dials twoManagers) →
     (run 0 createEtcdClient twoManagers).1 = Returned None).
Proof.
  apply (createEtcdClient_first_reachable 0 twoManagers
           (mkInfo (mkSwarm "n1" "10.0.0.1" true
                      [mkPeer "n0" "10.0.0.9:2377"; mkPeer "n2" "10.0.0.8:2377"]))).
  reflexivity.
Defined.

Example createEtcdClient_second_manager :
  (run 0 createEtcdClient twoManagers).1
  = Returned (Some (mkClient 1 ["10.0.0.8:2379"])).
Proof. vm_compute. reflexivity. Qed.

(** ** Bootstrap *)

Lemma run_AllCalls_trace {A} (P : Op → Prop) (h : nat) (p : Prog A) (w : World) :
  AllCalls P p →
  ∃ calls, trace (run h p w).2 = trace w ++ calls ∧ Forall (λ en, P (en_op en)) calls.
Proof.
  revert w. induction p as [a|m|op k IH]; intros w Hp; simpl.
  - exists []. by rewrite app_nil_r.
  - exists []. by rewrite app_nil_r.
  - destruct Hp as [Hop Hk]. pose proof (perform_trace h op w) as Ht.
    destruct (perform h op w) as [r w1]. cbn [fst snd] in Ht.
    destruct (IH r w1 (Hk r)) as (calls & Hc & Hall).
    exists (mkEntry h op r :: calls). split.
    + by rewrite Hc, Ht, <- app_assoc.
    + by constructor.
Qed.

Lemma run_pollLocalEtcd_connects (h : nat) (e : etcdInfo) (ticks k : nat) (w : World) :
  (k < ticks)%nat → dialsFail k (dials w) → dialWorks k (dials w) →
  ∃ calls, trace (run h (pollLocalEtcd e ticks) w).2 = trace w ++ calls
    ∧ (run h (pollLocalEtcd e ticks) w).1
      = Returned (withClient e (nextClientFor w (nodeAddr e)), None)
    ∧ opsOf calls = replicate (S k) (localDial e)
                    ++ [goEtcdWatcher (nextClientFor w (nodeAddr e))].
Proof.
  revert k w. induction ticks as [|n IH]; intros k w Hk Hfail Hworks; [lia|].
  cbn [pollLocalEtcd]. unfold addrToEtcdClient. norm. rewrite run_Vis.
  fold (endpointOf (nodeAddr e)).
  destruct k as [|k].
  - rewrite perform_etcdNew_ok.
    2:{ destruct Hworks as [H|H]; destruct (dials w); by simplify_eq/=. }
    cbn [fst snd bind]. rewrite run_Vis. unfold perform at 1 2. cbn [answer fst snd run].
    simplW. eexists. split; [rewrite <- app_assoc; reflexivity|]. done.
  - destruct (dialsFail_S k (dials w) Hfail) as (err & ds' & Hds & Hfail').
    rewrite (perform_etcdNew_fail h _ w err) by (by rewrite Hds).
    cbn [fst snd bind]. rewrite Hds. cbn [pop fst snd].
    match goal with
    | |- context [run h (pollLocalEtcd e n) ?x] =>
        destruct (IH k x) as (calls & Ht & Hr & Hops)
    end.
    { lia. } { by simplW. } { simplW. unfold dialWorks in *. by rewrite Hds in Hworks. }
    rewrite Hr, Ht. unfold nextClientFor in *. simplW. eexists. split; [rewrite <- app_assoc; reflexivity|].
    split; [done|]. unfold opsOf in *. rewrite fmap_app, Hops. done.
Qed.

Lemma run_pollLocalEtcd_timeout (h : nat) (e : etcdInfo) (ticks : nat) (w : World) :
  dialsFail ticks (dials w) →
  ∃ calls, trace (run h (pollLocalEtcd e ticks) w).2 = trace w ++ calls
    ∧ (run h (pollLocalEtcd e ticks) w).1 = Returned (e, Some timeoutReached)
    ∧ opsOf calls = replicate ticks (localDial e).
Proof.
  revert w. induction ticks as [|n IH]; intros w Hfail.
  { exists []. by rewrite app_nil_r. }
  cbn [pollLocalEtcd]. unfold addrToEtcdClient. norm. rewrite run_Vis.
  fold (endpointOf (nodeAddr e)).
  destruct (dialsFail_S n (dials w) Hfail) as (err & ds' & Hds & Hfail').
  rewrite (perform_etcdNew_fail h _ w err) by (by rewrite Hds).
  cbn [fst snd bind]. rewrite Hds. cbn [pop fst snd].
  match goal with
  | |- context [run h (pollLocalEtcd e n) ?x] =>
      destruct (IH x) as (calls & Ht & Hr & Hops)
  end.
  { by simplW. }
  rewrite Hr, Ht. simplW. eexists. split; [rewrite <- app_assoc; reflexivity|].
  split; [done|]. unfold opsOf in *. rewrite fmap_app, Hops. done.
Qed.

(** What [checkLocalEtcd] does, by the dial that first goes through. *)
Lemma run_checkLocalEtcd_ops (h : nat) (e : etcdInfo) (ticks : nat) (w : World) :
  let r := run h (checkLocalEtcd e ticks) w in
  ∃ calls, trace r.2 = trace w ++ calls
    ∧ (∀ k, (k < ticks)%nat → dialsFail k (dials w) → dialWorks k (dials w) →
         r.1 = Returned (withClient e (nextClientFor w (nodeAddr e)), None)
         ∧ opsOf calls
           = [timeNewTicker checkSleepDuration; timeNewTimer requestTimeout]
             ++ replicate (S k) (localDial e)
             ++ [goEtcdWatcher (nextClientFor w (nodeAddr e)); timerStop; tickerStop])
    ∧ (dialsFail ticks (dials w) →
         r.1 = Returned (e, Some timeoutReached)
         ∧ opsOf calls
           = [timeNewTicker checkSleepDuration; timeNewTimer requestTimeout]
             ++ replicate ticks (localDial e) ++ [timerStop; tickerStop]).
Proof.
  cbv zeta. unfold checkLocalEtcd. norm. rewrite run_Vis, run_defer, run_Vis, run_defer.
  unfold perform. cbn [answer fst snd run]. simplW.
  match goal with
  | |- context [run h (pollLocalEtcd e ticks) ?x] =>
      pose proof (run_pollLocalEtcd_connects h e ticks) as Hok;
      pose proof (run_pollLocalEtcd_timeout h e ticks x) as Hto;
      pose proof (run_trace_grows h (pollLocalEtcd e ticks) x) as (calls & Hc);
      specialize (λ k, Hok k x);
      destruct (run h (pollLocalEtcd e ticks) x) as [o w3]
  end.
  simplW. cbn [fst snd] in Hc, Hok, Hto.
  exists ([mkEntry h (timeNewTicker checkSleepDuration) tt;
           mkEntry h (timeNewTimer requestTimeout) tt] ++ calls
          ++ [mkEntry h timerStop tt; mkEntry h tickerStop tt]).
  split.
  - destruct o; unfold perform; simpl; rewrite Hc, <- !app_assoc; done.
  - split.
    + intros k Hk Hfail Hworks.
      destruct (Hok k Hk Hfail Hworks) as (calls' & Hc' & -> & Hops).
      rewrite Hc in Hc'. apply app_inv_head in Hc'. subst calls'.
      unfold nextClientFor in *. simplW.
      unfold perform. simpl. split; [done|].
      unfold opsOf in *. rewrite !fmap_app, Hops. simpl.
      by rewrite <- ?app_assoc.
    + intros Hfail.
      destruct (Hto Hfail) as (calls' & Hc' & -> & Hops).
      rewrite Hc in Hc'. apply app_inv_head in Hc'. subst calls'.
      unfold perform. simpl. split; [done|].
      unfold opsOf in *. rewrite !fmap_app, Hops. simpl.
      by rewrite <- ?app_assoc.
Qed.

(** X14: [checkLocalEtcd] creates a one second ticker and a five second
    timer, dials the local endpoint (node address, port 2379) once per
    tick until a dial goes through, and stops the timer and then the
    ticker on every path.  If the dial of tick [k+1] is the first to go
    through it caches that client, starts the watcher on it and returns
    nil after exactly [k+1] dials; if every dial before the timer fails
    it returns the timeout error with nothing cached and no watcher. *)
Theorem checkLocalEtcd_shape (h : nat) (e : etcdInfo) (ticks : nat) (w : World) :
  let r := run h (checkLocalEtcd e ticks) w in
  let calls := opsOf (drop (List.length (trace w)) (trace r.2)) in
  let cli := nextClientFor w (nodeAddr e) in
  (∀ k, (k < ticks)%nat → dialsFail k (dials w) → dialWorks k (dials w) →
     r.1 = Returned (withClient e cli, None)
     ∧ calls = [timeNewTicker checkSleepDuration; timeNewTimer requestTimeout]
               ++ replicate (S k) (localDial e)
               ++ [goEtcdWatcher cli; timerStop; tickerStop])
  ∧ (dialsFail ticks (dials w) →
     r.1 = Returned (e, Some timeoutReached)
     ∧ calls = [timeNewTicker checkSleepDuration; timeNewTimer requestTimeout]
               ++ replicate ticks (localDial e) ++ [timerStop; tickerStop]
     ∧ ∀ c, goEtcdWatcher c ∉ calls).
Proof.
  cbv zeta. destruct (run_checkLocalEtcd_ops h e ticks w) as (calls & Ht & Hok & Hto).
  rewrite Ht, drop_app_length. split.
  - intros k Hk Hfail Hworks. by apply Hok.
  - intros Hfail. destruct (Hto Hfail) as [Hr Hops]. split; [done|]. split; [done|].
    intros c. rewrite Hops.
    rewrite !elem_of_app, !elem_of_cons, elem_of_replicate, elem_of_nil.
    unfold localDial. intuition discriminate.
Qed.

Example checkLocalEtcd_third_tick :
  let w := leaderWorld [Some "connection refused"; Some "connection refused"] in
  let r := run 0 (checkLocalEtcd followerEtcd 5) w in
  r.1 = Returned (withClient followerEtcd (mkClient 0 ["10.0.0.1:2379"]), None)
  ∧ opsOf (trace r.2)
    = [timeNewTicker Second; timeNewTimer (5 * Second);
       etcdNew ["10.0.0.1:2379"]; etcdNew ["10.0.0.1:2379"]; etcdNew ["10.0.0.1:2379"];
       goEtcdWatcher (mkClient 0 ["10.0.0.1:2379"]); timerStop; tickerStop].
Proof. vm_compute. split; reflexivity. Qed.

(** X15: on the swarm leader [Init] asks docker for the node's id and
    address, starts etcd as a new cluster whose only member is this
    node ([--name id], [--initial-cluster id=http://addr:2380],
    [--initial-cluster-state new]) and hands on what [checkLocalEtcd]
    finds: nil with the client cached when a dial of the local endpoint
    goes through before the timer, the timeout error otherwise. *)
Theorem Init_leader_bootstrap (h : nat) (e : etcdInfo) (ticks : nat) (w : World)
    (info : Info) (node : Node) (status : ManagerStatus) :
  d_info w = inl info → ControlAvailable (Swarm info) = true →
  d_node w = inl node → n_ManagerStatus node = Some status → Leader status = true →
  let id := NodeID (Swarm info) in
  let addr := NodeAddr (Swarm info) in
  let e1 := withNodeAddr (withNodeID e id) addr in
  let r := run h (Init e ticks) w in
  ∃ lines rest,
    opsOf (drop (List.length (trace w)) (trace r.2))
    = dockerInfo :: dockerNodeInspectWithRaw id :: goEtcdService lines :: rest
    ∧ flagValue "--name" lines = Some id
    ∧ flagValue "--initial-cluster" lines = Some (id +:+ "=http://" +:+ addr +:+ ":2380")
    ∧ flagValue "--initial-cluster-state" lines = Some "new"
    ∧ (∀ k, (k < ticks)%nat → dialsFail k (dials w) → dialWorks k (dials w) →
         r.1 = Returned (withClient e1 (nextClientFor w addr), None)
         ∧ goEtcdWatcher (nextClientFor w addr) ∈ rest)
    ∧ (dialsFail ticks (dials w) →
         r.1 = Returned (e1, Some timeoutReached)
         ∧ ∀ cli, goEtcdWatcher cli ∉ rest).
Proof.
  intros Hi Hc Hn Hs Hl. cbv zeta. unfold Init. norm.
  rewrite run_Vis, perform_dockerInfo_eq. cbn [fst snd]. rewrite Hi.
  rewrite Hc. rewrite bool_decide_eq_false_2 by done.
  rewrite run_Vis, perform_dockerNodeInspect_eq. cbn [fst snd]. simplW.
  rewrite Hn. rewrite Hs, Hl.
  rewrite run_bind. unfold startEtcdCluster. norm.
  rewrite run_Vis, perform_goEtcdService_eq. cbn [fst snd].
  match goal with
  | |- context [run h (checkLocalEtcd ?e1 ticks) ?x] =>
      destruct (run_checkLocalEtcd_ops h e1 ticks x) as (calls & Ht & Hok & Hto);
      destruct (run h (checkLocalEtcd e1 ticks) x) as [o w3]
  end.
  simplW. cbn [fst snd] in Ht, Hok, Hto.
  assert (∀ o' : Outcome (etcdInfo * option error),
    trace (match o with
           | Returned a => run h (match a.2 with
                                  | Some err => Ret (a.1, Some err)
                                  | None => Ret (a.1, None)
                                  end) w3
           | Panicked m => (Panicked m, w3)
           end).2 = trace w3) as Htr.
  { intros _. destruct o as [[e' [err|]]|m]; reflexivity. }
  eexists _, (opsOf calls). split.
  { rewrite (Htr o), Ht, <- !app_assoc, drop_app_length. reflexivity. }
  split; [reflexivity|]. split; [reflexivity|]. split; [reflexivity|].
  split.
  - intros k Hk Hfail Hworks. destruct (Hok k Hk Hfail Hworks) as [-> Hops].
    split; [reflexivity|]. rewrite Hops.
    rewrite !elem_of_app, !elem_of_cons. right. right. by left.
  - intros Hfail. destruct (Hto Hfail) as [-> Hops].
    split; [reflexivity|]. intros cli. rewrite Hops.
    rewrite !elem_of_app, !elem_of_cons, elem_of_replicate, elem_of_nil.
    unfold localDial. intuition discriminate.
Qed.

Lemma Init_leader_bootstrap_witness :
  let w := leaderWorld [Some "connection refused"] in
  let e1 := withNodeAddr (withNodeID freshEtcd "n1") "10.0.0.1" in
  let r := run 0 (Init freshEtcd 5) w in
  ∃ lines rest,
    opsOf (drop (List.length (trace w)) (trace r.2))
    = dockerInfo :: dockerNodeInspectWithRaw "n1" :: goEtcdService lines :: rest
    ∧ flagValue "--name" lines = Some "n1"
    ∧ flagValue "--initial-cluster" lines
      = Some ("n1" +:+ "=http://" +:+ "10.0.0.1" +:+ ":2380")
    ∧ flagValue "--initial-cluster-state" lines = Some "new"
    ∧ (∀ k, (k < 5)%nat → dialsFail k (dials w) → dialWorks k (dials w) →
         r.1 = Returned (withClient e1 (nextClientFor w "10.0.0.1"), None)
         ∧ goEtcdWatcher (nextClientFor w "10.0.0.1") ∈ rest)
    ∧ (dialsFail 5 (dials w) →
         r.1 = Returned (e1, Some timeoutReached)
         ∧ ∀ cli, goEtcdWatcher cli ∉ rest).
Proof.
  apply (Init_leader_bootstrap 0 freshEtcd 5 (leaderWorld [Some "connection refused"])
           exampleInfo (mkNode "n1" (Some (mkManagerStatus true "10.0.0.1:2377")))
           (mkManagerStatus true "10.0.0.1:2377")); reflexivity.
Defined.

(** *** The calls of the bootstrap *)

Lemma addrToEtcdClient_clusterOp (addr : string) :
  AllCalls clusterOp (addrToEtcdClient addr).
Proof. unfold addrToEtcdClient. norm. simpl. split; [done|]. by intros [c|err]. Qed.

Lemma pollLocalEtcd_clusterOp (e : etcdInfo) (ticks : nat) :
  AllCalls clusterOp (pollLocalEtcd e ticks).
Proof.
  induction ticks as [|n IH]; [done|]. cbn [pollLocalEtcd]. norm.
  apply AllCalls_bind; [apply addrToEtcdClient_clusterOp|].
  intros [cli|err]; [|done]. norm. by simpl.
Qed.

Lemma checkLocalEtcd_clusterOp (e : etcdInfo) (ticks : nat) :
  AllCalls clusterOp (checkLocalEtcd e ticks).
Proof.
  unfold checkLocalEtcd. norm. cbn [AllCalls]. split; [done|]. intros _.
  apply AllCalls_defer; [by simpl|]. cbn [AllCalls]. split; [done|]. intros _.
  apply AllCalls_defer; [by simpl|]. apply pollLocalEtcd_clusterOp.
Qed.

Lemma startEtcdCluster_clusterOp (e : etcdInfo) (ticks : nat) :
  AllCalls clusterOp (startEtcdCluster e ticks).
Proof.
  unfold startEtcdCluster. norm. simpl. split; [done|]. intros _.
  apply checkLocalEtcd_clusterOp.
Qed.

Lemma findSelf_clusterOp (c : Client) (peerAddr : string) (ms : list Member) :
  AllCalls clusterOp (findSelf c peerAddr ms).
Proof.
  induction ms as [|m ms IH]; [done|]. cbn [findSelf].
  repeat case_match; try done. norm. simpl. split; [done|].
  intros [? [?|]]; done.
Qed.

Lemma namedMembers_no_call (P : Op → Prop) (ms : list Member) (acc : string) :
  AllCalls P (namedMembers ms acc).
Proof.
  revert acc. induction ms as [|m ms IH]; intros acc; [done|]. cbn [namedMembers].
  repeat case_match; try done; apply IH.
Qed.

Lemma joinEtcdCluster_clusterOp (e : etcdInfo) (leaderAddr : string) (ticks : nat) :
  AllCalls clusterOp (joinEtcdCluster e leaderAddr ticks).
Proof.
  unfold joinEtcdCluster. norm.
  apply AllCalls_bind; [apply addrToEtcdClient_clusterOp|].
  intros [c|err]; [|done]. cbn [deref]. cbn [AllCalls]. split; [done|].
  intros [[lmembers|] [err|]]; cbn [fst snd]; try done.
  apply AllCalls_bind; [apply findSelf_clusterOp|].
  intros [existing|err]; [|done].
  apply AllCalls_bind.
  - destruct existing; cbn [negb].
    + apply AllCalls_bind; [apply namedMembers_no_call|done].
    + cbn [AllCalls]. split; [done|]. intros [[amembers|] [err|]]; cbn [fst snd]; try done.
      apply AllCalls_bind; [apply namedMembers_no_call|done].
  - intros [ic|err]; [|done]. cbn [AllCalls]. split; [done|]. intros _.
    apply checkLocalEtcd_clusterOp.
Qed.

Lemma joinLeader_clusterOp (e : etcdInfo) (nodes : list Node) (ticks : nat) :
  AllCalls clusterOp (joinLeader e nodes ticks).
Proof.
  induction nodes as [|n ns IH]; [done|]. cbn [joinLeader].
  repeat case_match; try done. norm.
  apply AllCalls_bind; [apply joinEtcdCluster_clusterOp|done].
Qed.

Lemma clusterOp_bootOp (op : Op) : clusterOp op → bootOp op.
Proof. by intros [? _]. Qed.

Lemma Init_bootOp (e : etcdInfo) (ticks : nat) : AllCalls bootOp (Init e ticks).
Proof.
  unfold Init. norm. cbn [AllCalls]. split; [done|]. intros [info|err]; [|done].
  case_bool_decide; [done|]. cbn [AllCalls]. split; [done|]. intros [node|err]; [|done].
  destruct (n_ManagerStatus node) as [status|]; [|done].
  destruct (Leader status).
  - apply AllCalls_bind.
    + eapply AllCalls_mono; [apply clusterOp_bootOp|apply startEtcdCluster_clusterOp].
    + intros [e' [err|]]; done.
  - cbn [AllCalls]. split; [done|]. intros [nodes|err]; [|done].
    eapply AllCalls_mono; [apply clusterOp_bootOp|apply joinLeader_clusterOp].
Qed.

Lemma perform_bootOp (h : nat) (op : Op) (w : World) :
  bootOp op → kv (perform h op w).2 = kv w ∧ smb (perform h op w).2 = smb w.
Proof.
  destruct op; try done; intros _; unfold perform; simpl;
    try (by destruct (pop None (dials w)) as [[?|] ?]);
    by destruct (pop None (faults w)) as [[?|] ?].
Qed.

(** X16: the bootstrap never touches the volumes.  On every path and
    in every world the calls of [Init] are docker queries, dials,
    member requests, the ticker and the timer and the two spawns: it
    sends no read, write or transaction to the store, so every key is
    as it was, and it never calls the SMB controller. *)
Theorem Init_leaves_volumes (h : nat) (e : etcdInfo) (ticks : nat) (w : World) :
  let r := run h (Init e ticks) w in
  kv r.2 = kv w ∧ smb r.2 = smb w
  ∧ ∃ calls, trace r.2 = trace w ++ calls
      ∧ Forall (λ en, bootOp (en_op en)) calls
      ∧ storeRequests calls = [] ∧ sideEffects calls = [].
Proof.
  cbv zeta.
  assert (kv (run h (Init e ticks) w).2 = kv w ∧ smb (run h (Init e ticks) w).2 = smb w)
    as [Hk Hs].
  { apply (run_AllCalls bootOp (λ w w', kv w' = kv w ∧ smb w' = smb w)).
    - done.
    - intros w1 w2 w3 [? ?] [? ?]. split; congruence.
    - intros. by apply perform_bootOp.
    - apply Init_bootOp. }
  split; [done|]. split; [done|].
  destruct (run_AllCalls_trace bootOp h (Init e ticks) w (Init_bootOp e ticks))
    as (calls & Ht & Hall).
  exists calls. split; [done|]. split; [done|].
  clear Ht. induction Hall as [|en calls Hen _ [IH1 IH2]]; [done|].
  unfold storeRequests, sideEffects in *. rewrite fmap_cons, !filter_cons.
  rewrite IH1, IH2. destruct en as [h' op r]. cbn [en_op] in *.
  by destruct op.
Qed.

Lemma dockerError_clusterOp (calls : list Entry) (en : Entry) :
  Forall (λ en, clusterOp (en_op en)) calls → en ∈ calls → dockerError en = None.
Proof.
  rewrite Forall_forall. intros Hall Hin. specialize (Hall en Hin).
  destruct en as [h op r]. cbn [en_op] in Hall. destruct Hall as [_ Hd].
  by destruct op.
Qed.

(** X17: [Init] gives up at the first docker query that fails.  If any
    docker call recorded for a run of [Init] (Info, NodeInspect or
    NodeList) failed with [err], then that call is the last call of
    the run and [Init] returns [err] itself: nothing is dialled or
    started after a docker failure. *)
Theorem Init_docker_errors (h : nat) (e : etcdInfo) (ticks : nat) (w : World)
    (calls : list Entry) (en : Entry) (err : error) :
  let r := run h (Init e ticks) w in
  trace r.2 = trace w ++ calls →
  en ∈ calls → dockerError en = Some err →
  (∃ e', r.1 = Returned (e', Some err)) ∧ last calls = Some en.
Proof.
  cbv zeta. unfold Init. norm.
  rewrite run_Vis, perform_dockerInfo_eq. cbn [fst snd].
  destruct (d_info w) as [info|err0] eqn:Hi.
  2:{ cbn [run fst snd]. simplW. intros Ht Hin Herr.
      apply app_inv_head in Ht. subst calls.
      apply list_elem_of_singleton in Hin. subst en.
      cbn in Herr. injection Herr as ->. split; [by eexists|done]. }
  case_bool_decide as Hca.
  { cbn [run fst snd]. simplW. intros Ht Hin Herr.
    apply app_inv_head in Ht. subst calls.
    apply list_elem_of_singleton in Hin. by subst en. }
  rewrite run_Vis, perform_dockerNodeInspect_eq. cbn [fst snd]. simplW.
  destruct (d_node w) as [node|err0] eqn:Hn.
  2:{ cbn [run fst snd]. simplW. rewrite <- app_assoc. intros Ht Hin Herr.
      apply app_inv_head in Ht. subst calls.
      cbn [app] in Hin. rewrite !elem_of_cons, elem_of_nil in Hin. destruct Hin as [->|[->|[]]]; [done|].
      cbn in Herr. injection Herr as ->. split; [by eexists|done]. }
  destruct (n_ManagerStatus node) as [status|].
  2:{ cbn [run fst snd]. simplW. rewrite <- app_assoc. intros Ht Hin Herr.
      apply app_inv_head in Ht. subst calls.
      cbn [app] in Hin. rewrite !elem_of_cons, elem_of_nil in Hin. by destruct Hin as [->|[->|[]]]. }
  destruct (Leader status).
  - rewrite run_bind.
    match goal with
    | |- context [run h (startEtcdCluster ?e1 ticks) ?x] =>
        destruct (run_AllCalls_trace clusterOp h (startEtcdCluster e1 ticks) x
                    (startEtcdCluster_clusterOp e1 ticks)) as (rest & Hrest & Hall);
        destruct (run h (startEtcdCluster e1 ticks) x) as [o w3]
    end.
    simplW. cbn [snd] in Hrest.
    assert (trace (match o with
                   | Returned a => run h (match a.2 with
                                          | Some err => Ret (a.1, Some err)
                                          | None => Ret (a.1, None)
                                          end) w3
                   | Panicked m => (Panicked m, w3)
                   end).2 = trace w3) as ->.
    { by destruct o as [[e' [?|]]|m]. }
    rewrite Hrest, <- !app_assoc. intros Ht Hin Herr.
    apply app_inv_head in Ht. subst calls.
    cbn [app] in Hin. rewrite !elem_of_cons in Hin.
    destruct Hin as [->|[->|Hin]]; [done|done|].
    by rewrite (dockerError_clusterOp rest en Hall Hin) in Herr.
  - rewrite run_Vis, perform_dockerNodeList_eq. cbn [fst snd]. simplW.
    destruct (d_nodes w) as [nodes|err0] eqn:Hns.
    2:{ cbn [run fst snd]. simplW. rewrite <- !app_assoc. intros Ht Hin Herr.
        apply app_inv_head in Ht. subst calls.
        cbn [app] in Hin. rewrite !elem_of_cons, elem_of_nil in Hin.
        destruct Hin as [->|[->|[->|[]]]]; [done|done|].
        cbn in Herr. injection Herr as ->. split; [by eexists|done]. }
    match goal with
    | |- context [run h (joinLeader ?e1 nodes ticks) ?x] =>
        destruct (run_AllCalls_trace clusterOp h (joinLeader e1 nodes ticks) x
                    (joinLeader_clusterOp e1 nodes ticks)) as (rest & Hrest & Hall);
        destruct (run h (joinLeader e1 nodes ticks) x) as [o w3]
    end.
    simplW. cbn [snd] in Hrest |- *.
    rewrite Hrest, <- !app_assoc. intros Ht Hin Herr.
    apply app_inv_head in Ht. subst calls.
    cbn [app] in Hin. rewrite !elem_of_cons in Hin.
    destruct Hin as [->|[->|[->|Hin]]]; [done|done|done|].
    by rewrite (dockerError_clusterOp rest en Hall Hin) in Herr.
Qed.

Lemma Init_docker_errors_witness :
  let w := dockerDown [] in
  let en := mkEntry 0 dockerInfo (inr "Cannot connect to the Docker daemon") in
  (∃ e', (run 0 (Init freshEtcd 5) w).1
         = Returned (e', Some "Cannot connect to the Docker daemon"))
  ∧ last [en] = Some en.
Proof.
  apply (Init_docker_errors 0 freshEtcd 5 (dockerDown [])
           [mkEntry 0 dockerInfo (inr "Cannot connect to the Docker daemon")]
           (mkEntry 0 dockerInfo (inr "Cannot connect to the Docker daemon"))
           "Cannot connect to the Docker daemon").
  - reflexivity.
  - apply list_elem_of_here.
  - reflexivity.
Defined.

(** A manager that is not the leader gets as far as the node list. *)
Lemma run_Init_manager (h : nat) (e : etcdInfo) (ticks : nat) (w : World)
    (info : Info) (node : Node) (status : ManagerStatus) (nodes : list Node) :
  d_info w = inl info → ControlAvailable (Swarm info) = true →
  d_node w = inl node → n_ManagerStatus node = Some status → Leader status = false →
  d_nodes w = inl nodes →
  run h (Init e ticks) w
  = run h (joinLeader (withNodeAddr (withNodeID e (NodeID (Swarm info)))
                         (NodeAddr (Swarm info))) nodes ticks)
      (setTrace (trace w ++ [mkEntry h dockerInfo (inl info);
                             mkEntry h (dockerNodeInspectWithRaw (NodeID (Swarm info)))
                               (inl node);
                             mkEntry h dockerNodeList (inl nodes)]) w).
Proof.
  intros Hi Hc Hn Hs Hl Hns. unfold Init. norm.
  rewrite run_Vis, perform_dockerInfo_eq. cbn [fst snd]. rewrite Hi.
  rewrite Hc. rewrite bool_decide_eq_false_2 by done.
  rewrite run_Vis, perform_dockerNodeInspect_eq. cbn [fst snd]. simplW.
  rewrite Hn. rewrite Hs, Hl.
  rewrite run_Vis, perform_dockerNodeList_eq. cbn [fst snd]. simplW.
  rewrite Hns. unfold setTrace. simplW. by rewrite <- !app_assoc.
Qed.

Lemma joinLeader_no_leader (e : etcdInfo) (nodes : list Node) (ticks : nat) :
  Forall (λ n, ¬ isLeader n) nodes →
  joinLeader e nodes ticks
  = Ret (e, Some ("Failed to get leader for swarm manager " +:+ nodeID e)).
Proof.
  induction 1 as [|n ns Hn _ IH]; [done|]. cbn [joinLeader].
  destruct (n_ManagerStatus n) as [status|] eqn:Es; [|done].
  case_bool_decide as Hl; [|done]. destruct Hn. by exists status.
Qed.

(** X18: on a manager that is not the leader, when no node of docker's
    node list is marked leader (an empty list included), [Init] returns
    "Failed to get leader for swarm manager <id>", with the id docker
    reported, after its three docker queries and nothing else. *)
Theorem Init_no_leader_listed (h : nat) (e : etcdInfo) (ticks : nat) (w : World)
    (info : Info) (node : Node) (status : ManagerStatus) (nodes : list Node) :
  d_info w = inl info → ControlAvailable (Swarm info) = true →
  d_node w = inl node → n_ManagerStatus node = Some status → Leader status = false →
  d_nodes w = inl nodes →
  Forall (λ n, ¬ isLeader n) nodes →
  let id := NodeID (Swarm info) in
  let r := run h (Init e ticks) w in
  r.1 = Returned (withNodeAddr (withNodeID e id) (NodeAddr (Swarm info)),
                  Some ("Failed to get leader for swarm manager " +:+ id))
  ∧ opsOf (drop (List.length (trace w)) (trace r.2))
    = [dockerInfo; dockerNodeInspectWithRaw id; dockerNodeList].
Proof.
  intros Hi Hc Hn Hs Hl Hns Hno. cbv zeta.
  rewrite (run_Init_manager h e ticks w info node status nodes) by done.
  rewrite joinLeader_no_leader by done. cbn [run fst snd]. simplW.
  split; [done|]. by rewrite drop_app_length.
Qed.

Lemma Init_no_leader_listed_witness :
  let w := setFaults [] (mkWorld ∅ [] [] [] [] (inl exampleInfo)
             (inl (mkNode "n1" (Some (mkManagerStatus false "10.0.0.1:2377"))))
             (inl [mkNode "n1" (Some (mkManagerStatus false "10.0.0.1:2377"));
                   mkNode "n3" None])
             0 1%N []) in
  let r := run 0 (Init freshEtcd 5) w in
  r.1 = Returned (withNodeAddr (withNodeID freshEtcd "n1") "10.0.0.1",
                  Some ("Failed to get leader for swarm manager " +:+ "n1"))
  ∧ opsOf (drop (List.length (trace w)) (trace r.2))
    = [dockerInfo; dockerNodeInspectWithRaw "n1"; dockerNodeList].
Proof.
  apply (Init_no_leader_listed 0 freshEtcd 5 _ exampleInfo
           (mkNode "n1" (Some (mkManagerStatus false "10.0.0.1:2377")))
           (mkManagerStatus false "10.0.0.1:2377")
           [mkNode "n1" (Some (mkManagerStatus false "10.0.0.1:2377"));
            mkNode "n3" None]); try reflexivity.
  rewrite !Forall_cons, Forall_nil.
  repeat split; intros (st & Hst & Hl); by simplify_eq/=.
Defined.

(** X19: on a manager that is not the leader, as soon as docker's node
    list names a leader, [Init] cannot report a failure: whatever
    happens while joining (the leader refuses, a member request fails,
    the local etcd never answers) it returns nil, unless the join
    panics. *)
Theorem Init_follower_never_fails (h : nat) (e : etcdInfo) (ticks : nat) (w : World)
    (info : Info) (node : Node) (status : ManagerStatus) (nodes : list Node) :
  d_info w = inl info → ControlAvailable (Swarm info) = true →
  d_node w = inl node → n_ManagerStatus node = Some status → Leader status = false →
  d_nodes w = inl nodes →
  Exists isLeader nodes →
  match (run h (Init e ticks) w).1 with
  | Returned r => r.2 = None
  | Panicked _ => True
  end.
Proof.
  intros Hi Hc Hn Hs Hl Hns Hex.
  rewrite (run_Init_manager h e ticks w info node status nodes) by done.
  by apply joinLeader_no_error.
Qed.

Lemma Init_follower_never_fails_witness :
  match (run 0 (Init freshEtcd 5) rejoinWorld).1 with
  | Returned r => r.2 = None
  | Panicked _ => True
  end.
Proof.
  apply (Init_follower_never_fails 0 freshEtcd 5 rejoinWorld exampleInfo
           (mkNode "n1" (Some (mkManagerStatus false "10.0.0.1:2377")))
           (mkManagerStatus false "10.0.0.1:2377")
           [mkNode "n1" (Some (mkManagerStatus false "10.0.0.1:2377"));
            mkNode "n0" (Some (mkManagerStatus true "10.0.0.9:2377"))]);
    try reflexivity.
  apply Exists_cons_tl, Exists_cons_hd.
  exists (mkManagerStatus true "10.0.0.9:2377"). split; reflexivity.
Defined.

(** *** Failures while joining *)

Lemma perform_memberList_fault (h : nat) (c : Client) (ctx : Context) (w : World)
    (err : error) :
  nextFault w = Some err →
  perform h (etcdMemberList c ctx) w
  = ((None, Some err),
     setTrace (trace w ++ [mkEntry h (etcdMemberList c ctx) (None, Some err)])
       (setFaults (pop None (faults w)).2 w)).
Proof.
  unfold perform, nextFault. simpl.
  destruct (pop None (faults w)) as [[err'|] fs]; simpl; [|done]. by intros [= ->].
Qed.

Lemma perform_memberList_next (h : nat) (c : Client) (ctx : Context) (w : World) :
  nextFault w = None →
  perform h (etcdMemberList c ctx) w
  = ((Some (members w), None),
     setTrace (trace w ++ [mkEntry h (etcdMemberList c ctx) (Some (members w), None)])
       (setFaults (pop None (faults w)).2 w)).
Proof.
  unfold perform, nextFault. simpl.
  by destruct (pop None (faults w)) as [[err'|] fs].
Qed.

Lemma perform_memberRemove_fault (h : nat) (c : Client) (ctx : Context) (id : N)
    (w : World) (err : error) :
  nextFault w = Some err →
  perform h (etcdMemberRemove c ctx id) w
  = ((None, Some err),
     setTrace (trace w ++ [mkEntry h (etcdMemberRemove c ctx id) (None, Some err)])
       (setFaults (pop None (faults w)).2 w)).
Proof.
  unfold perform, nextFault. simpl.
  destruct (pop None (faults w)) as [[err'|] fs]; simpl; [|done]. by intros [= ->].
Qed.

Lemma perform_memberAdd_fault (h : nat) (c : Client) (ctx : Context)
    (peerAddrs : list string) (w : World) (err : error) :
  nextFault w = Some err →
  perform h (etcdMemberAdd c ctx peerAddrs) w
  = ((None, Some err),
     setTrace (trace w ++ [mkEntry h (etcdMemberAdd c ctx peerAddrs) (None, Some err)])
       (setFaults (pop None (faults w)).2 w)).
Proof.
  unfold perform, nextFault. simpl.
  destruct (pop None (faults w)) as [[err'|] fs]; simpl; [|done]. by intros [= ->].
Qed.

(** X20: what a failure does to [joinEtcdCluster].  If the leader
    cannot be dialled the error is only logged and the member list
    request on the nil client panics; if the member list or the
    member add request fails, logging the length of the nil response
    panics; if removing the node's own started entry fails, that error
    is returned.  In none of these cases is a member added after the
    failure or etcd started. *)
Theorem joinEtcdCluster_failures (h : nat) (e : etcdInfo) (leaderAddr : string)
    (ticks : nat) (w : World) (err : error) :
  let r := run h (joinEtcdCluster e leaderAddr ticks) w in
  let c := nextClientFor w leaderAddr in
  let peerAddr := etcdScheme +:+ nodeAddr e +:+ etcdPeerPort in
  let calls := opsOf (drop (List.length (trace w)) (trace r.2)) in
  ((pop None (dials w)).1 = Some err →
     r.1 = Panicked nilDereference ∧ calls = [etcdNew [endpointOf leaderAddr]])
  ∧ ((pop None (dials w)).1 = None → nextFault w = Some err →
     r.1 = Panicked nilDereference
     ∧ calls = [etcdNew [endpointOf leaderAddr]; etcdMemberList c ctxBackground])
  ∧ (∀ m fs, (pop None (dials w)).1 = None → faults w = None :: Some err :: fs →
       Forall (λ m, PeerURLs m ≠ []) (members w) →
       selfEntry peerAddr (members w) = Some m → Name m ≠ EmptyString →
       r.1 = Returned (e, Some err)
       ∧ calls = [etcdNew [endpointOf leaderAddr]; etcdMemberList c ctxBackground;
                  etcdMemberRemove c ctxBackground (ID m)])
  ∧ (∀ fs, (pop None (dials w)).1 = None → faults w = None :: Some err :: fs →
       Forall (λ m, PeerURLs m ≠ []) (members w) →
       selfEntry peerAddr (members w) = None →
       r.1 = Panicked nilDereference
       ∧ calls = [etcdNew [endpointOf leaderAddr]; etcdMemberList c ctxBackground;
                  etcdMemberAdd c ctxBackground [peerAddr]]).
Proof.
  cbv zeta. unfold joinEtcdCluster, addrToEtcdClient. norm.
  rewrite run_Vis. fold (endpointOf leaderAddr).
  split; [|split; [|split]].
  - intros Hd. rewrite (perform_etcdNew_fail h _ w err Hd). cbn [fst snd bind deref run].
    simplW. split; [done|]. by rewrite drop_app_length.
  - intros Hd Hf. rewrite (perform_etcdNew_ok h _ w Hd). cbn [fst snd bind deref].
    rewrite run_Vis.
    rewrite (perform_memberList_fault h _ _ _ err) by (by unfold nextFault in *; simplW).
    cbn [fst snd run]. simplW. split; [done|].
    by rewrite <- app_assoc, drop_app_length.
  - intros m fs Hd Hf Hurls Hself Hname.
    rewrite (perform_etcdNew_ok h _ w Hd). cbn [fst snd bind deref].
    rewrite run_Vis.
    rewrite perform_memberList_next by (unfold nextFault; simplW; by rewrite Hf).
    cbn [fst snd]. simplW. rewrite Hf. cbn [pop fst snd].
    rewrite run_bind, run_findSelf by done. rewrite Hself.
    rewrite bool_decide_eq_false_2 by done. cbv zeta.
    rewrite (perform_memberRemove_fault h _ _ _ _ err) by done.
    cbn [fst snd run]. simplW. split; [done|].
    by rewrite <- !app_assoc, drop_app_length.
  - intros fs Hd Hf Hurls Hself.
    rewrite (perform_etcdNew_ok h _ w Hd). cbn [fst snd bind deref].
    rewrite run_Vis.
    rewrite perform_memberList_next by (unfold nextFault; simplW; by rewrite Hf).
    cbn [fst snd]. simplW. rewrite Hf. cbn [pop fst snd].
    rewrite run_bind, run_findSelf by done. rewrite Hself.
    cbn [negb]. norm. rewrite run_Vis.
    rewrite (perform_memberAdd_fault h _ _ _ _ err) by done.
    cbn [fst snd bind run]. simplW. split; [done|].
    by rewrite <- !app_assoc, drop_app_length.
Qed.

(** ** Watchers of several hosts on one store *)

Lemma step_allWatcherOps (s s' : Cluster) :
  allWatcherOps s → step s s' → allWatcherOps s' ∧ keepsKeys (world s) (world s').
Proof.
  intros Hg [i Hs].
  apply stepHost_cases in Hs
    as (h & Hh & [(op & k & Hp & ->)|(a & ev & rest & Hp & Hq & ->)]).
  - pose proof (Hg i h Hh) as Hi. rewrite Hp in Hi. destruct Hi as [Hop Hk].
    split; [|by apply perform_watcherOp].
    intros j hj Hj. simpl in Hj.
    apply lookup_insert_host in Hj as [[<- ->]|[_ Hj]]; [apply Hk|by eapply Hg].
  - split; [|apply keepsKeys_refl].
    intros j hj Hj. simpl in Hj.
    apply lookup_insert_host in Hj as [[<- ->]|[_ Hj]]; [|by eapply Hg].
    apply handler_watcherOp.
Qed.

Lemma reaches_allWatcherOps (s s' : Cluster) :
  allWatcherOps s → reaches s s' → allWatcherOps s' ∧ keepsKeys (world s) (world s').
Proof.
  intros Hg Hr. induction Hr as [s|s1 s2 s3 Hstep Hr IH].
  - split; [done|apply keepsKeys_refl].
  - destruct (step_allWatcherOps s1 s2 Hg Hstep) as [Hg2 Hk12].
    destruct (IH Hg2) as [Hg3 Hk23].
    split; [done|]. by eapply keepsKeys_trans.
Qed.

(** X21: the watchers of any number of hosts, with any events in their
    queues and under every interleaving of their calls, together never
    create or remove a key of the store and never change a key outside
    the [STATE] family. *)
Theorem watchers_keep_keys (s s' : Cluster) :
  idle s → reaches s s' →
  (∀ k, is_Some (kv (world s') !! k) ↔ is_Some (kv (world s) !! k))
  ∧ (∀ k, HasPrefix k etcdPrefixState = false →
       kv (world s') !! k = kv (world s) !! k).
Proof.
  intros Hidle Hr.
  assert (allWatcherOps s) as Hg.
  { intros i h Hh. by rewrite (Hidle i h Hh). }
  by destruct (reaches_allWatcherOps s s' Hg Hr) as [_ H].
Qed.

Lemma watchers_keep_keys_witness :
  let s' := runSchedule [0; 1; 0; 1; 1; 0; 0; 1; 0; 1]%nat exampleCluster in
  (∀ k, is_Some (kv (world s') !! k) ↔ is_Some (kv (world exampleCluster) !! k))
  ∧ (∀ k, HasPrefix k etcdPrefixState = false →
       kv (world s') !! k = kv (world exampleCluster) !! k).
Proof.
  apply (watchers_keep_keys exampleCluster).
  - intros [|[|i]] h Hh; simpl in Hh; by simplify_eq.
  - apply reaches_runSchedule.
Defined.

(** *** A key left in [Intermediate] *)

Lemma CompareAndPut_Harmless (e : etcdInfo) (S K o n : string) (f : bool → Prog unit) :
  edge o n → (K = S → o ≠ volStateIntermediate) →
  (∀ b, (K = S → b = false) → Harmless S (f b)) →
  Harmless S (bind (CompareAndPut e K o n) f).
Proof.
  intros He Ho Hf. unfold CompareAndPut, deref. destruct (client e) as [c|]; [|done].
  norm. cbn [Harmless]. split; [done|]. split.
  - intros o'. simpl. rewrite bool_decide_eq_true_2 by done. intros [= -> <-]. by apply Ho.
  - intros r Hr. simpl in Hr. rewrite bool_decide_eq_true_2 in Hr by done.
    destruct r as [txresp|err]; cbn [bind]; apply Hf.
    + intros ->. by apply (Hr o).
    + done.
Qed.

Lemma handler_Harmless (e : etcdInfo) (ev : Event) (S : string) :
  Harmless S (etcdEventHandler e ev).
Proof.
  unfold etcdEventHandler.
  destruct (Type_ ev); [|done]. destruct (Kv ev) as [kvp|]; [|done].
  set (K := etcdPrefixState +:+ TrimPrefix (Key kvp) etcdPrefixGRef).
  assert (∀ n (f : bool → Prog unit), edge volStateIntermediate n → K ≠ S →
            (∀ b, Harmless S (f b)) →
            Harmless S (bind (CompareAndPut e K volStateIntermediate n) f)) as Hlate.
  { intros n f Hn HK Hf. apply CompareAndPut_Harmless; [done|done|]. intros b _. apply Hf. }
  repeat case_match; try done; norm; fold K;
    (apply CompareAndPut_Harmless; [constructor|by intros _|]);
    intros [] Hb; cbn [negb]; try done;
    assert (K ≠ S) as HK by (by intros E; specialize (Hb E));
    cbn [Harmless]; (split; [done|]); (split; [done|]); intros [] _; norm;
      (apply Hlate; [constructor|done|]); intros b; try done;
        destruct (bool_decide (b = false)); try done;
          (apply Hlate; [constructor|done|]); done.
Qed.

Lemma step_allHarmless (S : string) (s s' : Cluster) :
  allHarmless S s → kv (world s) !! S = Some volStateIntermediate → step s s' →
  allHarmless S s' ∧ kv (world s') !! S = Some volStateIntermediate.
Proof.
  intros Hg HS [i Hs].
  apply stepHost_cases in Hs
    as (h & Hh & [(op & k & Hp & ->)|(a & ev & rest & Hp & Hq & ->)]).
  - pose proof (Hg i h Hh) as Hi. rewrite Hp in Hi. destruct Hi as (Hop & Ho & Hk).
    cbn [world hosts].
    assert (kv (perform i op (world s)).2 !! S = Some volStateIntermediate
            ∧ ∀ o, casKey op = Some (S, o) →
                   claimed op (perform i op (world s)).1 = false) as [HS' Hlost].
    { destruct op; try done; cbn [casKey].
      - destruct ifs as [|[k0 o] [|? ?]]; try done.
        destruct thens as [|[k' n| |] [|? ?]]; try done.
        destruct Hop as [<- He].
        destruct (perform_cas i c k0 o n ctx (world s)) as (Hsw & Hkv & _).
        rewrite bool_decide_eq_true_2 by done.
        destruct (decide (k0 = S)) as [->|Hne].
        + assert (o ≠ volStateIntermediate) as Hne.
          { apply Ho. simpl. by rewrite bool_decide_eq_true_2. }
          assert (swapped (perform i (etcdTxn c ctx [CompareValueEq S o] [OpPut S n])
                             (world s)).1 = false) as Hf.
          { rewrite Hsw. apply bool_decide_eq_false. intros [_ E]. congruence. }
          rewrite Hf in Hkv. split; [by rewrite Hkv|]. intros o' _. exact Hf.
        + split; [|by intros o' [= ? _]].
          rewrite Hkv. destruct (swapped _); [by rewrite lookup_insert_ne|done].
      - destruct (perform_smb_eq i (startSMBServer volName) (world s) eq_refl) as (-> & _).
        done.
      - destruct (perform_smb_eq i (stopSMBServer volName) (world s) eq_refl) as (-> & _).
        done. }
    split; [|done]. intros j hj Hj.
    apply lookup_insert_host in Hj as [[<- ->]|[_ Hj]]; [|by eapply Hg].
    apply Hk, Hlost.
  - split; [|done]. intros j hj Hj. simpl in Hj.
    apply lookup_insert_host in Hj as [[<- ->]|[_ Hj]]; [|by eapply Hg].
    apply handler_Harmless.
Qed.

Lemma reaches_allHarmless (S : string) (s s' : Cluster) :
  allHarmless S s → kv (world s) !! S = Some volStateIntermediate → reaches s s' →
  allHarmless S s' ∧ kv (world s') !! S = Some volStateIntermediate.
Proof.
  intros Hg HS Hr. induction Hr as [s|s1 s2 s3 Hstep Hr IH]; [done|].
  destruct (step_allHarmless S s1 s2 Hg HS Hstep) as [Hg2 HS2]. by apply IH.
Qed.

(** X22: the watchers cannot repair a volume left in [Intermediate].
    If [STATE:V] holds [Intermediate] while every watcher is between
    two events (the winner's swaps out of [Intermediate] all failed, or
    its host died), then whatever events arrive afterwards, on any
    number of hosts and under every interleaving, [STATE:V] stays
    [Intermediate]: every later handler starts with a claim from
    [Ready] or [Mounted], which fails. *)
Theorem intermediate_is_permanent (V : string) (s s' : Cluster) :
  idle s →
  kv (world s) !! (etcdPrefixState +:+ V) = Some volStateIntermediate →
  reaches s s' →
  kv (world s') !! (etcdPrefixState +:+ V) = Some volStateIntermediate.
Proof.
  intros Hidle HS Hr.
  assert (allHarmless (etcdPrefixState +:+ V) s) as Hg.
  { intros i h Hh. by rewrite (Hidle i h Hh). }
  by destruct (reaches_allHarmless _ s s' Hg HS Hr).
Qed.

Lemma intermediate_is_permanent_witness :
  kv (world (runSchedule [0; 1; 0; 0; 1; 1; 0; 1; 0; 1]%nat stuckCluster))
    !! (etcdPrefixState +:+ "v1") = Some volStateIntermediate.
Proof.
  apply (intermediate_is_permanent "v1" stuckCluster).
  - intros [|[|i]] h Hh; simpl in Hh; by simplify_eq.
  - reflexivity.
  - apply reaches_runSchedule.
Defined.

(** ** Writing, listing and deleting *)

Lemma applyOps_puts_is_Some (m : gmap string string) (entries : list kvPair) (k : string) :
  k ∈ key <$> entries → is_Some ((Store.applyOps m (putsOf entries)).2 !! k).
Proof.
  revert m. induction entries as [|en entries IH]; intros m Hin.
  { by apply elem_of_nil in Hin. }
  unfold putsOf in *. cbn [map]. rewrite applyOps_cons_snd. cbn [Store.applyOp snd].
  destruct (decide (k ∈ key <$> entries)) as [Hrest|Hrest]; [by apply IH|].
  rewrite fmap_cons in Hin. apply elem_of_cons in Hin as [->|Hin]; [|done].
  pose proof (applyOps_puts_notin (<[key en:=value en]> m) entries (key en) Hrest) as E.
  unfold putsOf in E. rewrite E, lookup_insert_eq. by eexists.
Qed.

(** X23: the listing follows the metadata.  After a [WriteVolMetadata]
    that returned nil and carried an entry for [STATE:V], a
    [ListVolumeName] that reaches the store lists [V]; after a
    [DeleteVolMetadata V] that returned nil it does not. *)
Theorem listing_follows_metadata (h : nat) (e : etcdInfo) (V : string) :
  (∀ entries w w1 c w2,
     run h (WriteVolMetadata e entries) w = (Returned None, w1) →
     etcdPrefixState +:+ V ∈ key <$> entries →
     run h createEtcdClient w1 = (Returned (Some c), w2) → nextFault w1 = None →
     ∃ names, (run h (ListVolumeName e) w1).1 = Returned (names, None) ∧ V ∈ names)
  ∧ (∀ w w1 c w2,
     run h (DeleteVolMetadata e V) w = (Returned None, w1) →
     run h createEtcdClient w1 = (Returned (Some c), w2) → nextFault w1 = None →
     ∃ names, (run h (ListVolumeName e) w1).1 = Returned (names, None) ∧ V ∉ names).
Proof.
  split.
  - intros entries w w1 c w2 Hw Hin Hc Hn.
    rewrite (run_ListVolumeName h e w1 w2 c Hc), Hn.
    eexists. split; [reflexivity|].
    change (map ?f ?l) with (f <$> l). apply state_names_mem.
    apply WriteVolMetadata_ok_kv in Hw. rewrite Hw. by apply applyOps_puts_is_Some.
  - intros w w1 c w2 Hd Hc Hn.
    rewrite (run_ListVolumeName h e w1 w2 c Hc), Hn.
    eexists. split; [reflexivity|].
    change (map ?f ?l) with (f <$> l). rewrite state_names_mem.
    apply DeleteVolMetadata_ok_kv in Hd. rewrite Hd.
    rewrite volumeKeys_deleted; [by intros [? ?]|].
    unfold volumeKeys. apply list_elem_of_here.
Qed.

Example create_list_delete :
  let w := exampleWorld [("SVOLS_stat_a", "Ready")] in
  let w1 := (run 0 (WriteVolMetadata exampleEtcd
                      [mkKvPair "SVOLS_stat_b" "Ready"; mkKvPair "SVOLS_gref_b" "0";
                       mkKvPair "SVOLS_info_b" "{}"]) w).2 in
  let w2 := (run 0 (DeleteVolMetadata exampleEtcd "a") w1).2 in
  (run 0 (ListVolumeName exampleEtcd) w).1 = Returned (["a"], None)
  ∧ (run 0 (ListVolumeName exampleEtcd) w1).1 = Returned (["b"; "a"], None)
  ∧ (run 0 (ListVolumeName exampleEtcd) w2).1 = Returned (["b"], None).
Proof. vm_compute. repeat split; reflexivity. Qed.

(** ** Examples of the failure paths *)

Example write_fails_nothing_written :
  let w := setFaults [Some rpcError] (exampleWorld [("SVOLS_stat_a", "Ready")]) in
  let r := run 0 (WriteVolMetadata exampleEtcd
                    [mkKvPair "SVOLS_stat_b" "Ready"; mkKvPair "SVOLS_gref_b" "0"]) w in
  r.1 = Returned (Some "Failed to write metadata. Reason: etcdserver: request timed out")
  ∧ kv r.2 = kv w.
Proof. vm_compute. split; reflexivity. Qed.

Example delete_keeps_other_volumes :
  let w := exampleWorld [("SVOLS_stat_a", "Ready"); ("SVOLS_gref_a", "0");
                         ("SVOLS_info_a", "{}"); ("SVOLS_stat_ab", "Mounted")] in
  let r := run 0 (DeleteVolMetadata exampleEtcd "a") w in
  r.1 = Returned None
  ∧ kv r.2 !! "SVOLS_stat_a" = None
  ∧ kv r.2 !! "SVOLS_stat_ab" = Some "Mounted".
Proof. vm_compute. repeat split; reflexivity. Qed.

Example join_member_list_fails :
  let w := setFaults [Some rpcError] (followerWorld [leaderMember]) in
  let r := run 0 (joinEtcdCluster followerEtcd "10.0.0.9:2377" 5) w in
  r.1 = Panicked nilDereference
  ∧ opsOf (trace r.2)
    = [etcdNew ["10.0.0.9:2379"];
       etcdMemberList (mkClient 0 ["10.0.0.9:2379"]) ctxBackground].
Proof. vm_compute. split; reflexivity. Qed.

Example join_remove_fails :
  let w := setFaults [None; Some rpcError] rejoinWorld in
  let r := run 0 (joinEtcdCluster followerEtcd "10.0.0.9:2377" 5) w in
  r.1 = Returned (followerEtcd, Some rpcError)
  ∧ opsOf (trace r.2)
    = [etcdNew ["10.0.0.9:2379"];
       etcdMemberList (mkClient 0 ["10.0.0.9:2379"]) ctxBackground;
       etcdMemberRemove (mkClient 0 ["10.0.0.9:2379"]) ctxBackground 5].
Proof. vm_compute. split; reflexivity. Qed.
